(** * The tio.run protocol client of cph ([src/tioRunner.ts])

    A shallow embedding of the remote-execution client: the endpoint cache
    ([ensureRunUrl]), the request encoder ([encodeField],
    [buildRequestBody]), the transport step with its timer and external
    abort signal ([executeRequest]) and the response decoder (the tail of
    [runOnTio]).

    Conventions.
    - A JavaScript string is the list of its UTF-16 code units.
    - A [Buffer] is a list of bytes, each a number below 256.
    - A JavaScript [number] is [NaN], an infinity, or finite. A finite
      number is written with the rational it was read or computed from
      and stands for the binary64 value nearest to that rational ([b64],
      ties to even); a value too large for binary64 is an infinity.
      Products, quotients, roundings and tests against 0 of numbers that
      were read from text go through [b64]. The numbers a caller passes
      (the timeout) are binary64 values already; they are compared as
      rationals.
    - Module-level variables ([runUrl], [nextRefreshAt]) are an explicit
      state; network calls are answered by an environment record and logged
      in a trace.

    Around the client: the language tables of [src/languageMappings.ts]
    ([choiceToDefaultTioLanguage], [getChoiceForTioLanguage],
    [sanitizeExtensionFromTioLanguage]), and of [src/executions.ts] the
    functions [mapLanguageToTio] and [runTestCase], with the verdict that
    [runSingleAndSave] passes on a run. *)

From Stdlib Require Import String Ascii.
From Stdlib Require Import List NArith ZArith QArith Qminmax Lia Bool.
From Stdlib Require Import DecimalNat Qround.
Import ListNotations.

Close Scope Q_scope.
Set Implicit Arguments.

(** ** JavaScript strings *)

Module JS.

Definition codeunit := N.
Definition jsstring := list codeunit.
Definition bytes := list N.

(** Literals: an ASCII Rocq string read as code units. *)
Definition lit (s : string) : jsstring :=
  map N_of_ascii (list_ascii_of_string s).

Definition NUL : codeunit := 0%N.
Definition LF : codeunit := 10%N.
Definition CR : codeunit := 13%N.
Definition DQUOTE : codeunit := 34%N.

Definition ceq (a b : codeunit) : bool := N.eqb a b.

Fixpoint str_eqb (a b : jsstring) : bool :=
  match a, b with
  | [], [] => true
  | x :: a', y :: b' => ceq x y && str_eqb a' b'
  | _, _ => false
  end.

(** [startsWith p s]: [p] is a prefix of [s]. *)
Fixpoint startsWith (p s : jsstring) : bool :=
  match p, s with
  | [], _ => true
  | x :: p', y :: s' => ceq x y && startsWith p' s'
  | _ :: _, [] => false
  end.

(** [String.prototype.substring(0, n)] and [substring(n)]. *)
Definition substring_to (n : nat) (s : jsstring) : jsstring := firstn n s.
Definition substring_from (n : nat) (s : jsstring) : jsstring := skipn n s.

(** [Array.prototype.join('')]. *)
Definition join (l : list jsstring) : jsstring := concat l.

(** *** Decimal rendering of a non-negative integer
    (template-literal interpolation of an array length or byte count). *)

Definition digit_char (d : N) : codeunit := (48 + d)%N.

Fixpoint uint_chars (u : Decimal.uint) : jsstring :=
  match u with
  | Decimal.Nil => []
  | Decimal.D0 u' => digit_char 0 :: uint_chars u'
  | Decimal.D1 u' => digit_char 1 :: uint_chars u'
  | Decimal.D2 u' => digit_char 2 :: uint_chars u'
  | Decimal.D3 u' => digit_char 3 :: uint_chars u'
  | Decimal.D4 u' => digit_char 4 :: uint_chars u'
  | Decimal.D5 u' => digit_char 5 :: uint_chars u'
  | Decimal.D6 u' => digit_char 6 :: uint_chars u'
  | Decimal.D7 u' => digit_char 7 :: uint_chars u'
  | Decimal.D8 u' => digit_char 8 :: uint_chars u'
  | Decimal.D9 u' => digit_char 9 :: uint_chars u'
  end.

Definition decimal (n : nat) : jsstring := uint_chars (Nat.to_uint n).

(** *** UTF-8 encoding of a UTF-16 string ([Buffer.from(s, 'utf8')])

    A high surrogate followed by a low surrogate encodes one supplementary
    code point in four bytes; a surrogate on its own is replaced by U+FFFD
    (three bytes). *)

Definition is_high (c : codeunit) : bool := (55296 <=? c)%N && (c <=? 56319)%N.
Definition is_low (c : codeunit) : bool := (56320 <=? c)%N && (c <=? 57343)%N.

Definition utf8_1 (c : N) : bytes := [c].
Definition utf8_2 (c : N) : bytes :=
  [192 + c / 64; 128 + c mod 64]%N.
Definition utf8_3 (c : N) : bytes :=
  [224 + c / 4096; 128 + (c / 64) mod 64; 128 + c mod 64]%N.
Definition utf8_4 (c : N) : bytes :=
  [240 + c / 262144; 128 + (c / 4096) mod 64;
   128 + (c / 64) mod 64; 128 + c mod 64]%N.

Definition REPLACEMENT : N := 65533%N.

Definition pair_codepoint (hi lo : codeunit) : N :=
  (65536 + (hi - 55296) * 1024 + (lo - 56320))%N.

Definition utf8_unit (c : codeunit) : bytes :=
  if (c <? 128)%N then utf8_1 c
  else if (c <? 2048)%N then utf8_2 c
  else if is_high c || is_low c then utf8_3 REPLACEMENT
  else utf8_3 c.

Fixpoint utf8_encode (s : jsstring) : bytes :=
  match s with
  | [] => []
  | c :: s' =>
      if is_high c then
        match s' with
        | d :: s'' =>
            if is_low d then utf8_4 (pair_codepoint c d) ++ utf8_encode s''
            else utf8_3 REPLACEMENT ++ utf8_encode s'
        | [] => utf8_3 REPLACEMENT
        end
      else utf8_unit c ++ utf8_encode s'
  end.

Definition starts_low (s : jsstring) : bool :=
  match s with c :: _ => is_low c | [] => false end.

(** [Buffer.byteLength(s, 'utf8')]: counted per code unit, without building
    the bytes. *)
Fixpoint byteLength (s : jsstring) : nat :=
  match s with
  | [] => 0
  | c :: s' =>
      if is_high c then
        match s' with
        | d :: s'' => if is_low d then 4 + byteLength s'' else 3 + byteLength s'
        | [] => 3
        end
      else if (c <? 128)%N then 1 + byteLength s'
      else if (c <? 2048)%N then 2 + byteLength s'
      else 3 + byteLength s'
  end.

(** *** [String.prototype.split(separator)]

    With a non-empty separator the string is scanned from the left; at each
    occurrence the text since the previous one is emitted and the scan
    resumes after the separator ([skip] counts the separator characters
    still to pass over); the text after the last occurrence is emitted at
    the end. With the empty separator the result is the list of code
    units, which is empty for the empty string. *)

Fixpoint split_go (sep : jsstring) (skip : nat) (acc s : jsstring)
  : list jsstring :=
  match s with
  | [] => [rev acc]
  | c :: s' =>
      match skip with
      | S k => split_go sep k acc s'
      | O =>
          if startsWith sep s
          then rev acc :: split_go sep (length sep - 1) [] s'
          else split_go sep 0 (c :: acc) s'
      end
  end.

Definition split (s sep : jsstring) : list jsstring :=
  match sep with
  | [] => map (fun c => [c]) s
  | _ :: _ => split_go sep 0 [] s
  end.

(** [String.prototype.indexOf]: position of the first occurrence. *)
Fixpoint indexOf (sep s : jsstring) : option nat :=
  if startsWith sep s then Some 0
  else match s with
       | [] => None
       | _ :: s' => option_map S (indexOf sep s')
       end.

End JS.

(** ** The three patterns of [tioRunner.ts]

    Each pattern is written as the matcher the regular expression denotes.
    Every quantified class is followed by a literal whose first character
    lies outside the class (the hexadecimal run by a hyphen, the run of
    non-quote characters by a double quote, the runs of digits and dots by
    a space, the final digits by the end of input), so the greedy run is the
    only candidate and backtracking over it cannot succeed; only the leading
    group of [DEBUG_REGEX], which accepts any character, backtracks, from
    the longest prefix down. *)

Module Regex.
Import JS.

Definition is_digit (c : codeunit) : bool := (48 <=? c)%N && (c <=? 57)%N.
Definition is_digit_or_dot (c : codeunit) : bool := is_digit c || ceq c 46%N.
Definition is_hex (c : codeunit) : bool :=
  is_digit c || ((97 <=? c)%N && (c <=? 102)%N).
Definition not_dquote (c : codeunit) : bool := negb (ceq c DQUOTE).

(** LineTerminator of ECMAScript: LF, CR, U+2028, U+2029. *)
Definition is_line_terminator (c : codeunit) : bool :=
  ceq c LF || ceq c CR || ceq c 8232%N || ceq c 8233%N.

(** Longest run of characters of a class, and the rest. *)
Fixpoint span (p : codeunit -> bool) (s : jsstring) : jsstring * jsstring :=
  match s with
  | [] => ([], [])
  | c :: s' =>
      if p c then let (r, t) := span p s' in (c :: r, t) else ([], s)
  end.

(** [class+]: a non-empty longest run. *)
Definition plus (p : codeunit -> bool) (s : jsstring)
  : option (jsstring * jsstring) :=
  match span p s with
  | ([], _) => None
  | (r, t) => Some (r, t)
  end.

(** A literal: the rest of the input after it. *)
Fixpoint expect (l s : jsstring) : option jsstring :=
  match l, s with
  | [], _ => Some s
  | x :: l', y :: s' => if ceq x y then expect l' s' else None
  | _ :: _, [] => None
  end.

Definition obind {A B} (o : option A) (k : A -> option B) : option B :=
  match o with Some a => k a | None => None end.

Notation "'let?' x ':=' o 'in' k" := (obind o (fun x => k))
  (at level 10, x pattern, k at level 200).

(** *** [SCRIPT_REGEX], line 5 *)

Definition SCRIPT_at (s : jsstring) : option jsstring :=
  let? s1 := expect (lit "<script src=" ++ [DQUOTE]) s in
  let? s2 := expect (lit "/static/") s1 in
  let? (h, s3) := plus is_hex s2 in
  let? s4 := expect (lit "-frontend.js") s3 in
  let? _ := expect (DQUOTE :: lit " defer></script>") s4 in
  Some (lit "/static/" ++ h ++ lit "-frontend.js").

(** [s.match(SCRIPT_REGEX)?.[1]]: group 1 of the leftmost match. *)
Fixpoint SCRIPT_REGEX (s : jsstring) : option jsstring :=
  match SCRIPT_at s with
  | Some g => Some g
  | None => match s with [] => None | _ :: s' => SCRIPT_REGEX s' end
  end.

(** *** [RUN_URL_REGEX], line 7 (flag [m]: [^] and [$] match at line
    boundaries) *)

Definition at_eol (s : jsstring) : bool :=
  match s with [] => true | c :: _ => is_line_terminator c end.

Definition RUN_URL_at (s : jsstring) : option jsstring :=
  let? s1 :=
    expect (lit "var runURL = " ++ DQUOTE :: lit "/cgi-bin/static/") s in
  let? (g, s2) := plus not_dquote s1 in
  let? s3 := expect (DQUOTE :: lit ";") s2 in
  if at_eol s3 then Some g else None.

Fixpoint RUN_URL_search (bol : bool) (s : jsstring) : option jsstring :=
  match (if bol then RUN_URL_at s else None) with
  | Some g => Some g
  | None =>
      match s with
      | [] => None
      | c :: s' => RUN_URL_search (is_line_terminator c) s'
      end
  end.

(** [s.match(RUN_URL_REGEX)?.[1]]. *)
Definition RUN_URL_REGEX (s : jsstring) : option jsstring :=
  RUN_URL_search true s.

(** *** [DEBUG_REGEX], line 8 *)

Record groups := {
  g_debug : jsstring;
  g_realTime : jsstring;
  g_userTime : jsstring;
  g_sysTime : jsstring;
  g_CPUshare : jsstring;
  g_exitCode : jsstring
}.

(** The part after group 1: five metric lines, then the end of input. *)
Definition metrics (debug s : jsstring) : option groups :=
  let? s := expect (lit "Real time: ") s in
  let? (real, s) := plus is_digit_or_dot s in
  let? s := expect (lit " s" ++ LF :: lit "User time: ") s in
  let? (user, s) := plus is_digit_or_dot s in
  let? s := expect (lit " s" ++ LF :: lit "Sys. time: ") s in
  let? (sys, s) := plus is_digit_or_dot s in
  let? s := expect (lit " s" ++ LF :: lit "CPU share: ") s in
  let? (cpu, s) := plus is_digit_or_dot s in
  let? s := expect (lit " %" ++ LF :: lit "Exit code: ") s in
  let? (code, s) := plus is_digit s in
  match s with
  | [] => Some {| g_debug := debug; g_realTime := real; g_userTime := user;
                  g_sysTime := sys; g_CPUshare := cpu; g_exitCode := code |}
  | _ :: _ => None
  end.

(** [DEBUG_from pre s]: the match whose group 1 is [rev pre] followed by the
    longest possible prefix of [s]. *)
Fixpoint DEBUG_from (pre s : jsstring) : option groups :=
  match s with
  | [] => metrics (rev pre) []
  | c :: s' =>
      match DEBUG_from (c :: pre) s' with
      | Some g => Some g
      | None => metrics (rev pre) s
      end
  end.

(** [s.match(DEBUG_REGEX)]. A match at a later start position extends to
    one at position 0, since group 1 absorbs any prefix; so the match
    found is the one starting at 0. *)
Definition DEBUG_REGEX (s : jsstring) : option groups := DEBUG_from [] s.

End Regex.

(** ** JavaScript numbers *)

Module Num.
Import JS.

(** [Fin q] stands for the binary64 value nearest to [q]: the decimal 0.12
    for the number that JavaScript writes 0.12. *)
Inductive number :=
| NaN
| PosInf
| NegInf
| Fin (q : Q).

(** *** Binary64

    [b64 q] is the binary64 value nearest to [q], ties to even, for a
    magnitude below [huge]. The value is [m * 2 ^ e] with [m] below
    [2 ^ 53] and [e] the exponent of the binade of [q], at least -1074
    (below the normal range the spacing stays [2 ^ -1074]). *)

(** The integer part of the binary logarithm of [n / d], for [n] and [d]
    positive. *)
Definition ilog2 (n d : Z) : Z :=
  let k := (Z.log2 n - Z.log2 d)%Z in
  if (n * 2 ^ Z.max 0 (- k) <? d * 2 ^ Z.max 0 k)%Z then (k - 1)%Z else k.

(** [a / b] rounded to the nearest integer, a tie to the even one. *)
Definition round_even (a b : Z) : Z :=
  let m := (a / b)%Z in
  match (2 * (a mod b) ?= b)%Z with
  | Lt => m
  | Gt => (m + 1)%Z
  | Eq => if Z.even m then m else (m + 1)%Z
  end.

Definition b64_pos (n d : Z) : Q :=
  let e := Z.max (ilog2 n d - 52) (-1074) in
  let m := round_even (n * 2 ^ Z.max 0 (- e)) (d * 2 ^ Z.max 0 e) in
  Qred (Qmake (m * 2 ^ Z.max 0 e) (Z.to_pos (2 ^ Z.max 0 (- e)))).

Definition b64 (q : Q) : Q :=
  match Qnum q with
  | Z0 => 0%Q
  | Zpos n => b64_pos (Zpos n) (Zpos (Qden q))
  | Zneg n => (- b64_pos (Zpos n) (Zpos (Qden q)))%Q
  end.

(** The least magnitude that rounds to an infinity: half a step above the
    largest binary64 value. *)
Definition huge : Q := inject_Z (2 ^ 1024 - 2 ^ 970).

(** Up to [two53] every whole number is a binary64 value. *)
Definition two53 : Z := 9007199254740992.

(** The number for the real [q]. *)
Definition of_real (q : Q) : number :=
  if Qle_bool huge q then PosInf
  else if Qle_bool q (- huge) then NegInf
  else Fin q.


(** [Math.max(a, b)]. *)
Definition Math_max (a b : number) : number :=
  match a, b with
  | NaN, _ | _, NaN => NaN
  | PosInf, _ | _, PosInf => PosInf
  | NegInf, x | x, NegInf => x
  | Fin x, Fin y => Fin (Qmax x y)
  end.

Definition isFinite (a : number) : bool :=
  match a with Fin _ => true | _ => false end.

(** [a > 0]. *)
Definition gt0 (a : number) : bool :=
  match a with
  | Fin q => negb (Qle_bool q 0%Q)
  | PosInf => true
  | NaN | NegInf => false
  end.

(** [a / 1000]; the quotient of a binary64 value by 1000 is never too
    large. *)
Definition div1000 (a : number) : number :=
  match a with
  | Fin q => Fin (b64 q / 1000)%Q
  | other => other
  end.

Definition digit_val (c : codeunit) : N := (c - 48)%N.

Fixpoint digits_val (acc : N) (s : jsstring) : N :=
  match s with
  | [] => acc
  | c :: s' => digits_val (10 * acc + digit_val c) s'
  end.

Fixpoint pow10 (k : nat) : positive :=
  match k with O => 1%positive | S k' => (10 * pow10 k')%positive end.

Definition is_nil (s : jsstring) : bool :=
  match s with [] => true | _ => false end.

(** [parseFloat(s)] for [s] over digits and dots, the alphabet of the
    numeric groups of [DEBUG_REGEX]: the longest prefix [digits], [digits.],
    [digits.digits] or [.digits] is read; no such prefix gives [NaN].
    The number is the one for the decimal value of the prefix, rounded
    correctly (as V8 does), so [+Infinity] for a value of [huge] or more.
    Signs, exponents and white space do not occur in that alphabet and are
    not modelled. *)
Definition parseFloat (s : jsstring) : number :=
  let (ip, r) := Regex.span Regex.is_digit s in
  match r with
  | c :: r' =>
      if ceq c 46%N then
        let (fp, _) := Regex.span Regex.is_digit r' in
        if is_nil ip && is_nil fp then NaN
        else of_real
               (Qmake (Z.of_N (digits_val 0 (ip ++ fp))) (pow10 (length fp)))
      else if is_nil ip then NaN
      else of_real (inject_Z (Z.of_N (digits_val 0 ip)))
  | [] =>
      if is_nil ip then NaN
      else of_real (inject_Z (Z.of_N (digits_val 0 ip)))
  end.

(** [Number(s)] for [s] a run of decimal digits, the shape of the last
    group of [DEBUG_REGEX]; the empty string converts to 0, and a run whose
    value is [huge] or more to [+Infinity]. *)
Definition Number (s : jsstring) : number :=
  if forallb Regex.is_digit s
  then of_real (inject_Z (Z.of_N (digits_val 0 s)))
  else NaN.

End Num.

(** ** The client *)

Module Tio.
Import JS Regex Num.

(** *** Exceptions and results *)

(** An exception raised by the runtime ([fetch], [zlib]): its [name] and
    [message]. *)
Record fault := {
  name : jsstring;
  message : jsstring
}.

Inductive exn :=
| Error (message : jsstring)
    (** [new Error(message)] *)
| ExecutionAbortedError
    (** the class exported at line 18 *)
| Raised (f : fault).
    (** an exception of the runtime, passed on unchanged *)

Definition exn_name (e : exn) : jsstring :=
  match e with
  | Error _ => lit "Error"
  | ExecutionAbortedError => lit "ExecutionAbortedError"
  | Raised f => name f
  end.

Definition result (A : Type) : Type := (exn + A)%type.

(** What a call into the runtime gives: a value, or a fault. *)
Definition reply (A : Type) : Type := (fault + A)%type.

Definition raised {A} (r : reply A) : result A :=
  match r with inl f => inl (Raised f) | inr a => inr a end.

(** *** The runtime: library functions the client calls *)

Class Runtime := {
  (** [deflateRawSync(payload, { level: 9 })] on the bytes of the payload *)
  deflateRawSync : bytes -> bytes;
  (** [gunzipSync(buffer)] *)
  gunzipSync : bytes -> reply bytes;
  (** [Buffer.prototype.toString()] *)
  Buffer_toString : bytes -> jsstring;
  (** interpolation of a number into a template literal *)
  Number_toString : number -> jsstring
}.

(** *** The network and the clock, as seen by one call of [runOnTio] *)

Record response (B : Type) := {
  ok : bool;
  status : nat;
  statusText : jsstring;
  content : reply B   (** [response.text()] or [response.arrayBuffer()] *)
}.

Inductive request :=
| GET (url : jsstring)
| POST (url : jsstring) (body : bytes).

(** What can happen while the POST is in flight. *)
Inductive event := TimerFires | SignalAborts.

Record env := {
  (** [Date.now()] at line 36 *)
  now_check : Z;
  (** [Date.now()] at line 55 *)
  now_store : Z;
  (** the reply to [fetch(url)] *)
  reply_get : jsstring -> reply (response jsstring);
  (** [randomBytes(16).toString('hex')] *)
  randomHex : jsstring;
  (** the events that occur before the POST settles, in order *)
  inflight : list event;
  (** the reply to the POST when nothing aborts it *)
  reply_post : jsstring -> bytes -> reply (response bytes)
}.

(** *** Module state and the monad of the client *)

Record cache := {
  runUrl : option jsstring;
  nextRefreshAt : Z
}.

Definition initial : cache := {| runUrl := None; nextRefreshAt := 0 |}.

Record outcome (A : Type) := {
  value : result A;
  final : cache;
  trace : list request
}.

Definition M (A : Type) : Type := cache -> outcome A.

Definition ret {A} (a : A) : M A :=
  fun c => {| value := inr a; final := c; trace := [] |}.

Definition throw {A} (e : exn) : M A :=
  fun c => {| value := inl e; final := c; trace := [] |}.

Definition bind {A B} (m : M A) (k : A -> M B) : M B :=
  fun c =>
    let o := m c in
    match value o with
    | inl e => {| value := inl e; final := final o; trace := trace o |}
    | inr a =>
        let o' := k a (final o) in
        {| value := value o'; final := final o';
           trace := trace o ++ trace o' |}
    end.

Definition read : M cache :=
  fun c => {| value := inr c; final := c; trace := [] |}.

Definition write (c : cache) : M unit :=
  fun _ => {| value := inr tt; final := c; trace := [] |}.

Definition emit (r : request) : M unit :=
  fun c => {| value := inr tt; final := c; trace := [r] |}.

Definition lift {A} (r : result A) : M A :=
  match r with inl e => throw e | inr a => ret a end.

Notation "x <- m ;; k" := (bind m (fun x => k))
  (at level 61, m at next level, right associativity).
Notation "m ;;; k" := (bind m (fun _ => k))
  (at level 61, right associativity).

(** *** Constants, lines 11 to 13 *)

Definition TIO_BASE_URL : jsstring := lit "https://tio.run".
Definition RUN_URL_REFRESH_MS : Z := 850000.
Definition MIN_TIMEOUT_MS : number := Fin 500%Q.

(** *** [fetchText], line 25 *)

Definition fetchText (e : env) (path : jsstring) : M jsstring :=
  let url := TIO_BASE_URL ++ path in
  emit (GET url) ;;;
  response <- lift (raised (reply_get e url)) ;;
  if negb (ok response) then
    throw (Error (concat [lit "Failed to fetch "; path;
                          lit " from tio.run ("; decimal (status response);
                          lit ")"]))
  else lift (raised (content response)).

(** *** [ensureRunUrl], line 35 *)

Definition truthy (o : option jsstring) : option jsstring :=
  match o with
  | Some (c :: s) => Some (c :: s)
  | _ => None
  end.

Definition ensureRunUrl (e : env) : M unit :=
  c <- read ;;
  if match runUrl c with Some _ => true | None => false end
     && (now_check e <? nextRefreshAt c)%Z
  then ret tt
  else
    landingHtml <- fetchText e (lit "/") ;;
    match truthy (SCRIPT_REGEX landingHtml) with
    | None =>
        throw (Error (lit "Unable to resolve tio.run frontend script URL"))
    | Some scriptPath =>
        frontendScript <- fetchText e scriptPath ;;
        match truthy (RUN_URL_REGEX frontendScript) with
        | None => throw (Error (lit "Unable to resolve tio.run execution URL"))
        | Some newRunUrl =>
            write {| runUrl := Some newRunUrl;
                     nextRefreshAt := now_store e + RUN_URL_REFRESH_MS |}
        end
    end.

(** *** [encodeLength] and [encodeField], lines 58 to 62 *)

Definition encodeLength (value : jsstring) : nat := byteLength value.

Definition encodeField (label value : jsstring) : jsstring :=
  concat [label; [NUL]; decimal (encodeLength value); [NUL]; value].

(** *** Options *)

Record AbortSignal := { aborted : bool }.

Record NormalizedOptions := {
  language : jsstring;
  stdin : jsstring;
  timeout : number;
  argv : list jsstring;
  cflags : list jsstring;
  signal : option AbortSignal
}.

Record TioRunOptions := {
  o_language : jsstring;
  o_stdin : option jsstring;
  o_timeout : number;
  o_argv : option (list jsstring);
  o_cflags : option (list jsstring);
  o_signal : option AbortSignal
}.

(** [a ?? b] *)
Definition nullish {A} (a : option A) (b : A) : A :=
  match a with Some x => x | None => b end.

(** *** [buildRequestBody], line 73 *)

Definition payload (code : jsstring) (options : NormalizedOptions) : jsstring :=
  let cflags := join (map (fun flag => flag ++ [NUL]) (cflags options)) in
  let argv := join (map (fun arg => arg ++ [NUL]) (argv options)) in
  concat [lit "Vargs"; [NUL]; decimal (length options.(Tio.argv)); [NUL]; argv;
          lit "Vlang"; [NUL]; [49%N]; [NUL]; language options; [NUL];
          lit "VTIO_CFLAGS"; [NUL]; decimal (length options.(Tio.cflags));
          [NUL]; cflags;
          lit "VTIO_OPTIONS"; [NUL]; [48%N]; [NUL];
          encodeField (lit "F.code.tio") code;
          encodeField (lit "F.input.tio") (stdin options);
          lit "R"].

Definition buildRequestBody `{Runtime} (code : jsstring)
    (options : NormalizedOptions) : bytes :=
  deflateRawSync (utf8_encode (payload code options)).

(** *** [executeRequest], line 88

    The state of one call while its POST is in flight: the local [timedOut],
    the [aborted] flag of the caller's signal, the [aborted] flag of the
    local controller, whether the timer is still pending, and a record of
    every [controller.abort()] with the flags as they stood when it was
    issued. *)

Inductive cause := ByTimer | BySignal.

Record abort_call := {
  by_whom : cause;
  timedOut_then : bool;
  signal_then : bool
}.

Record flight := {
  f_timedOut : bool;
  f_signal : bool;
  f_controller : bool;
  f_timer : bool;
  f_aborts : list abort_call
}.

Definition takeoff (armed : bool) : flight :=
  {| f_timedOut := false; f_signal := false; f_controller := false;
     f_timer := armed; f_aborts := [] |}.

(** [timedOut = true] *)
Definition set_timedOut (f : flight) : flight :=
  {| f_timedOut := true; f_signal := f_signal f;
     f_controller := f_controller f; f_timer := f_timer f;
     f_aborts := f_aborts f |}.

(** the runtime sets [signal.aborted] before it runs the listeners *)
Definition set_signal (f : flight) : flight :=
  {| f_timedOut := f_timedOut f; f_signal := true;
     f_controller := f_controller f; f_timer := f_timer f;
     f_aborts := f_aborts f |}.

Definition timer_done (f : flight) : flight :=
  {| f_timedOut := f_timedOut f; f_signal := f_signal f;
     f_controller := f_controller f; f_timer := false;
     f_aborts := f_aborts f |}.

(** [controller.abort()] *)
Definition controller_abort (who : cause) (f : flight) : flight :=
  {| f_timedOut := f_timedOut f; f_signal := f_signal f;
     f_controller := true; f_timer := f_timer f;
     f_aborts := f_aborts f ++
       [{| by_whom := who; timedOut_then := f_timedOut f;
           signal_then := f_signal f |}] |}.

(** The callback of [setTimeout], lines 97 to 100. *)
Definition timer_callback (f : flight) : flight :=
  controller_abort ByTimer (set_timedOut f).

(** [handleAbort], line 103, run by the caller's signal. *)
Definition handleAbort (f : flight) : flight :=
  controller_abort BySignal f.

(** One event. The timer fires only if it was started and has not fired;
    the caller's signal aborts only if there is one ([listening]) and it
    has not aborted yet. *)
Definition step (listening : bool) (f : flight) (ev : event) : flight :=
  match ev with
  | TimerFires =>
      if f_timer f then timer_callback (timer_done f) else f
  | SignalAborts =>
      if listening && negb (f_signal f) then handleAbort (set_signal f)
      else f
  end.

Definition fly (listening : bool) (evs : list event) (f : flight) : flight :=
  fold_left (step listening) evs f.

Record transport := {
  buffer : option bytes;
  t_timedOut : bool
}.

Definition AbortError : exn :=
  Raised {| name := lit "AbortError";
            message := lit "This operation was aborted" |}.

(** The body of the [try], lines 113 to 131, given the state reached when
    the awaited calls settle: an aborted controller rejects them with an
    [AbortError]. *)
Definition attempt (e : env) (url : jsstring) (body : bytes) (f : flight)
  : result bytes :=
  if f_controller f then inl AbortError
  else
    match reply_post e url body with
    | inl err => inl (Raised err)
    | inr response =>
        if negb (ok response) then
          inl (Error (concat [lit "tio.run responded with ";
                              decimal (status response); lit " ";
                              statusText response]))
        else raised (content response)
    end.

(** The [catch], lines 132 to 141. *)
Definition classify (f : flight) (error : exn) : result transport :=
  if str_eqb (exn_name error) (lit "AbortError") then
    if f_timedOut f then inr {| buffer := None; t_timedOut := true |}
    else if f_signal f then inl ExecutionAbortedError
    else inl error
  else inl error.

Definition render_runUrl (u : option jsstring) : jsstring :=
  match u with Some s => s | None => lit "null" end.

(** The address of the POST, lines 114 to 116. *)
Definition post_url (e : env) (c : cache) : jsstring :=
  concat [TIO_BASE_URL; lit "/cgi-bin/static/"; render_runUrl (runUrl c);
          lit "/"; randomHex e].

Definition executeRequest (e : env) (body : bytes)
    (options : NormalizedOptions) : M transport :=
  let armed := isFinite (timeout options) && gt0 (timeout options) in
  if match signal options with Some s => aborted s | None => false end
  then throw ExecutionAbortedError
  else
    c <- read ;;
    let url := post_url e c in
    emit (POST url body) ;;;
    let listening :=
      match signal options with Some _ => true | None => false end in
    let f := fly listening (inflight e) (takeoff armed) in
    match attempt e url body f with
    | inr data => ret {| buffer := Some data; t_timedOut := false |}
    | inl error => lift (classify f error)
    end.

(** *** [runOnTio], line 161 *)

Record TioResponse := {
  output : jsstring;
  timedOut : bool;
  realTime : number;
  userTime : number;
  sysTime : number;
  CPUshare : number;
  exitCode : number
}.

Definition normalize (options : TioRunOptions) : NormalizedOptions :=
  {| language := o_language options;
     stdin := nullish (o_stdin options) [];
     timeout := Math_max MIN_TIMEOUT_MS (o_timeout options);
     argv := nullish (o_argv options) [];
     cflags := nullish (o_cflags options) [];
     signal := o_signal options |}.

(** Lines 178 to 189. *)
Definition timed_out_response `{Runtime} (normalized : NormalizedOptions)
  : TioResponse :=
  let seconds := div1000 (timeout normalized) in
  {| output := concat [lit "Request timed out after ";
                       Number_toString (timeout normalized); lit "ms"];
     timedOut := true;
     realTime := seconds;
     userTime := seconds;
     sysTime := seconds;
     CPUshare := Fin 0%Q;
     exitCode := Fin 124%Q |}.

(** Lines 192 to 215, on the decompressed text. *)
Definition decode (timedOut : bool) (content : jsstring) : result TioResponse :=
  let delimiter := substring_to 16 content in
  let sections := split (substring_from 16 content) delimiter in
  if length sections <? 2 then
    inl (Error (lit "Unexpected response format received from tio.run"))
  else
    match DEBUG_REGEX (nth 1 sections []) with
    | None => inl (Error (lit "Unable to parse tio.run diagnostics output"))
    | Some m =>
        inr {| output := if is_nil (nth 0 sections []) then g_debug m
                         else nth 0 sections [];
               timedOut := timedOut;
               realTime := parseFloat (g_realTime m);
               userTime := parseFloat (g_userTime m);
               sysTime := parseFloat (g_sysTime m);
               CPUshare := parseFloat (g_CPUshare m);
               exitCode := Number (g_exitCode m) |}
    end.

Definition runOnTio `{Runtime} (e : env) (code : jsstring)
    (options : TioRunOptions) : M TioResponse :=
  let normalized := normalize options in
  ensureRunUrl e ;;;
  let body := buildRequestBody code normalized in
  r <- executeRequest e body normalized ;;
  match buffer r with
  | None => ret (timed_out_response normalized)
  | Some buffer =>
      raw <- lift (raised (gunzipSync buffer)) ;;
      lift (decode (t_timedOut r) (Buffer_toString raw))
  end.

End Tio.

(** ** Notions used to state the properties *)

Module Notions.
Import JS Regex Num Tio.

Definition landing_url : jsstring := TIO_BASE_URL ++ lit "/".

(** The cache holds an endpoint and its refresh time lies ahead. *)
Definition fresh (e : env) (c : cache) : Prop :=
  (exists u, runUrl c = Some u) /\ (now_check e < nextRefreshAt c)%Z.

Definition stale (e : env) (c : cache) : Prop :=
  runUrl c = None \/ (nextRefreshAt c <= now_check e)%Z.

(** The four ways endpoint discovery fails on the replies of [e]: either
    fetch answers with a non-success status, or either pattern finds no
    match in the text fetched. *)
Inductive discovery_fails (e : env) : Prop :=
| landing_status r :
    reply_get e landing_url = inr r -> ok r = false -> discovery_fails e
| landing_pattern r html :
    reply_get e landing_url = inr r -> ok r = true ->
    content r = inr html -> SCRIPT_REGEX html = None -> discovery_fails e
| script_status r html path r' :
    reply_get e landing_url = inr r -> ok r = true ->
    content r = inr html -> SCRIPT_REGEX html = Some path ->
    reply_get e (TIO_BASE_URL ++ path) = inr r' -> ok r' = false ->
    discovery_fails e
| script_pattern r html path r' script :
    reply_get e landing_url = inr r -> ok r = true ->
    content r = inr html -> SCRIPT_REGEX html = Some path ->
    reply_get e (TIO_BASE_URL ++ path) = inr r' -> ok r' = true ->
    content r' = inr script -> RUN_URL_REGEX script = None ->
    discovery_fails e.

(** Discovery on the replies of [e] finds the endpoint [u] through the
    script at [path]. *)
Definition discovers (e : env) (path u : jsstring) : Prop :=
  exists r html r' script,
    reply_get e landing_url = inr r /\ ok r = true /\
    content r = inr html /\ SCRIPT_REGEX html = Some path /\
    reply_get e (TIO_BASE_URL ++ path) = inr r' /\ ok r' = true /\
    content r' = inr script /\ RUN_URL_REGEX script = Some u.

(** The part of [ensureRunUrl] after the test of line 36. *)
Definition resolve (e : env) : M unit :=
  landingHtml <- fetchText e (lit "/") ;;
  match truthy (SCRIPT_REGEX landingHtml) with
  | None => throw (Error (lit "Unable to resolve tio.run frontend script URL"))
  | Some scriptPath =>
      frontendScript <- fetchText e scriptPath ;;
      match truthy (RUN_URL_REGEX frontendScript) with
      | None => throw (Error (lit "Unable to resolve tio.run execution URL"))
      | Some newRunUrl =>
          write {| runUrl := Some newRunUrl;
                   nextRefreshAt := now_store e + RUN_URL_REFRESH_MS |}
      end
  end.

(** The timer of [executeRequest] is started. *)
Definition armed (options : NormalizedOptions) : bool :=
  isFinite (timeout options) && gt0 (timeout options).

Definition pre_aborted (s : option AbortSignal) : bool :=
  match s with Some s => aborted s | None => false end.

Definition listening (s : option AbortSignal) : bool :=
  match s with Some _ => true | None => false end.

(** An [abort()] was issued with its cause already on record. *)
Definition recorded (a : abort_call) : Prop :=
  match by_whom a with
  | ByTimer => timedOut_then a = true
  | BySignal => signal_then a = true
  end.

(** *** The metrics grammar, declaratively

    Segment 1 ends with the metric lines when it is some text followed by
    the five lines, each number a non-empty run of digits and dots and the
    exit code a non-empty run of digits. *)

Definition float_text (s : jsstring) : Prop :=
  s <> [] /\ forallb is_digit_or_dot s = true.

Definition int_text (s : jsstring) : Prop :=
  s <> [] /\ forallb is_digit s = true.

Definition well_formed (m : groups) : Prop :=
  float_text (g_realTime m) /\ float_text (g_userTime m) /\
  float_text (g_sysTime m) /\ float_text (g_CPUshare m) /\
  int_text (g_exitCode m).

Definition metric_lines (m : groups) : jsstring :=
  lit "Real time: " ++ g_realTime m ++ lit " s" ++ LF ::
  lit "User time: " ++ g_userTime m ++ lit " s" ++ LF ::
  lit "Sys. time: " ++ g_sysTime m ++ lit " s" ++ LF ::
  lit "CPU share: " ++ g_CPUshare m ++ lit " %" ++ LF ::
  lit "Exit code: " ++ g_exitCode m.

Definition ends_with_metrics (segment : jsstring) : Prop :=
  exists m, well_formed m /\ segment = g_debug m ++ metric_lines m.

(** The controller is aborted exactly when a cause is on record. *)
Definition attributed (f : flight) : Prop :=
  f_controller f = f_timedOut f || f_signal f.

(** The timer was started and fires while the POST is in flight. *)
Definition timer_fired (e : env) (o : NormalizedOptions) : Prop :=
  armed o = true /\ In TimerFires (inflight e).

(** The caller passed a signal and it aborts while the POST is in flight. *)
Definition signal_fired (e : env) (o : NormalizedOptions) : Prop :=
  listening (signal o) = true /\ In SignalAborts (inflight e).

(** The state reached by the flight of a request when its POST settles. *)
Definition flown (e : env) (o : NormalizedOptions) : flight :=
  fly (listening (signal o)) (inflight e) (takeoff (armed o)).

(** Segment 1 of the decompressed text. *)
Definition diagnostics (content : jsstring) : jsstring :=
  nth 1 (split (substring_from 16 content) (substring_to 16 content)) [].

(** [delim] is the delimiter of the text [delim ++ out ++ delim ++ seg]:
    it has 16 characters, and in what follows the first 16 characters it
    occurs first right after [out], and not inside [seg]. *)
Definition delimits (delim out seg : jsstring) : Prop :=
  length delim = 16 /\
  indexOf delim (out ++ delim ++ seg) = Some (length out) /\
  indexOf delim seg = None.

(** Segment 0 of the decompressed text. *)
Definition segment0 (content : jsstring) : jsstring :=
  nth 0 (split (substring_from 16 content) (substring_to 16 content)) [].

(** The decompressed text breaks the contract of the decoder: fewer than
    two segments, or a segment 1 that does not end with the metric lines. *)
Definition malformed (content : jsstring) : Prop :=
  length (split (substring_from 16 content) (substring_to 16 content)) < 2
  \/ ~ ends_with_metrics (diagnostics content).

(** *** The layout of the frame

    A variable of the protocol: its name, the number of its values, the
    values, each closed by NUL. *)
Definition terminated (entries : list jsstring) : jsstring :=
  concat (map (fun x => x ++ [NUL]) entries).

Definition vfield (name : jsstring) (entries : list jsstring) : jsstring :=
  name ++ NUL :: decimal (length entries) ++ NUL :: terminated entries.

(** A file of the protocol, in bytes: its name, the number of bytes of
    its content, the content. *)
Definition ffield_bytes (name value : jsstring) : bytes :=
  utf8_encode name ++ NUL :: decimal (length (utf8_encode value))
  ++ NUL :: utf8_encode value.

(** The frame as section 4.2 of the specification words it: the field
    names [args], [lang], [CFLAGS], [OPTIONS], [code], [input], every field
    shaped name, NUL, decimal number, NUL, content, then one terminator
    (which the specification does not name). *)
Definition spec_field (name : jsstring) (n : nat) (raw : jsstring) : jsstring :=
  name ++ NUL :: decimal n ++ NUL :: raw.

Definition spec_frame (terminator : codeunit) (code : jsstring)
    (o : NormalizedOptions) : jsstring :=
  spec_field (lit "args") (length (argv o)) (terminated (argv o))
  ++ spec_field (lit "lang") 1 (language o)
  ++ spec_field (lit "CFLAGS") (length (cflags o)) (terminated (cflags o))
  ++ spec_field (lit "OPTIONS") 0 []
  ++ spec_field (lit "code") (byteLength code) code
  ++ spec_field (lit "input") (byteLength (stdin o)) (stdin o)
  ++ [terminator].

(** The values that the frame of a request carries. *)
Definition field_values (code : jsstring) (o : NormalizedOptions)
  : list jsstring :=
  argv o ++ [language o] ++ cflags o ++ [code; stdin o].

(** Section 4.2 on a value: in the frame it comes right after NUL, the
    decimal number of its UTF-8 bytes, NUL. *)
Definition byte_prefixed (frame value : jsstring) : Prop :=
  exists pre post,
    frame = pre ++ NUL :: decimal (byteLength value) ++ NUL :: value ++ post.

(** The call raises the cancellation before any fetch. *)
Definition aborts_before_any_fetch `{Runtime} (e : env) (code : jsstring)
    (o : TioRunOptions) (c : cache) : Prop :=
  trace (runOnTio e code o c) = [] /\
  value (runOnTio e code o c) = inl ExecutionAbortedError.

Definition is_post (r : request) : bool :=
  match r with POST _ _ => true | GET _ => false end.

End Notions.

(** ** Sample replies and requests *)

Module Sample.
Import JS Regex Num Tio Notions.

Definition script_path : jsstring := lit "/static/0a1b2c3d-frontend.js".

Definition landing_page : jsstring :=
  lit "<!DOCTYPE html><html><head><script src=" ++ DQUOTE :: script_path
  ++ DQUOTE :: lit " defer></script></head></html>".

Definition endpoint : jsstring := lit "b666d85ff48692ae95f24a66f7612256-run".

Definition frontend_script : jsstring :=
  lit "var fieldSeparator = 0;" ++ LF ::
  lit "var runURL = " ++ DQUOTE :: lit "/cgi-bin/static/" ++ endpoint
  ++ DQUOTE :: lit ";" ++ LF :: lit "var quitURL = 0;".

Definition page (text : jsstring) : reply (response jsstring) :=
  inr {| ok := true; status := 200; statusText := lit "OK";
         content := inr text |}.

Definition not_found {B} : reply (response B) :=
  inr {| ok := false; status := 404; statusText := lit "Not Found";
         content := inl {| name := lit "TypeError";
                           message := lit "body unavailable" |} |}.

(** A site on which discovery succeeds. *)
Definition site (url : jsstring) : reply (response jsstring) :=
  if str_eqb url landing_url then page landing_page
  else if str_eqb url (TIO_BASE_URL ++ script_path) then page frontend_script
  else not_found.

(** A site whose landing page is unavailable. *)
Definition down (url : jsstring) : reply (response jsstring) := not_found.

Definition world (now : Z) (get : jsstring -> reply (response jsstring))
    (evs : list event) : env :=
  {| now_check := now; now_store := now + 40;
     reply_get := get;
     randomHex := lit "000102030405060708090a0b0c0d0e0f";
     inflight := evs;
     reply_post := fun _ _ => not_found |}.

(** The same with a server that answers the POST with [data]. *)
Definition serving (now : Z) (get : jsstring -> reply (response jsstring))
    (evs : list event) (data : bytes) : env :=
  {| now_check := now; now_store := now + 40;
     reply_get := get;
     randomHex := lit "000102030405060708090a0b0c0d0e0f";
     inflight := evs;
     reply_post := fun _ _ =>
       inr {| ok := true; status := 200; statusText := lit "OK";
              content := inr data |} |}.

Definition cancelled : option AbortSignal := Some {| aborted := true |}.
Definition pending : option AbortSignal := Some {| aborted := false |}.

Definition source : jsstring := lit "print(input())".

(** The diagnostics block of the example of section 8. *)
Definition diag : jsstring :=
  lit "dbg" ++ LF :: lit "Real time: 0.12 s" ++ LF ::
  lit "User time: 0.03 s" ++ LF :: lit "Sys. time: 0.01 s" ++ LF ::
  lit "CPU share: 33.3 %" ++ LF :: lit "Exit code: 0".

(** The diagnostics block of a program that was killed. *)
Definition diag_killed : jsstring :=
  lit "Killed" ++ LF :: lit "Real time: 2.701 s" ++ LF ::
  lit "User time: 2.5 s" ++ LF :: lit "Sys. time: 0.2 s" ++ LF ::
  lit "CPU share: 99.96 %" ++ LF :: lit "Exit code: 137".

Definition delimiter : jsstring := lit "q8Zp3KxW0vB5nM2c".

Definition options (t : number) (s : option AbortSignal) : TioRunOptions :=
  {| o_language := lit "python3"; o_stdin := Some (lit "1 2");
     o_timeout := t; o_argv := None; o_cflags := None; o_signal := s |}.

Definition warm : cache :=
  {| runUrl := Some endpoint; nextRefreshAt := 850040 |}.

(** A runtime that stores instead of compressing; only the samples use
    it. *)
Definition stored : Runtime :=
  {| deflateRawSync := fun b => b;
     gunzipSync := fun b => inr b;
     Buffer_toString := fun b => b;
     Number_toString := fun _ => [] |}.

End Sample.

(** ** Further notions: shapes of strings, frames and numbers *)

Module Shapes.
Import JS Regex Num Tio Notions.

(** No NUL among the characters. *)
Definition nul_free (s : jsstring) : Prop :=
  forallb (fun c => negb (ceq c NUL)) s = true.

(** [Array.prototype.join(sep)]. *)
Fixpoint join_with (sep : jsstring) (l : list jsstring) : jsstring :=
  match l with
  | [] => []
  | [x] => x
  | x :: rest => x ++ sep ++ join_with sep rest
  end.

(** A path such as [SCRIPT_REGEX] captures. *)
Definition frontend_path (p : jsstring) : Prop :=
  exists h, h <> [] /\ forallb is_hex h = true /\
    p = lit "/static/" ++ h ++ lit "-frontend.js".

(** An endpoint such as [RUN_URL_REGEX] captures. *)
Definition endpoint_text (u : jsstring) : Prop :=
  u <> [] /\ forallb not_dquote u = true.

(** The requests [ensureRunUrl] can make: none, the landing page, or the
    landing page and then a frontend script. *)
Definition discovery_trace (t : list request) : Prop :=
  t = [] \/ t = [GET landing_url] \/
  exists p, frontend_path p /\ t = [GET landing_url; GET (TIO_BASE_URL ++ p)].

(** A number that is not negative: [NaN], [+Infinity], or a rational at
    least 0. *)
Definition measure (x : number) : Prop :=
  match x with
  | NaN | PosInf => True
  | Fin q => (0 <= q)%Q
  | NegInf => False
  end.

(** The text of a number starts with a digit, or with a dot and a digit. *)
Definition starts_numeric (s : jsstring) : bool :=
  match s with
  | c :: rest =>
      is_digit c ||
      (ceq c 46%N && match rest with d :: _ => is_digit d | [] => false end)
  | [] => false
  end.

(** The number [x] read from [text]: it is not negative, it is [NaN]
    exactly when the text does not start with a digit or with a dot and a
    digit, and it is finite when at most 308 digits come before the
    dot. *)
Definition reading (text : jsstring) (x : number) : Prop :=
  measure x /\ (x = NaN <-> starts_numeric text = false) /\
  (length (fst (span is_digit text)) <= 308 -> x <> PosInf).

(** Number of occurrences of the letter R, the first character of the
    metric lines, which occurs nowhere else in them. *)
Definition letter_R : codeunit := 82%N.

Definition count_R (s : jsstring) : nat :=
  count_occ (A:=codeunit) N.eq_dec s letter_R.

(** The fields of a request that the frame carries. *)
Definition same_request (code code' : jsstring) (o o' : NormalizedOptions)
  : Prop :=
  code = code' /\ stdin o = stdin o' /\ argv o = argv o' /\
  cflags o = cflags o' /\ language o = language o'.

Definition plain_options (o : NormalizedOptions) : Prop :=
  Forall nul_free (argv o) /\ Forall nul_free (cflags o) /\
  nul_free (language o).

(** Well-formed UTF-16: code units below 65536, every surrogate half of a
    pair. *)
Fixpoint well_formed16 (s : jsstring) : bool :=
  match s with
  | [] => true
  | c :: s' =>
      if is_high c then
        match s' with
        | d :: s'' => is_low d && well_formed16 s''
        | [] => false
        end
      else negb (is_low c) && (c <? 65536)%N && well_formed16 s'
  end.

(** The texts of a request are well-formed UTF-16. *)
Definition text_request (code : jsstring) (o : NormalizedOptions) : Prop :=
  well_formed16 code = true /\ well_formed16 (stdin o) = true /\
  forallb well_formed16 (argv o) = true /\
  forallb well_formed16 (cflags o) = true /\
  well_formed16 (language o) = true.

(** Reading UTF-8 back: the code units of the first character and the
    bytes that follow it. *)
Definition utf8_first (b : bytes) : option (jsstring * bytes) :=
  match b with
  | [] => None
  | b0 :: r =>
      if (b0 <? 128)%N then Some ([b0], r)
      else if (b0 <? 224)%N then
        match r with
        | b1 :: r' => Some ([(b0 - 192) * 64 + (b1 - 128)]%N, r')
        | _ => None
        end
      else if (b0 <? 240)%N then
        match r with
        | b1 :: b2 :: r' =>
            Some ([(b0 - 224) * 4096 + (b1 - 128) * 64 + (b2 - 128)]%N, r')
        | _ => None
        end
      else
        match r with
        | b1 :: b2 :: b3 :: r' =>
            let cp := ((b0 - 240) * 262144 + (b1 - 128) * 4096
                       + (b2 - 128) * 64 + (b3 - 128))%N in
            Some ([55296 + (cp - 65536) / 1024;
                   56320 + (cp - 65536) mod 1024]%N, r')
        | _ => None
        end
  end.

End Shapes.

(** ** Language names ([src/languageMappings.ts]) *)

Module Lang.
Import JS Regex.

(** [String.prototype.toLowerCase], a function of the runtime. On text
    that is ASCII throughout it turns the letters A to Z into a to z and
    leaves the rest ([lowers_ascii]); nothing more is assumed of it. *)
Class Casing := { toLowerCase : jsstring -> jsstring }.

Definition is_ascii (c : codeunit) : bool := (c <? 128)%N.

Definition ascii_lower (c : codeunit) : codeunit :=
  if (65 <=? c)%N && (c <=? 90)%N then (c + 32)%N else c.

Definition lowers_ascii `{Casing} : Prop :=
  forall s, forallb is_ascii s = true -> toLowerCase s = map ascii_lower s.

(** Reading a property of an object literal: an own property, one found on
    [Object.prototype], or [undefined]. *)
Inductive property :=
| Undefined
| Own (value : jsstring)
| Inherited (name : jsstring).

Definition Object_prototype : list jsstring :=
  [lit "constructor"; lit "__defineGetter__"; lit "__defineSetter__";
   lit "hasOwnProperty"; lit "__lookupGetter__"; lit "__lookupSetter__";
   lit "isPrototypeOf"; lit "propertyIsEnumerable"; lit "toString";
   lit "valueOf"; lit "__proto__"; lit "toLocaleString"].

Fixpoint own (o : list (jsstring * jsstring)) (key : jsstring)
  : option jsstring :=
  match o with
  | [] => None
  | (k, v) :: rest => if str_eqb key k then Some v else own rest key
  end.

Definition get (o : list (jsstring * jsstring)) (key : jsstring) : property :=
  match own o key with
  | Some v => Own v
  | None =>
      if existsb (str_eqb key) Object_prototype then Inherited key
      else Undefined
  end.

(** [CHOICE_TO_TIO], line 5, in the order of its entries. *)
Definition CHOICE_TO_TIO : list (jsstring * jsstring) :=
  [(lit "c", lit "c-gcc");
   (lit "cpp", lit "cpp-gcc");
   (lit "cc", lit "cpp-gcc");
   (lit "cxx", lit "cpp-gcc");
   (lit "csharp", lit "cs-mono");
   (lit "python", lit "python3");
   (lit "ruby", lit "ruby");
   (lit "rust", lit "rust");
   (lit "java", lit "java-openjdk");
   (lit "js", lit "javascript-node");
   (lit "go", lit "go");
   (lit "hs", lit "haskell")].

(** The patterns of [TIO_MATCHERS]; all are anchored at the start. *)
Definition begins (p : string) (s : jsstring) : bool := startsWith (lit p) s.

(** [/^c(gcc|clang)/] *)
Definition c_compiler (s : jsstring) : bool :=
  begins "cgcc" s || begins "cclang" s.

(** [/^c$/] *)
Definition just_c (s : jsstring) : bool := str_eqb s (lit "c").

(** [/^java(?!script)/] *)
Definition java_not_script (s : jsstring) : bool :=
  match expect (lit "java") s with
  | Some rest => negb (begins "script" rest)
  | None => false
  end.

(** [TIO_MATCHERS], line 20. *)
Definition TIO_MATCHERS : list ((jsstring -> bool) * jsstring) :=
  [(begins "cpp", lit "cpp");
   (begins "c++", lit "cpp");
   (c_compiler, lit "c");
   (just_c, lit "c");
   (begins "python", lit "python");
   (begins "pypy", lit "python");
   (begins "ruby", lit "ruby");
   (begins "rust", lit "rust");
   (java_not_script, lit "java");
   (begins "javascript", lit "js");
   (begins "node", lit "js");
   (begins "typescript", lit "js");
   (begins "go", lit "go");
   (begins "haskell", lit "hs");
   (begins "hs", lit "hs");
   (begins "cs", lit "csharp");
   (begins "csharp", lit "csharp")].

Section WithCasing.
Context `{Casing}.

(** [normalize], line 40 *)
Definition normalize (value : jsstring) : jsstring := toLowerCase value.

(** [choiceToDefaultTioLanguage], line 45 *)
Definition choiceToDefaultTioLanguage (choice : jsstring) : property :=
  get CHOICE_TO_TIO (normalize choice).

(** [getChoiceForTioLanguage], line 49; [None] is [undefined]. *)
Definition getChoiceForTioLanguage (tioLanguage : option jsstring)
  : option jsstring :=
  match tioLanguage with
  | None | Some [] => None
  | Some (c :: s) =>
      let normalized := normalize (c :: s) in
      match find (fun entry => str_eqb normalized (snd entry)) CHOICE_TO_TIO
      with
      | Some (choice, _) => Some choice
      | None =>
          match find (fun m => fst m normalized) TIO_MATCHERS with
          | Some (_, choice) => Some choice
          | None => None
          end
      end
  end.

(** [isTioLanguageLocallySupported], line 91 *)
Definition isTioLanguageLocallySupported (tioLanguage : option jsstring)
  : bool :=
  match getChoiceForTioLanguage tioLanguage with
  | Some _ => true
  | None => false
  end.

(** [a-z0-9] *)
Definition is_lower_alnum (c : codeunit) : bool :=
  is_digit c || ((97 <=? c)%N && (c <=? 122)%N).

Definition DASH : codeunit := 45%N.
Definition is_dash (c : codeunit) : bool := ceq c DASH.

(** [s.replace(/[^a-z0-9]+/g, '-')]: every longest run of other characters
    becomes one dash ([in_run]: the previous character was part of such a
    run). *)
Fixpoint replace_runs (in_run : bool) (s : jsstring) : jsstring :=
  match s with
  | [] => []
  | c :: s' =>
      if is_lower_alnum c then c :: replace_runs false s'
      else if in_run then replace_runs true s'
      else DASH :: replace_runs true s'
  end.

Fixpoint drop_dashes (s : jsstring) : jsstring :=
  match s with
  | [] => []
  | c :: s' => if is_dash c then drop_dashes s' else s
  end.

(** [s.replace(/^-+|-+$/g, '')]: the dashes at the start and those at the
    end are removed. *)
Definition trim_dashes (s : jsstring) : jsstring :=
  rev (drop_dashes (rev (drop_dashes s))).

(** [sanitizeExtensionFromTioLanguage], line 83 *)
Definition sanitizeExtensionFromTioLanguage (tioLanguage : jsstring)
  : jsstring :=
  let sanitized := replace_runs false (normalize tioLanguage) in
  let trimmed := trim_dashes sanitized in
  match trimmed with
  | [] => lit "tio"
  | _ :: _ => trimmed
  end.

End WithCasing.

(** The casing of the samples: ASCII letters only. *)
Definition ascii_casing : Casing := {| toLowerCase := map ascii_lower |}.

(** A file extension made by [sanitizeExtensionFromTioLanguage]: lower case
    letters, digits and single dashes, not empty, no dash first or last. *)
Fixpoint single_dashes (s : jsstring) : bool :=
  match s with
  | c :: (d :: _) as rest => negb (is_dash c && is_dash d) && single_dashes rest
  | _ => true
  end.

Definition slug_chars (s : jsstring) : Prop :=
  forallb (fun c => is_lower_alnum c || is_dash c) s = true.

Definition head_dash (s : jsstring) : bool :=
  match s with c :: _ => is_dash c | [] => false end.

(** No two dashes in a row. *)
Definition no_double (s : jsstring) : Prop :=
  forall a b, s <> a ++ DASH :: DASH :: b.

Definition slug (s : jsstring) : Prop :=
  s <> [] /\
  forallb (fun c => is_lower_alnum c || is_dash c) s = true /\
  single_dashes s = true /\
  (forall t, s <> DASH :: t) /\ (forall t, s <> t ++ [DASH]).

End Lang.

(** ** Running a test case ([src/executions.ts]) *)

Module Exec.
Import JS Regex Num Tio Lang.

(** The fields of [Language] that the functions here read. *)
Record Language := {
  l_name : jsstring;
  l_compiler : jsstring
}.

(** [String.prototype.includes] *)
Definition includes (needle s : jsstring) : bool :=
  match indexOf needle s with Some _ => true | None => false end.

Section WithCasing.
Context `{Casing}.

(** [normalizeCompiler], line 14 *)
Definition normalizeCompiler (compiler : jsstring) : jsstring :=
  toLowerCase compiler.

(** [mapLanguageToTio], line 16 *)
Definition mapLanguageToTio (language : Language) : result jsstring :=
  let compiler := normalizeCompiler (l_compiler language) in
  let name := l_name language in
  if str_eqb name (lit "cpp") || str_eqb name (lit "cc")
     || str_eqb name (lit "cxx")
  then inr (if includes (lit "clang") compiler then lit "cpp-clang"
            else lit "cpp-gcc")
  else if str_eqb name (lit "c")
  then inr (if includes (lit "clang") compiler then lit "c-clang"
            else lit "c-gcc")
  else if str_eqb name (lit "python")
  then inr (if includes (lit "python2") compiler then lit "python2"
            else lit "python3")
  else if str_eqb name (lit "ruby") then inr (lit "ruby")
  else if str_eqb name (lit "js") then inr (lit "javascript-node")
  else if str_eqb name (lit "java") then inr (lit "java-openjdk")
  else if str_eqb name (lit "rust") then inr (lit "rust")
  else if str_eqb name (lit "go") then inr (lit "go")
  else if str_eqb name (lit "hs") then inr (lit "haskell")
  else if str_eqb name (lit "csharp") then inr (lit "cs-mono")
  else inl (Error (lit "Unsupported language for tio.run: " ++ name)).

End WithCasing.

(** *** [runTestCase], line 65 *)

(** [Run] of [types.ts], as [runTestCase] fills it. *)
Record Run := {
  stdout : jsstring;
  stderr : jsstring;
  code : option number;
  signal : option jsstring;
  time : number;
  timeOut : bool
}.

(** What [runTestCase] meets outside of [runOnTio]. Its controller is kept
    in [runningExecutions] for the length of the call, where only
    [killRunning] aborts it: before the signal is looked at ([killed]), or
    later, as a [SignalAborts] event of the environment of [runOnTio].
    The calls of the logger are left out. *)
Record host := {
  (** [fs.readFile(path, 'utf8')] *)
  readFile : jsstring -> reply jsstring;
  (** [getTimeOutPref()] *)
  getTimeOutPref : number;
  killed : bool
}.

(** How a call settles: the [Run] it resolves to or the exception it
    rejects with, the messages passed to [showErrorMessage], and the cache
    and the requests of the client. *)
Record settled := {
  returned : result Run;
  shown : list jsstring;
  cache_after : cache;
  requests : list request
}.

(** [a * 1000]: the product of the binary64 value by 1000, an infinity
    when it is too large. *)
Definition times1000 (a : number) : number :=
  match a with
  | Fin q => of_real (b64 q * 1000)%Q
  | other => other
  end.

(** [Math.round(a)]: the whole number nearest to the binary64 value, the
    larger one on a tie; it is a binary64 value itself. *)
Definition Math_round (a : number) : number :=
  match a with
  | Fin q => Fin (inject_Z (Qfloor (b64 q + (1 # 2))))
  | other => other
  end.

(** [err.message]; the exceptions met here are all [Error] objects. *)
Definition exn_message (err : exn) : jsstring :=
  match err with
  | Error m => m
  | ExecutionAbortedError => lit "Execution aborted"
  | Raised f => message f
  end.

(** The value of [result] at line 73. *)
Definition empty_run : Run :=
  {| stdout := []; stderr := []; code := None; signal := None;
     time := Fin 0%Q; timeOut := false |}.

Definition failed (stderr : jsstring) (signal : jsstring) : Run :=
  {| stdout := []; stderr := stderr; code := None; signal := Some signal;
     time := Fin 0%Q; timeOut := false |}.

(** The [catch], lines 119 to 131. *)
Definition caught (err : exn) (c : cache) (t : list request) : settled :=
  match err with
  | ExecutionAbortedError =>
      {| returned := inr (failed (lit "Execution aborted by user.")
                            (lit "ABORTED"));
         shown := []; cache_after := c; requests := t |}
  | _ =>
      let stderr := exn_message err in
      {| returned := inr (failed stderr (lit "ERROR"));
         shown := [lit "Could not execute testcase via tio.run: " ++ stderr];
         cache_after := c; requests := t |}
  end.

(** The options passed to [runOnTio], lines 105 to 110. *)
Definition run_options (h : host) (tioLanguage input : jsstring)
  : TioRunOptions :=
  {| o_language := tioLanguage;
     o_stdin := Some input;
     o_timeout := getTimeOutPref h;
     o_argv := None;
     o_cflags := None;
     o_signal := Some {| aborted := killed h |} |}.

(** The text shown when no language can be resolved, line 88. *)
Definition no_language_text : jsstring :=
  lit ("Unable to resolve a tio.run language. "
       ++ "Please configure a default language.").

(** Lines 112 to 117. *)
Definition completed (tioResponse : TioResponse) : Run :=
  {| stdout := output tioResponse;
     stderr := [];
     code := Some (exitCode tioResponse);
     signal := None;
     time := Math_max (Fin 0%Q)
               (Math_round (times1000 (realTime tioResponse)));
     timeOut := timedOut tioResponse |}.

Section WithRuntime.
Context `{Runtime} `{Casing}.

(** Lines 82 to 84: [overrideTioLanguage ?? (language ?
    mapLanguageToTio(language) : undefined)]. *)
Definition tio_language (language : option Language)
    (overrideTioLanguage : option jsstring) : result (option jsstring) :=
  match overrideTioLanguage with
  | Some t => inr (Some t)
  | None =>
      match language with
      | Some l =>
          match mapLanguageToTio l with
          | inl err => inl err
          | inr t => inr (Some t)
          end
      | None => inr None
      end
  end.

(** The call of [runOnTio], lines 105 to 110. *)
Definition remote_call (h : host) (e : env) (tioLanguage input code : jsstring)
  : M TioResponse :=
  runOnTio e code (run_options h tioLanguage input).

Definition runTestCase (h : host) (e : env) (language : option Language)
    (binPath input : jsstring) (srcPath overrideTioLanguage : option jsstring)
    (c : cache) : settled :=
  let sourcePath := nullish srcPath binPath in
  match tio_language language overrideTioLanguage with
  | inl err =>
      {| returned := inl err; shown := []; cache_after := c; requests := [] |}
  | inr tioLanguage =>
      match truthy tioLanguage with
      | None =>
          let stderr := no_language_text in
          {| returned := inr (failed stderr (lit "ERROR"));
             shown := [stderr]; cache_after := c; requests := [] |}
      | Some tioLanguage =>
          match readFile h sourcePath with
          | inl err => caught (Raised err) c []
          | inr code =>
              let o := remote_call h e tioLanguage input code c in
              match value o with
              | inr tioResponse =>
                  {| returned := inr (completed tioResponse); shown := [];
                     cache_after := final o; requests := trace o |}
              | inl err => caught err (final o) (trace o)
              end
          end
      end
  end.

End WithRuntime.

(** *** The verdict of [runSingleAndSave]
    ([src/webview/processRunSingle.ts], lines 118 to 128) *)

(** [run.code !== null && run.code !== 0] *)
Definition code_failed (code : option number) : bool :=
  match code with
  | None => false
  | Some (Fin q) => negb (Qeq_bool (b64 q) 0)
  | Some _ => true
  end.

(** [didError], with [getIgnoreSTDERRORPref()] as [ignoreStderr]. *)
Definition didError (ignoreStderr : bool) (run : Run) : bool :=
  let stderrorFailure :=
    if ignoreStderr then false else negb (is_nil (stderr run)) in
  code_failed (code run)
  || match signal run with Some _ => true | None => false end
  || stderrorFailure.

(** [pass], with [isResultCorrect(testCase, _)] as [isResultCorrect]. *)
Definition pass (ignoreStderr : bool) (isResultCorrect : jsstring -> bool)
    (run : Run) : bool :=
  if didError ignoreStderr run then false else isResultCorrect (stdout run).

(** A [Run] that carries nothing of a remote run. *)
Definition blank (r : Run) : Prop :=
  stdout r = [] /\ code r = None /\ time r = Fin 0%Q /\ timeOut r = false.

(** The choice under which [languageMappings.ts] files a language name:
    [cc] and [cxx] go with [cpp]. *)
Definition canonical_choice (name : jsstring) : jsstring :=
  if str_eqb name (lit "cc") || str_eqb name (lit "cxx") then lit "cpp"
  else name.

End Exec.

(** ** Samples for [runTestCase] *)

Module Desk.
Import JS Regex Num Tio Notions Lang Exec.

Definition python : Language :=
  {| l_name := lit "python"; l_compiler := lit "python3" |}.

Definition clang_c : Language :=
  {| l_name := lit "c"; l_compiler := lit "Clang -O2" |}.

Definition cobol : Language :=
  {| l_name := lit "cobol"; l_compiler := lit "cobc" |}.

Definition solution : jsstring := lit "/home/u/a.py".

(** A file system that holds one source file. *)
Definition files (path : jsstring) : reply jsstring :=
  if str_eqb path solution then inr Sample.source
  else inl {| name := lit "Error";
              message := lit "ENOENT: no such file or directory" |}.

Definition desk (pref : number) (k : bool) : host :=
  {| readFile := files; getTimeOutPref := pref; killed := k |}.

(** A reply of the server: output [hello], exit code 0. *)
Definition answer : bytes :=
  Sample.delimiter ++ lit "hello" ++ Sample.delimiter ++ Sample.diag.

(** A reply of the server that reports a real time of 0.5005 s. *)
Definition answer_half : bytes :=
  Sample.delimiter ++ lit "hello" ++ Sample.delimiter ++
  lit "Real time: 0.5005 s" ++ LF :: lit "User time: 0.4 s" ++ LF ::
  lit "Sys. time: 0.1 s" ++ LF :: lit "CPU share: 99.9 %" ++ LF ::
  lit "Exit code: 0".

Definition says_hello (out : jsstring) : bool := str_eqb out (lit "hello").

End Desk.

(** * Properties *)

(** ** Strings, encodings, [split] *)

Module JSFacts.
Import JS.

Lemma ceq_eq (a b : codeunit) : ceq a b = true <-> a = b.
Proof. apply N.eqb_eq. Qed.

Lemma startsWith_app (p t : jsstring) : startsWith p (p ++ t) = true.
Proof.
  induction p as [|x p IH]; simpl; [reflexivity|].
  unfold ceq; rewrite N.eqb_refl; exact IH.
Qed.

Lemma indexOf_occurs (pat pre post : jsstring) :
  indexOf pat (pre ++ pat ++ post) <> None.
Proof.
  induction pre as [|c pre IH].
  - cbn [app]. pose proof (startsWith_app pat post) as H.
    destruct (pat ++ post); cbn [indexOf]; rewrite H; discriminate.
  - cbn [app indexOf].
    destruct (startsWith pat (c :: pre ++ pat ++ post)); [discriminate|].
    destruct (indexOf pat (pre ++ pat ++ post)); [discriminate|].
    now contradiction IH.
Qed.

Lemma startsWith_length (p s : jsstring) :
  startsWith p s = true -> length p <= length s.
Proof.
  revert s; induction p as [|x p IH]; intros [|y s]; simpl; intros H;
    try lia; try discriminate.
  apply andb_true_iff in H as [_ H]. apply IH in H. lia.
Qed.

Lemma startsWith_split (p s : jsstring) :
  startsWith p s = true -> s = p ++ skipn (length p) s.
Proof.
  revert s; induction p as [|x p IH]; intros [|y s]; simpl;
    try reflexivity; try discriminate.
  intros H; apply andb_true_iff in H as [Hx H].
  apply ceq_eq in Hx; subst y. f_equal. now apply IH.
Qed.

(** *** UTF-8 *)

Lemma byteLength_utf8 (s : jsstring) : byteLength s = length (utf8_encode s).
Proof.
  remember (length s) as n eqn:Hn.
  revert s Hn; induction n as [n IH] using lt_wf_ind; intros s Hn.
  destruct s as [|c s]; [reflexivity|].
  simpl in Hn. cbn [byteLength utf8_encode].
  destruct (is_high c) eqn:Hh.
  - destruct s as [|d s]; [reflexivity|].
    simpl in Hn. destruct (is_low d).
    + rewrite length_app, (IH (length s)) by (lia || reflexivity). reflexivity.
    + rewrite length_app, (IH (length (d :: s))) by (simpl; lia || reflexivity).
      reflexivity.
  - rewrite length_app, <- (IH (length s)) by (lia || reflexivity).
    unfold utf8_unit. rewrite Hh. cbn [orb].
    destruct (c <? 128)%N; [reflexivity|].
    destruct (c <? 2048)%N; [reflexivity|].
    destruct (is_low c); reflexivity.
Qed.

Lemma utf8_encode_app (a b : jsstring) :
  starts_low b = false ->
  utf8_encode (a ++ b) = utf8_encode a ++ utf8_encode b.
Proof.
  intros Hb. remember (length a) as n eqn:Hn.
  revert a Hn; induction n as [n IH] using lt_wf_ind; intros a Hn.
  destruct a as [|c a]; [reflexivity|].
  simpl in Hn. cbn [app utf8_encode].
  destruct (is_high c) eqn:Hh.
  - destruct a as [|d a].
    + cbn [app]. destruct b as [|d b]; [now rewrite app_nil_r|].
      cbn [starts_low] in Hb. rewrite Hb. reflexivity.
    + simpl in Hn. cbn [app]. destruct (is_low d).
      * rewrite (IH (length a)) by (lia || reflexivity).
        now rewrite app_assoc.
      * change (d :: a ++ b) with ((d :: a) ++ b).
        rewrite (IH (length (d :: a))) by (simpl; lia || reflexivity).
        now rewrite app_assoc.
  - rewrite (IH (length a)) by (lia || reflexivity). now rewrite app_assoc.
Qed.

Lemma utf8_ascii (s : jsstring) :
  forallb (fun c => (c <? 128)%N) s = true -> utf8_encode s = s.
Proof.
  induction s as [|c s IH]; [reflexivity|].
  cbn [forallb utf8_encode]. intros H; apply andb_true_iff in H as [Hc Hs].
  assert (Hh : is_high c = false).
  { unfold is_high. apply N.ltb_lt in Hc.
    apply andb_false_iff; left. apply N.leb_gt. lia. }
  rewrite Hh. unfold utf8_unit. rewrite Hc. cbn. now rewrite IH.
Qed.

(** *** [split] *)

Lemma split_go_skip (sep : jsstring) (k : nat) (acc s : jsstring) :
  k <= length s -> split_go sep k acc s = split_go sep 0 acc (skipn k s).
Proof.
  revert s; induction k as [|k IH]; intros s Hk; [reflexivity|].
  destruct s as [|c s]; simpl in Hk; [lia|].
  cbn [split_go skipn]. apply IH. lia.
Qed.

Lemma indexOf_cons_None (sep : jsstring) (c : codeunit) (s : jsstring) :
  indexOf sep (c :: s) = None ->
  startsWith sep (c :: s) = false /\ indexOf sep s = None.
Proof.
  cbn [indexOf]. destruct (startsWith sep (c :: s)); [discriminate|].
  destruct (indexOf sep s); [discriminate|]. now split.
Qed.

Lemma split_go_absent (sep acc s : jsstring) :
  indexOf sep s = None -> split_go sep 0 acc s = [rev acc ++ s].
Proof.
  revert acc; induction s as [|c s IH]; intros acc H.
  - cbn. now rewrite app_nil_r.
  - apply indexOf_cons_None in H as [H1 H2].
    cbn [split_go]. rewrite H1, IH by exact H2.
    cbn [rev]. now rewrite <- app_assoc.
Qed.

Lemma split_go_present (sep acc s : jsstring) (i : nat) :
  sep <> [] -> indexOf sep s = Some i ->
  split_go sep 0 acc s =
    (rev acc ++ firstn i s) :: split_go sep 0 [] (skipn (i + length sep) s).
Proof.
  intros Hsep. revert acc i; induction s as [|c s IH]; intros acc i H.
  - destruct sep as [|x sep]; [congruence|]. discriminate.
  - cbn [indexOf] in H. cbn [split_go].
    destruct (startsWith sep (c :: s)) eqn:Hs.
    + injection H as <-. cbn [firstn]. rewrite app_nil_r. f_equal.
      pose proof (startsWith_length _ _ Hs) as Hl. simpl in Hl.
      destruct sep as [|x sep]; [congruence|]. simpl in Hl.
      rewrite split_go_skip by (simpl; lia).
      cbn [length Nat.add skipn Nat.sub]. now rewrite Nat.sub_0_r.
    + destruct (indexOf sep s) as [j|] eqn:Hj; [|discriminate].
      injection H as <-. rewrite (IH (c :: acc) j eq_refl).
      cbn [rev firstn Nat.add skipn]. now rewrite <- app_assoc.
Qed.

Lemma split_nonempty (s sep : jsstring) :
  sep <> [] -> split s sep = split_go sep 0 [] s.
Proof. destruct sep; [congruence|reflexivity]. Qed.

(** The two-segment case: the separator occurs once, after [a]. *)
Lemma split_two (a sep b : jsstring) :
  sep <> [] ->
  indexOf sep (a ++ sep ++ b) = Some (length a) ->
  indexOf sep b = None ->
  split (a ++ sep ++ b) sep = [a; b].
Proof.
  intros Hsep Ha Hb. rewrite split_nonempty by exact Hsep.
  rewrite (split_go_present [] _ Hsep Ha). cbn [rev app].
  rewrite firstn_app, Nat.sub_diag, firstn_all. cbn [firstn].
  rewrite app_nil_r. f_equal.
  rewrite skipn_app, skipn_all2 by lia. cbn [app].
  replace (length a + length sep - length a) with (length sep) by lia.
  rewrite skipn_app, skipn_all, Nat.sub_diag. cbn [app skipn].
  now rewrite split_go_absent.
Qed.

End JSFacts.

(** ** The patterns *)

Module RegexFacts.
Import JS Regex JSFacts.

Lemma expect_sound (l s t : jsstring) : expect l s = Some t -> s = l ++ t.
Proof.
  revert s; induction l as [|x l IH]; intros [|y s]; cbn [expect app];
    try congruence.
  destruct (ceq x y) eqn:E; [|discriminate].
  apply ceq_eq in E; subst y. intros H. f_equal. now apply IH.
Qed.

Lemma expect_complete (l t : jsstring) : expect l (l ++ t) = Some t.
Proof.
  induction l as [|x l IH]; [reflexivity|].
  cbn [expect app]. unfold ceq. now rewrite N.eqb_refl.
Qed.

Lemma span_sound (p : codeunit -> bool) (s r t : jsstring) :
  span p s = (r, t) ->
  s = r ++ t /\ forallb p r = true /\
  match t with [] => True | c :: _ => p c = false end.
Proof.
  revert r t; induction s as [|c s IH]; intros r t; cbn [span].
  - intros [= <- <-]. now repeat split.
  - destruct (p c) eqn:Hc.
    + destruct (span p s) as [r' t'] eqn:E. intros [= <- <-].
      destruct (IH _ _ eq_refl) as (-> & Hr & Ht).
      cbn [forallb app]. rewrite Hc, Hr. now repeat split.
    + intros [= <- <-]. cbn. now repeat split.
Qed.

Lemma span_complete (p : codeunit -> bool) (r t : jsstring) :
  forallb p r = true ->
  match t with [] => True | c :: _ => p c = false end ->
  span p (r ++ t) = (r, t).
Proof.
  intros Hr Ht. induction r as [|c r IH].
  - destruct t as [|c t]; [reflexivity|]. cbn [app span]. now rewrite Ht.
  - cbn [forallb] in Hr. apply andb_true_iff in Hr as [Hc Hr].
    cbn [app span]. now rewrite Hc, IH.
Qed.

Lemma plus_sound (p : codeunit -> bool) (s r t : jsstring) :
  plus p s = Some (r, t) ->
  s = r ++ t /\ r <> [] /\ forallb p r = true /\
  match t with [] => True | c :: _ => p c = false end.
Proof.
  unfold plus. destruct (span p s) as [r' t'] eqn:E.
  destruct r' as [|c r']; [discriminate|]. intros [= <- <-].
  destruct (span_sound _ _ E) as (-> & Hr & Ht).
  repeat split; try assumption. discriminate.
Qed.

Lemma plus_complete (p : codeunit -> bool) (r t : jsstring) :
  r <> [] -> forallb p r = true ->
  match t with [] => True | c :: _ => p c = false end ->
  plus p (r ++ t) = Some (r, t).
Proof.
  intros Hn Hr Ht. unfold plus. rewrite span_complete by assumption.
  destruct r; [congruence|reflexivity].
Qed.

Lemma SCRIPT_at_nonempty (s g : jsstring) : SCRIPT_at s = Some g -> g <> [].
Proof.
  unfold SCRIPT_at, obind.
  repeat match goal with
         | |- context [match ?o with Some _ => _ | None => _ end] =>
             destruct o as [?|]; try discriminate
         | |- context [let (_, _) := ?x in _] => destruct x
         end.
  intros [= <-]. discriminate.
Qed.

Lemma SCRIPT_REGEX_nonempty (s g : jsstring) :
  SCRIPT_REGEX s = Some g -> g <> [].
Proof.
  induction s as [|c s IH]; cbn [SCRIPT_REGEX].
  - destruct (SCRIPT_at []) eqn:E; [|discriminate].
    intros [= <-]. eapply SCRIPT_at_nonempty, E.
  - destruct (SCRIPT_at (c :: s)) eqn:E; [|exact IH].
    intros [= <-]. eapply SCRIPT_at_nonempty, E.
Qed.

Lemma RUN_URL_at_nonempty (s g : jsstring) : RUN_URL_at s = Some g -> g <> [].
Proof.
  unfold RUN_URL_at, obind.
  destruct (expect _ s) as [s1|]; [|discriminate].
  destruct (plus not_dquote s1) as [[r t]|] eqn:E; [|discriminate].
  destruct (expect _ t) as [s3|]; [|discriminate].
  destruct (at_eol s3); [|discriminate].
  intros [= <-]. now apply plus_sound in E.
Qed.

Lemma RUN_URL_search_nonempty (b : bool) (s g : jsstring) :
  RUN_URL_search b s = Some g -> g <> [].
Proof.
  revert b; induction s as [|c s IH]; intros b; cbn [RUN_URL_search].
  - destruct b; [|discriminate].
    destruct (RUN_URL_at []) eqn:E; [|discriminate].
    intros [= <-]. eapply RUN_URL_at_nonempty, E.
  - destruct b.
    + destruct (RUN_URL_at (c :: s)) eqn:E; [|apply IH].
      intros [= <-]. eapply RUN_URL_at_nonempty, E.
    + apply IH.
Qed.

Lemma RUN_URL_REGEX_nonempty (s g : jsstring) :
  RUN_URL_REGEX s = Some g -> g <> [].
Proof. apply RUN_URL_search_nonempty. Qed.

End RegexFacts.

(** ** Numbers *)

Module NumFacts.
Import JS Regex Num.

Lemma round_even_lower (a b : Z) :
  (0 <= a)%Z -> (0 < b)%Z -> (a / b <= round_even a b)%Z.
Proof.
  intros Ha Hb. unfold round_even.
  destruct (2 * (a mod b) ?= b)%Z; [destruct (Z.even (a / b))| |]; lia.
Qed.

Lemma round_even_exact (a : Z) : round_even a 1 = a.
Proof.
  unfold round_even. rewrite Z.mod_1_r, Z.div_1_r. reflexivity.
Qed.

Lemma Qred_inject_Z (z : Z) : Qred (inject_Z z) = inject_Z z.
Proof.
  unfold Qred, inject_Z.
  pose proof (Z.ggcd_gcd z 1) as G.
  pose proof (Z.ggcd_correct_divisors z 1) as D.
  destruct (Z.ggcd z 1) as [g [a b]]. cbn [fst] in G.
  rewrite Z.gcd_1_r in G. subst g. destruct D as [Da Db].
  rewrite !Z.mul_1_l in *. now subst.
Qed.

Lemma b64_pos_nonneg (n d : Z) :
  (0 < n)%Z -> (0 < d)%Z -> (0 <= b64_pos n d)%Q.
Proof.
  intros Hn Hd. unfold b64_pos. rewrite Qred_correct.
  unfold Qle. cbn [Qnum Qden]. rewrite Z.mul_1_r, Z.mul_0_l.
  apply Z.mul_nonneg_nonneg; [|apply Z.pow_nonneg; lia].
  eapply Z.le_trans; [|apply round_even_lower].
  - apply Z.div_pos; [|apply Z.mul_pos_pos; [lia|apply Z.pow_pos_nonneg; lia]].
    apply Z.mul_nonneg_nonneg; [lia|apply Z.pow_nonneg; lia].
  - apply Z.mul_nonneg_nonneg; [lia|apply Z.pow_nonneg; lia].
  - apply Z.mul_pos_pos; [lia|apply Z.pow_pos_nonneg; lia].
Qed.

Lemma b64_nonneg (q : Q) : (0 <= q)%Q -> (0 <= b64 q)%Q.
Proof.
  intros Hq. unfold b64. destruct q as [n d]. cbn [Qnum Qden].
  destruct n as [|p|p].
  - apply Qle_refl.
  - apply b64_pos_nonneg; lia.
  - exfalso. unfold Qle in Hq. cbn in Hq. lia.
Qed.

Lemma ilog2_int (n : Z) : (0 < n)%Z -> ilog2 n 1 = Z.log2 n.
Proof.
  intros Hn. unfold ilog2. change (Z.log2 1) with 0%Z. rewrite Z.sub_0_r.
  pose proof (Z.log2_nonneg n) as L.
  rewrite (Z.max_l 0 (- Z.log2 n)) by lia.
  rewrite (Z.max_r 0 (Z.log2 n)) by lia.
  rewrite Z.pow_0_r, Z.mul_1_r, Z.mul_1_l.
  destruct (Z.ltb_spec n (2 ^ Z.log2 n)) as [X|X]; [|reflexivity].
  pose proof (Z.log2_spec n Hn). lia.
Qed.

Lemma two53_pow : two53 = (2 ^ 53)%Z.
Proof. reflexivity. Qed.

(** Whole numbers below 2^53 are binary64 values. *)
Lemma b64_small_int (n : Z) :
  (0 <= n < two53)%Z -> b64 (inject_Z n) = inject_Z n.
Proof.
  intros [H0 H1]. unfold b64. cbn [inject_Z Qnum Qden].
  destruct n as [|p|p]; [reflexivity| |lia].
  unfold b64_pos. rewrite ilog2_int by lia.
  set (k := Z.log2 (Z.pos p)).
  assert (Hk : (0 <= k <= 52)%Z).
  { split; [apply Z.log2_nonneg|].
    assert (k < 53)%Z; [|lia].
    apply Z.log2_lt_pow2; [lia|]. rewrite <- two53_pow. exact H1. }
  rewrite (Z.max_l (k - 52) (-1074)) by lia.
  rewrite (Z.max_r 0 (- (k - 52))) by lia.
  rewrite (Z.max_l 0 (k - 52)) by lia.
  rewrite Z.pow_0_r, Z.mul_1_r, round_even_exact.
  rewrite <- (Qred_inject_Z (Z.pos p)). apply Qred_complete.
  unfold Qeq. cbn [Qnum Qden inject_Z].
  rewrite Z2Pos.id by (apply Z.pow_pos_nonneg; lia). lia.
Qed.

(** A whole number that is positive stands for a positive whole number. *)
Lemma b64_int_pos (n : Z) :
  (0 < n)%Z -> exists z, (0 < z)%Z /\ b64 (inject_Z n) = inject_Z z.
Proof.
  intros Hn.
  destruct (Z.lt_ge_cases n two53) as [Hs|Hl].
  - exists n. split; [exact Hn|]. apply b64_small_int. lia.
  - unfold b64. cbn [inject_Z Qnum Qden].
    destruct n as [|p|p]; try lia.
    unfold b64_pos. rewrite ilog2_int by lia.
    set (k := Z.log2 (Z.pos p)).
    assert (Hk : (53 <= k)%Z).
    { apply Z.log2_le_pow2; [lia|]. rewrite <- two53_pow. exact Hl. }
    rewrite (Z.max_l (k - 52) (-1074)) by lia.
    rewrite (Z.max_l 0 (- (k - 52))) by lia.
    rewrite (Z.max_r 0 (k - 52)) by lia.
    rewrite Z.pow_0_r, Z.mul_1_r, Z.mul_1_l.
    change (Z.to_pos 1) with 1%positive.
    set (m := round_even (Z.pos p) (2 ^ (k - 52))).
    exists (m * 2 ^ (k - 52))%Z. split.
    + assert (P : (0 < 2 ^ (k - 52))%Z) by (apply Z.pow_pos_nonneg; lia).
      apply Z.mul_pos_pos; [|exact P].
      assert (L : (Z.pos p / 2 ^ (k - 52) <= m)%Z)
        by (apply round_even_lower; lia).
      assert (D : (0 < Z.pos p / 2 ^ (k - 52))%Z); [|lia].
      apply Z.div_str_pos. split; [exact P|].
      apply Z.le_trans with (2 ^ k)%Z.
      * apply Z.pow_le_mono_r; lia.
      * apply (Z.log2_spec (Z.pos p)). lia.
    + apply (Qred_inject_Z (m * 2 ^ (k - 52))).
Qed.

(** Some values: 0.1 and its binary64 neighbour; the first whole number
    that is not a binary64 value; the product that makes 0.5005 s round
    to 500 ms; a tie below the least positive value; the threshold of
    [+Infinity]. *)
Lemma b64_examples :
  b64 0.1 = (3602879701896397 # 36028797018963968)%Q /\
  b64 (inject_Z (two53 + 1)) = inject_Z two53 /\
  Qfloor (b64 (b64 0.5005 * 1000) + (1 # 2)) = 500%Z /\
  b64 (1 # 2 ^ 1075) = 0%Q /\
  b64 (3 # 2 ^ 1076) = (1 # 2 ^ 1074)%Q /\
  of_real huge = PosInf /\
  of_real (huge - 1) = Fin (huge - 1).
Proof. repeat split; vm_compute; reflexivity. Qed.

Lemma huge_pos : (0 < huge)%Q.
Proof. vm_compute. reflexivity. Qed.

(** The number for a real that is not negative. *)
Lemma of_real_nonneg (q : Q) :
  (0 <= q)%Q ->
  (of_real q = PosInf /\ (huge <= q)%Q) \/
  (of_real q = Fin q /\ (q < huge)%Q).
Proof.
  intros Hq. unfold of_real.
  destruct (Qle_bool huge q) eqn:A.
  - left. split; [reflexivity|]. now apply Qle_bool_iff.
  - assert (L : (q < huge)%Q).
    { apply Qnot_le_lt. intros X. apply Qle_bool_iff in X. congruence. }
    destruct (Qle_bool q (- huge)) eqn:B.
    + exfalso. apply Qle_bool_iff in B.
      assert (N : (- huge < 0)%Q) by (vm_compute; reflexivity).
      apply (Qlt_irrefl 0). eapply Qle_lt_trans; [exact Hq|].
      eapply Qle_lt_trans; [exact B|exact N].
    + right. now split.
Qed.

Lemma of_real_small (q : Q) :
  (0 <= q)%Q -> (q < huge)%Q -> of_real q = Fin q.
Proof.
  intros Hq Hl. destruct (of_real_nonneg Hq) as [[_ X]|[X _]]; [|exact X].
  exfalso. apply (Qlt_irrefl q). eapply Qlt_le_trans; eassumption.
Qed.

Lemma small_lt_huge (z : Z) : (z < two53)%Z -> (inject_Z z < huge)%Q.
Proof.
  intros H. apply Qlt_trans with (inject_Z two53).
  - rewrite <- Zlt_Qlt. exact H.
  - vm_compute. reflexivity.
Qed.

(** Reading back the decimal writing of a natural number. *)
Lemma digits_val_uint (u : Decimal.uint) (acc : nat) :
  digits_val (N.of_nat acc) (uint_chars u) =
    N.of_nat (Nat.of_uint_acc u acc).
Proof.
  revert acc. induction u as [|u IH|u IH|u IH|u IH|u IH|u IH|u IH|u IH|u IH
                              |u IH]; intros acc;
    cbn [uint_chars digits_val Nat.of_uint_acc]; [reflexivity|..];
    rewrite <- IH; f_equal; rewrite ?Nat.tail_mul_spec;
    unfold digit_val, digit_char; lia.
Qed.

Lemma digits_val_decimal (k : nat) : digits_val 0 (decimal k) = N.of_nat k.
Proof.
  unfold decimal. change 0%N with (N.of_nat 0).
  rewrite (digits_val_uint (Nat.to_uint k) 0).
  change (Nat.of_uint_acc (Nat.to_uint k) 0) with
    (Nat.of_uint (Nat.to_uint k)).
  now rewrite DecimalNat.Unsigned.of_to.
Qed.

Lemma uint_chars_digits (u : Decimal.uint) :
  forallb is_digit (uint_chars u) = true.
Proof. induction u; cbn [uint_chars forallb]; now rewrite ?IHu. Qed.

Lemma is_digit_val (c : codeunit) :
  is_digit c = true -> (digit_val c <= 9)%N.
Proof.
  unfold is_digit, digit_val. intros D.
  apply andb_true_iff in D as [_ D]. apply N.leb_le in D. lia.
Qed.

(** A run of [k] digits reads as a number below 10^k. *)
Lemma digits_val_bound (s : jsstring) (acc : N) :
  forallb is_digit s = true ->
  (Z.of_N (digits_val acc s) <
   (Z.of_N acc + 1) * 10 ^ Z.of_nat (length s))%Z.
Proof.
  revert acc. induction s as [|c s IH]; intros acc D.
  - cbn [digits_val length]. change (10 ^ Z.of_nat 0)%Z with 1%Z. lia.
  - cbn [forallb] in D. apply andb_true_iff in D as [Dc Ds].
    cbn [digits_val length]. pose proof (IH (10 * acc + digit_val c)%N Ds) as B.
    pose proof (is_digit_val c Dc) as Hc.
    rewrite Nat2Z.inj_succ, Z.pow_succ_r by lia.
    assert (P : (0 < 10 ^ Z.of_nat (length s))%Z)
      by (apply Z.pow_pos_nonneg; lia).
    nia.
Qed.

Lemma pow10_spec (k : nat) : Z.pos (pow10 k) = (10 ^ Z.of_nat k)%Z.
Proof.
  induction k as [|k IH]; [reflexivity|].
  cbn [pow10]. rewrite Nat2Z.inj_succ, Z.pow_succ_r by lia. lia.
Qed.

Lemma digits_val_app (a b : jsstring) (acc : N) :
  digits_val acc (a ++ b) = digits_val (digits_val acc a) b.
Proof.
  revert acc. induction a as [|c a IH]; intros acc; [reflexivity|].
  cbn [app digits_val]. apply IH.
Qed.

(** The value read from at most 308 digits before the dot is below
    [huge]. *)
Lemma decimal_lt_huge (ip fp : jsstring) :
  forallb is_digit ip = true -> forallb is_digit fp = true ->
  length ip <= 308 ->
  (Qmake (Z.of_N (digits_val 0 (ip ++ fp))) (pow10 (length fp)) < huge)%Q.
Proof.
  intros Di Df L. unfold Qlt, huge. cbn [Qnum Qden inject_Z].
  rewrite pow10_spec, Z.mul_1_r.
  rewrite digits_val_app.
  pose proof (digits_val_bound ip 0 Di) as Bi.
  pose proof (digits_val_bound fp (digits_val 0 ip) Df) as Bf.
  change (Z.of_N 0 + 1)%Z with 1%Z in Bi. rewrite Z.mul_1_l in Bi.
  assert (P : (0 < 10 ^ Z.of_nat (length fp))%Z)
    by (apply Z.pow_pos_nonneg; lia).
  assert (T : (10 ^ Z.of_nat (length ip) <= 10 ^ 308)%Z)
    by (apply Z.pow_le_mono_r; lia).
  assert (G : (10 ^ 308 < 2 ^ 1024 - 2 ^ 970)%Z) by (vm_compute; reflexivity).
  set (x := (10 ^ 308)%Z) in *. set (h := (2 ^ 1024 - 2 ^ 970)%Z) in *.
  nia.
Qed.

Lemma whole_lt_huge (ip : jsstring) :
  forallb is_digit ip = true -> length ip <= 308 ->
  (inject_Z (Z.of_N (digits_val 0 ip)) < huge)%Q.
Proof.
  intros Di L. pose proof (@decimal_lt_huge ip [] Di eq_refl L) as X.
  rewrite app_nil_r in X. exact X.
Qed.

Lemma whole_nonneg (n : N) : (0 <= inject_Z (Z.of_N n))%Q.
Proof. rewrite <- (Zle_Qle 0). lia. Qed.

Lemma decimal_nonneg (n : N) (p : positive) : (0 <= Qmake (Z.of_N n) p)%Q.
Proof. unfold Qle. cbn [Qnum Qden]. lia. Qed.

(** [Number] of the decimal writing of a natural number below 10^15 is
    that number, a binary64 value. *)
Lemma Number_decimal (k : nat) :
  (Z.of_nat k < 10 ^ 15)%Z ->
  Number (decimal k) = Fin (inject_Z (Z.of_nat k)) /\
  b64 (inject_Z (Z.of_nat k)) = inject_Z (Z.of_nat k).
Proof.
  intros Hk. change (10 ^ 15)%Z with 1000000000000000%Z in Hk.
  assert (Hs : (0 <= Z.of_nat k < two53)%Z) by (unfold two53; lia).
  split; [|now apply b64_small_int].
  unfold Number, decimal. rewrite uint_chars_digits.
  fold (decimal k). rewrite digits_val_decimal, nat_N_Z.
  apply of_real_small.
  - rewrite <- (Zle_Qle 0). lia.
  - apply small_lt_huge. lia.
Qed.

End NumFacts.

(** ** The endpoint cache *)

Module CacheFacts.
Import JS Regex Num Tio Notions JSFacts RegexFacts.

Lemma truthy_some (o : option jsstring) (g : jsstring) :
  o = Some g -> g <> [] -> truthy o = Some g.
Proof. intros -> H. destruct g; [congruence|reflexivity]. Qed.

Lemma truthy_none (o : option jsstring) : o = None -> truthy o = None.
Proof. now intros ->. Qed.

(** What [fetchText] does on a given cache: one GET, the cache untouched. *)
Lemma fetchText_run (e : env) (path : jsstring) (c : cache) :
  final (fetchText e path c) = c /\
  trace (fetchText e path c) = [GET (TIO_BASE_URL ++ path)] /\
  value (fetchText e path c) =
    match reply_get e (TIO_BASE_URL ++ path) with
    | inl f => inl (Raised f)
    | inr r =>
        if ok r then raised (content r)
        else inl (Error (concat [lit "Failed to fetch "; path;
                                 lit " from tio.run ("; decimal (status r);
                                 lit ")"]))
    end.
Proof.
  unfold fetchText, bind, emit, lift, raised, throw, ret.
  cbn [value final trace].
  destruct (reply_get e (TIO_BASE_URL ++ path)) as [f|r];
    cbn [value final trace app]; [easy|].
  destruct (ok r); cbn [value final trace app negb]; [|easy].
  destruct (content r); cbn [value final trace app]; easy.
Qed.

(** The two cases of [bind]. *)
Lemma bind_inl {A B} (m : M A) (k : A -> M B) (c : cache) (x : exn) :
  value (m c) = inl x ->
  bind m k c = {| value := inl x; final := final (m c); trace := trace (m c) |}.
Proof. unfold bind. now intros ->. Qed.

Lemma bind_inr {A B} (m : M A) (k : A -> M B) (c : cache) (a : A) :
  value (m c) = inr a ->
  bind m k c =
    {| value := value (k a (final (m c)));
       final := final (k a (final (m c)));
       trace := trace (m c) ++ trace (k a (final (m c))) |}.
Proof. unfold bind. now intros ->. Qed.

Lemma ensureRunUrl_fresh (e : env) (c : cache) :
  fresh e c ->
  ensureRunUrl e c = {| value := inr tt; final := c; trace := [] |}.
Proof.
  intros [[u Hu] Ht]. unfold ensureRunUrl.
  rewrite (@bind_inr _ _ read _ c c eq_refl). cbn [read final trace app].
  rewrite Hu. apply Z.ltb_lt in Ht. rewrite Ht. reflexivity.
Qed.

Lemma stale_test (e : env) (c : cache) :
  stale e c ->
  (match runUrl c with Some _ => true | None => false end
   && (now_check e <? nextRefreshAt c)%Z) = false.
Proof.
  intros [-> | H]; [reflexivity|].
  apply andb_false_iff; right. now apply Z.ltb_ge.
Qed.

Lemma ensureRunUrl_stale (e : env) (c : cache) :
  stale e c -> ensureRunUrl e c = resolve e c.
Proof.
  intros Hs. unfold ensureRunUrl.
  rewrite (@bind_inr _ _ read _ c c eq_refl). cbn [read final trace app].
  rewrite (stale_test Hs). fold (resolve e). now destruct (resolve e c).
Qed.

(** On a stale cache the call starts with the landing page, whatever
    follows. *)
Lemma ensureRunUrl_stale_fetches (e : env) (c : cache) :
  stale e c ->
  exists rest, trace (ensureRunUrl e c) = GET landing_url :: rest.
Proof.
  intros Hs. rewrite (ensureRunUrl_stale Hs). unfold resolve.
  destruct (fetchText_run e (lit "/") c) as (Hf & Ht & Hv).
  destruct (value (fetchText e (lit "/") c)) as [x|html] eqn:E.
  - rewrite (bind_inl _ _ _ E). cbn [trace]. rewrite Ht. eauto.
  - rewrite (bind_inr _ _ _ E). cbn [trace]. rewrite Ht. cbn [app]. eauto.
Qed.

Lemma ensureRunUrl_resolves (e : env) (c : cache) (path u : jsstring) :
  stale e c -> discovers e path u ->
  ensureRunUrl e c =
    {| value := inr tt;
       final := {| runUrl := Some u;
                   nextRefreshAt := now_store e + RUN_URL_REFRESH_MS |};
       trace := [GET landing_url; GET (TIO_BASE_URL ++ path)] |}.
Proof.
  intros Hs (r & html & r' & script & H1 & H2 & H3 & H4 & H5 & H6 & H7 & H8).
  rewrite (ensureRunUrl_stale Hs). unfold resolve.
  destruct (fetchText_run e (lit "/") c) as (Hf & Ht & Hv).
  fold landing_url in Ht, Hv. rewrite H1, H2, H3 in Hv. cbn [raised] in Hv.
  rewrite (bind_inr _ _ _ Hv), Hf, Ht.
  rewrite (truthy_some H4 (SCRIPT_REGEX_nonempty _ H4)).
  destruct (fetchText_run e path c) as (Hf' & Ht' & Hv').
  rewrite H5, H6, H7 in Hv'. cbn [raised] in Hv'.
  rewrite (bind_inr _ _ _ Hv'), Hf', Ht'.
  rewrite (truthy_some H8 (RUN_URL_REGEX_nonempty _ H8)).
  reflexivity.
Qed.

Lemma ensureRunUrl_fails (e : env) (c : cache) :
  stale e c -> discovery_fails e ->
  exists err, value (ensureRunUrl e c) = inl (Error err).
Proof.
  intros Hs Hd.
  rewrite (ensureRunUrl_stale Hs). unfold resolve.
  destruct (fetchText_run e (lit "/") c) as (Hf & Ht & Hv).
  fold landing_url in Ht, Hv.
  destruct Hd as [r H1 H2 | r html H1 H2 H3 H4
                 | r html path r' H1 H2 H3 H4 H5 H6
                 | r html path r' script H1 H2 H3 H4 H5 H6 H7 H8];
    rewrite H1, H2 in Hv; try rewrite H3 in Hv; cbn [raised] in Hv.
  - rewrite (bind_inl _ _ _ Hv). cbn [value]. eauto.
  - rewrite (bind_inr _ _ _ Hv), (truthy_none H4). cbn [value throw]. eauto.
  - rewrite (bind_inr _ _ _ Hv), Hf.
    rewrite (truthy_some H4 (SCRIPT_REGEX_nonempty _ H4)).
    destruct (fetchText_run e path c) as (Hf' & Ht' & Hv').
    rewrite H5, H6 in Hv'. rewrite (bind_inl _ _ _ Hv'). cbn [value]. eauto.
  - rewrite (bind_inr _ _ _ Hv), Hf.
    rewrite (truthy_some H4 (SCRIPT_REGEX_nonempty _ H4)).
    destruct (fetchText_run e path c) as (Hf' & Ht' & Hv').
    rewrite H5, H6, H7 in Hv'. cbn [raised] in Hv'.
    rewrite (bind_inr _ _ _ Hv'), (truthy_none H8). cbn [value throw]. eauto.
Qed.

(** A call that raises leaves the cache as it found it. *)
Lemma resolve_error_keeps (e : env) (c : cache) (err : exn) :
  value (resolve e c) = inl err -> final (resolve e c) = c.
Proof.
  unfold resolve.
  destruct (fetchText_run e (lit "/") c) as (Hf & Ht & Hv). clear Hv.
  destruct (value (fetchText e (lit "/") c)) as [x|html] eqn:E.
  - rewrite (bind_inl _ _ _ E). now cbn [final].
  - rewrite (bind_inr _ _ _ E), Hf. cbn [final value].
    destruct (truthy (SCRIPT_REGEX html)) as [path|]; [|reflexivity].
    destruct (fetchText_run e path c) as (Hf' & Ht' & Hv'). clear Hv'.
    destruct (value (fetchText e path c)) as [x|script] eqn:E'.
    + rewrite (bind_inl _ _ _ E'). now cbn [final].
    + rewrite (bind_inr _ _ _ E'), Hf'. cbn [final value].
      destruct (truthy (RUN_URL_REGEX script)); [discriminate|reflexivity].
Qed.

Lemma ensureRunUrl_error_keeps (e : env) (c : cache) (err : exn) :
  value (ensureRunUrl e c) = inl err -> final (ensureRunUrl e c) = c.
Proof.
  unfold ensureRunUrl.
  rewrite (@bind_inr _ _ read _ c c eq_refl). cbn [read final trace app value].
  destruct (_ && _); [discriminate|]. apply resolve_error_keeps.
Qed.

Lemma fresh_or_stale (e : env) (c : cache) : fresh e c \/ stale e c.
Proof.
  unfold fresh, stale. destruct (runUrl c) as [u|]; [|now right; left].
  destruct (Z.lt_ge_cases (now_check e) (nextRefreshAt c)); [left|right; right].
  - split; [now exists u|assumption].
  - assumption.
Qed.

(** C8. While the cache holds an endpoint whose refresh time lies ahead,
    [ensureRunUrl] returns at once: no fetch, cache unchanged. Once the
    refresh time has passed, the next call, if discovery succeeds, performs
    one resolution (the two discovery fetches, in order), stores the
    endpoint with a refresh time 850000 ms (14 min 10 s) after the
    resolution, and any later call before that time fetches nothing.
    Nothing but a call changes the cache, so the refresh is lazy. *)
Theorem cache_reuse_and_lazy_refresh (e : env) (c : cache) :
  RUN_URL_REFRESH_MS = (14 * 60000 + 10000)%Z /\
  (fresh e c ->
     ensureRunUrl e c = {| value := inr tt; final := c; trace := [] |}) /\
  (stale e c -> forall path u, discovers e path u ->
     let after := final (ensureRunUrl e c) in
     value (ensureRunUrl e c) = inr tt /\
     trace (ensureRunUrl e c) =
       [GET landing_url; GET (TIO_BASE_URL ++ path)] /\
     after = {| runUrl := Some u;
                nextRefreshAt := now_store e + RUN_URL_REFRESH_MS |} /\
     forall e', (now_check e' < now_store e + RUN_URL_REFRESH_MS)%Z ->
       ensureRunUrl e' after =
         {| value := inr tt; final := after; trace := [] |}).
Proof.
  split; [reflexivity|]. split; [apply ensureRunUrl_fresh|].
  intros Hs path u Hd. rewrite (ensureRunUrl_resolves Hs Hd).
  cbn [value final trace].
  repeat (split; [reflexivity|]).
  intros e' Ht. apply ensureRunUrl_fresh. split; [now eexists|exact Ht].
Qed.

Lemma sample_discovers (now : Z) (evs : list event) :
  discovers (Sample.world now Sample.site evs)
    Sample.script_path Sample.endpoint.
Proof.
  exists {| ok := true; status := 200; statusText := lit "OK";
            content := inr Sample.landing_page |}, Sample.landing_page,
         {| ok := true; status := 200; statusText := lit "OK";
            content := inr Sample.frontend_script |}, Sample.frontend_script.
  repeat split; vm_compute; reflexivity.
Defined.

Lemma cache_reuse_witness :
  ensureRunUrl (Sample.world 100 Sample.site []) Sample.warm =
    {| value := inr tt; final := Sample.warm; trace := [] |} /\
  trace (ensureRunUrl (Sample.world 900000 Sample.site []) Sample.warm) =
    [GET landing_url; GET (TIO_BASE_URL ++ Sample.script_path)] /\
  final (ensureRunUrl (Sample.world 900000 Sample.site []) Sample.warm) =
    {| runUrl := Some Sample.endpoint; nextRefreshAt := 1750040 |} /\
  trace (ensureRunUrl (Sample.world 1750039 Sample.down [])
           (final (ensureRunUrl (Sample.world 900000 Sample.site [])
                     Sample.warm))) = [].
Proof.
  pose proof (cache_reuse_and_lazy_refresh
                (Sample.world 100 Sample.site []) Sample.warm) as (_ & F & _).
  pose proof (cache_reuse_and_lazy_refresh
                (Sample.world 900000 Sample.site []) Sample.warm)
    as (_ & _ & S).
  split.
  - apply F. split; [now eexists|reflexivity].
  - assert (Hs : stale (Sample.world 900000 Sample.site []) Sample.warm).
    { right. cbn. lia. }
    destruct (S Hs _ _ (sample_discovers 900000 [])) as (_ & T & A & N).
    split; [exact T|]. split; [exact A|].
    rewrite (N (Sample.world 1750039 Sample.down [])); [reflexivity|].
    cbn. lia.
Defined.

(** C10. A call of [ensureRunUrl] that raises, for whatever reason, leaves
    [runUrl] and [nextRefreshAt] exactly as they were. In particular, when
    a discovery fetch answers with a non-success status or a pattern finds
    no match, the call on a stale cache raises an [Error] and the cache is
    unchanged (on a fresh cache no discovery is attempted and the cache is
    unchanged as well). *)
Theorem failed_resolution_keeps_cache (e : env) (c : cache) :
  (forall err, value (ensureRunUrl e c) = inl err ->
     final (ensureRunUrl e c) = c) /\
  (discovery_fails e ->
     final (ensureRunUrl e c) = c /\
     (stale e c -> exists msg, value (ensureRunUrl e c) = inl (Error msg))).
Proof.
  split; [apply ensureRunUrl_error_keeps|].
  intros Hd. split.
  - destruct (fresh_or_stale e c) as [Hf|Hs].
    + now rewrite (ensureRunUrl_fresh Hf).
    + destruct (ensureRunUrl_fails Hs Hd) as [msg E].
      eapply ensureRunUrl_error_keeps, E.
  - intros Hs. now apply ensureRunUrl_fails.
Qed.

Lemma sample_down_fails (now : Z) (evs : list event) :
  discovery_fails (Sample.world now Sample.down evs).
Proof.
  eapply landing_status with (r := {| ok := false; status := 404;
    statusText := lit "Not Found";
    content := inl {| name := lit "TypeError";
                      message := lit "body unavailable" |} |});
    reflexivity.
Defined.

Lemma failed_resolution_witness :
  final (ensureRunUrl (Sample.world 900000 Sample.down []) Sample.warm) =
    Sample.warm /\
  exists msg,
    value (ensureRunUrl (Sample.world 900000 Sample.down []) Sample.warm) =
      inl (Error msg).
Proof.
  destruct (failed_resolution_keeps_cache
              (Sample.world 900000 Sample.down []) Sample.warm) as [_ K].
  destruct (K (sample_down_fails 900000 [])) as [K1 K2].
  split; [exact K1|]. apply K2. right. cbn. lia.
Defined.

End CacheFacts.

(** ** The transport step *)

Module TransportFacts.
Import JS Regex Num Tio Notions JSFacts CacheFacts.

Lemma step_timedOut (l : bool) (f : flight) (ev : event) :
  f_timedOut (step l f ev) = true <->
  f_timedOut f = true \/ (f_timer f = true /\ ev = TimerFires).
Proof.
  unfold step, timer_callback, handleAbort.
  destruct ev, (f_timer f) eqn:?, l, (f_signal f) eqn:?; cbn;
    intuition (try discriminate; try congruence).
Qed.

Lemma step_timer (l : bool) (f : flight) (ev : event) :
  f_timer (step l f ev) = true <-> f_timer f = true /\ ev <> TimerFires.
Proof.
  unfold step, timer_callback, handleAbort.
  destruct ev, (f_timer f) eqn:?, l, (f_signal f) eqn:?; cbn;
    intuition (try discriminate; try congruence).
Qed.

Lemma fly_timedOut (l : bool) (evs : list event) (f : flight) :
  f_timedOut (fly l evs f) = true <->
  f_timedOut f = true \/ (f_timer f = true /\ In TimerFires evs).
Proof.
  revert f; induction evs as [|ev evs IH]; intros f; cbn [fly fold_left In].
  - tauto.
  - fold (fly l evs (step l f ev)). rewrite IH, step_timedOut, step_timer.
    split.
    + intros [[H|[H1 H2]]|[[H1 H2] H3]]; auto.
    + intros [H|[H1 [H2|H2]]]; auto.
      destruct ev; [auto|].
      right. split; [split; [exact H1|discriminate]|exact H2].
Qed.

Lemma step_signal (l : bool) (f : flight) (ev : event) :
  f_signal (step l f ev) = true <->
  f_signal f = true \/ (l = true /\ ev = SignalAborts).
Proof.
  unfold step, timer_callback, handleAbort.
  destruct ev, (f_timer f) eqn:?, l, (f_signal f) eqn:?; cbn;
    intuition (try discriminate; try congruence).
Qed.

Lemma fly_signal (l : bool) (evs : list event) (f : flight) :
  f_signal (fly l evs f) = true <->
  f_signal f = true \/ (l = true /\ In SignalAborts evs).
Proof.
  revert f; induction evs as [|ev evs IH]; intros f; cbn [fly fold_left In].
  - tauto.
  - fold (fly l evs (step l f ev)). rewrite IH, step_signal. tauto.
Qed.

Lemma step_attributed (l : bool) (f : flight) (ev : event) :
  attributed f -> attributed (step l f ev).
Proof.
  unfold attributed. destruct ev; cbn [step].
  - destruct (f_timer f); cbn; auto.
  - destruct (l && negb (f_signal f)); cbn; auto.
    intros _. now rewrite orb_true_r.
Qed.

Lemma fly_attributed (l : bool) (evs : list event) (f : flight) :
  attributed f -> attributed (fly l evs f).
Proof.
  revert f; induction evs as [|ev evs IH]; intros f H; cbn [fly fold_left];
    [exact H|].
  apply IH, step_attributed, H.
Qed.

Lemma step_recorded (l : bool) (f : flight) (ev : event) :
  Forall recorded (f_aborts f) -> Forall recorded (f_aborts (step l f ev)).
Proof.
  intros H. destruct ev; cbn [step].
  - destruct (f_timer f); [|exact H]. cbn.
    apply Forall_app; split; [exact H|]. now repeat constructor.
  - destruct (l && negb (f_signal f)); [|exact H]. cbn.
    apply Forall_app; split; [exact H|]. now repeat constructor.
Qed.

Lemma fly_recorded (l : bool) (evs : list event) (f : flight) :
  Forall recorded (f_aborts f) -> Forall recorded (f_aborts (fly l evs f)).
Proof.
  revert f; induction evs as [|ev evs IH]; intros f H; cbn [fly fold_left];
    [exact H|].
  apply IH, step_recorded, H.
Qed.

(** [executeRequest] when the caller's signal is not aborted at the call:
    one POST, the cache untouched, the result decided by the flight. *)
Lemma executeRequest_run (e : env) (body : bytes) (o : NormalizedOptions)
    (c : cache) :
  pre_aborted (signal o) = false ->
  let url := post_url e c in
  let f := fly (listening (signal o)) (inflight e) (takeoff (armed o)) in
  executeRequest e body o c =
    {| value := match attempt e url body f with
                | inr data => inr {| buffer := Some data; t_timedOut := false |}
                | inl error => classify f error
                end;
       final := c;
       trace := [POST url body] |}.
Proof.
  intros Hp url f. unfold executeRequest.
  change (match signal o with Some s => aborted s | None => false end)
    with (pre_aborted (signal o)).
  rewrite Hp.
  rewrite (@bind_inr _ _ read _ c c eq_refl). cbn [read final trace app].
  fold (post_url e c). fold url.
  rewrite (@bind_inr _ _ (emit (POST url body)) _ c tt eq_refl).
  cbn [emit final trace app].
  change (fly _ (inflight e) _) with f.
  destruct (attempt e url body f) as [err|data]; cbn [ret value final trace];
    [|reflexivity].
  unfold lift. destruct (classify f err); reflexivity.
Qed.

Lemma executeRequest_pre_aborted (e : env) (body : bytes)
    (o : NormalizedOptions) (c : cache) :
  pre_aborted (signal o) = true ->
  executeRequest e body o c =
    {| value := inl ExecutionAbortedError; final := c; trace := [] |}.
Proof.
  intros Hp. unfold executeRequest.
  change (match signal o with Some s => aborted s | None => false end)
    with (pre_aborted (signal o)).
  now rewrite Hp.
Qed.

Lemma attempt_aborted (e : env) (url : jsstring) (body : bytes) (f : flight) :
  f_controller f = true -> attempt e url body f = inl AbortError.
Proof. unfold attempt. now intros ->. Qed.

Lemma attempt_not_cancel (e : env) (url : jsstring) (body : bytes)
    (f : flight) :
  attempt e url body f <> inl ExecutionAbortedError.
Proof.
  unfold attempt, AbortError, raised.
  destruct (f_controller f); [discriminate|].
  destruct (reply_post e url body) as [x|r]; [discriminate|].
  destruct (negb (ok r)); [discriminate|].
  destruct (content r); discriminate.
Qed.

Lemma classify_marker (f : flight) (err : exn) (t : transport) :
  classify f err = inr t ->
  f_timedOut f = true /\ t = {| buffer := None; t_timedOut := true |}.
Proof.
  unfold classify. destruct (str_eqb _ _); [|discriminate].
  destruct (f_timedOut f); [|destruct (f_signal f); discriminate].
  now intros [= <-].
Qed.

Lemma classify_cancel (f : flight) (err : exn) :
  err <> ExecutionAbortedError ->
  classify f err = inl ExecutionAbortedError ->
  f_timedOut f = false /\ f_signal f = true.
Proof.
  intros Hn. unfold classify. destruct (str_eqb _ _); [|congruence].
  destruct (f_timedOut f); [discriminate|].
  destruct (f_signal f); [easy|congruence].
Qed.

Section Flight.
Variables (e : env) (body : bytes) (o : NormalizedOptions) (c : cache).

Lemma flight_timedOut : f_timedOut (flown e o) = true <-> timer_fired e o.
Proof.
  unfold flown, timer_fired. rewrite fly_timedOut.
  cbn [takeoff f_timedOut f_timer].
  split; [intros [H|H]; [discriminate|exact H]|auto].
Qed.

Lemma flight_signal : f_signal (flown e o) = true <-> signal_fired e o.
Proof.
  unfold flown, signal_fired. rewrite fly_signal. cbn [takeoff f_signal].
  split; [intros [H|H]; [discriminate|exact H]|auto].
Qed.

Lemma flight_attributed : attributed (flown e o).
Proof. apply fly_attributed. reflexivity. Qed.

Lemma executeRequest_timer :
  pre_aborted (signal o) = false -> timer_fired e o ->
  value (executeRequest e body o c) =
    inr {| buffer := None; t_timedOut := true |}.
Proof.
  intros Hp Ht. rewrite (@executeRequest_run e body o c Hp). cbn [value].
  fold (flown e o). pose proof flight_attributed as Ha. unfold attributed in Ha.
  apply flight_timedOut in Ht.
  rewrite attempt_aborted by (now rewrite Ha, Ht).
  unfold classify. cbn. now rewrite Ht.
Qed.

Lemma executeRequest_signal :
  pre_aborted (signal o) = false -> signal_fired e o -> ~ timer_fired e o ->
  value (executeRequest e body o c) = inl ExecutionAbortedError.
Proof.
  intros Hp Hs Hn. rewrite (@executeRequest_run e body o c Hp). cbn [value].
  fold (flown e o). pose proof flight_attributed as Ha. unfold attributed in Ha.
  apply flight_signal in Hs.
  assert (Ht : f_timedOut (flown e o) = false).
  { destruct (f_timedOut (flown e o)) eqn:E; [|reflexivity].
    now apply flight_timedOut in E. }
  rewrite attempt_aborted by (now rewrite Ha, Hs, orb_true_r).
  unfold classify. cbn. now rewrite Ht, Hs.
Qed.

Lemma executeRequest_marker :
  pre_aborted (signal o) = false ->
  value (executeRequest e body o c) =
    inr {| buffer := None; t_timedOut := true |} ->
  timer_fired e o.
Proof.
  intros Hp. rewrite (@executeRequest_run e body o c Hp). cbn [value].
  fold (flown e o).
  destruct (attempt e (post_url e c) body (flown e o)) as [err|data];
    [|discriminate].
  intros X. apply classify_marker in X as [X _]. now apply flight_timedOut.
Qed.

Lemma executeRequest_cancel :
  pre_aborted (signal o) = false ->
  value (executeRequest e body o c) = inl ExecutionAbortedError ->
  signal_fired e o /\ ~ timer_fired e o.
Proof.
  intros Hp. rewrite (@executeRequest_run e body o c Hp). cbn [value].
  fold (flown e o).
  destruct (attempt e (post_url e c) body (flown e o)) as [err|data] eqn:E;
    [|discriminate].
  intros X. apply classify_cancel in X as [X1 X2].
  - split; [now apply flight_signal|].
    intros Ht. apply flight_timedOut in Ht. congruence.
  - intros ->. now apply attempt_not_cancel in E.
Qed.

(** A POST that brought data was not cut short by the timer. *)
Lemma executeRequest_data (t : transport) (data : bytes) :
  pre_aborted (signal o) = false ->
  value (executeRequest e body o c) = inr t -> buffer t = Some data ->
  t_timedOut t = false /\ ~ timer_fired e o.
Proof.
  intros Hp. rewrite (@executeRequest_run e body o c Hp). cbn [value].
  fold (flown e o).
  destruct (attempt e (post_url e c) body (flown e o)) as [err|d] eqn:A.
  - intros X. apply classify_marker in X as [_ ->]. discriminate.
  - intros [= <-] _. split; [reflexivity|].
    intros Ht. apply flight_timedOut in Ht.
    pose proof flight_attributed as Ha. unfold attributed in Ha.
    rewrite Ht in Ha. cbn in Ha. unfold attempt in A. rewrite Ha in A.
    discriminate.
Qed.

(** C4. While the POST is in flight and the caller's signal was not
    aborted beforehand: if the timer fired, the call returns the
    timed-out marker (no exception); if the caller's signal fired and
    the timer did not, it raises [ExecutionAbortedError]; the marker is
    returned only when the timer fired and the cancellation is raised
    only when the signal fired and the timer did not, so the two are
    never taken for each other; and every [abort()] is issued with its
    cause already recorded (the timer sets [timedOut] first). *)
Theorem abort_classification :
  pre_aborted (signal o) = false ->
  (timer_fired e o ->
     value (executeRequest e body o c) =
       inr {| buffer := None; t_timedOut := true |}) /\
  (signal_fired e o -> ~ timer_fired e o ->
     value (executeRequest e body o c) = inl ExecutionAbortedError) /\
  (value (executeRequest e body o c) =
     inr {| buffer := None; t_timedOut := true |} -> timer_fired e o) /\
  (value (executeRequest e body o c) = inl ExecutionAbortedError ->
     signal_fired e o /\ ~ timer_fired e o) /\
  Forall recorded (f_aborts (flown e o)).
Proof.
  intros Hp.
  split; [now apply executeRequest_timer|].
  split; [now apply executeRequest_signal|].
  split; [now apply executeRequest_marker|].
  split; [now apply executeRequest_cancel|].
  apply fly_recorded. constructor.
Qed.
End Flight.

Lemma abort_classification_witness :
  value (executeRequest (Sample.world 0 Sample.site [TimerFires]) []
           (normalize (Sample.options (Fin 1%Q) Sample.pending)) Sample.warm) =
    inr {| buffer := None; t_timedOut := true |} /\
  value (executeRequest (Sample.world 0 Sample.site [SignalAborts]) []
           (normalize (Sample.options (Fin 1%Q) Sample.pending)) Sample.warm) =
    inl ExecutionAbortedError.
Proof.
  split.
  - apply (@abort_classification (Sample.world 0 Sample.site [TimerFires]) []
             (normalize (Sample.options (Fin 1%Q) Sample.pending))
             Sample.warm eq_refl).
    split; [reflexivity|left; reflexivity].
  - apply (@abort_classification (Sample.world 0 Sample.site [SignalAborts]) []
             (normalize (Sample.options (Fin 1%Q) Sample.pending))
             Sample.warm eq_refl).
    + split; [reflexivity|left; reflexivity].
    + intros [_ [X|[]]]. discriminate.
Defined.

End TransportFacts.

(** ** The metrics grammar *)

Module GrammarFacts.
Import JS Regex Num Tio Notions JSFacts RegexFacts.

Lemma metrics_sound (d s : jsstring) (m : groups) :
  metrics d s = Some m ->
  g_debug m = d /\ well_formed m /\ s = metric_lines m.
Proof.
  unfold metrics, obind.
  destruct (expect _ s) as [s1|] eqn:E1; [|discriminate].
  destruct (plus _ s1) as [[real s2]|] eqn:P1; [|discriminate].
  destruct (expect _ s2) as [s3|] eqn:E2; [|discriminate].
  destruct (plus _ s3) as [[user s4]|] eqn:P2; [|discriminate].
  destruct (expect _ s4) as [s5|] eqn:E3; [|discriminate].
  destruct (plus _ s5) as [[sys s6]|] eqn:P3; [|discriminate].
  destruct (expect _ s6) as [s7|] eqn:E4; [|discriminate].
  destruct (plus _ s7) as [[cpu s8]|] eqn:P4; [|discriminate].
  destruct (expect _ s8) as [s9|] eqn:E5; [|discriminate].
  destruct (plus _ s9) as [[code s10]|] eqn:P5; [|discriminate].
  destruct s10; [|discriminate]. intros [= <-].
  apply expect_sound in E1, E2, E3, E4, E5.
  apply plus_sound in P1 as (-> & N1 & F1 & _).
  apply plus_sound in P2 as (-> & N2 & F2 & _).
  apply plus_sound in P3 as (-> & N3 & F3 & _).
  apply plus_sound in P4 as (-> & N4 & F4 & _).
  apply plus_sound in P5 as (-> & N5 & F5 & _).
  subst. unfold well_formed, float_text, int_text, metric_lines.
  cbn [g_debug g_realTime g_userTime g_sysTime g_CPUshare g_exitCode].
  repeat split; try assumption.
  rewrite app_nil_r. repeat (rewrite <- ?app_assoc; cbn [app]). reflexivity.
Qed.

Lemma expect_line (l1 l2 t : jsstring) (c : codeunit) :
  expect (l1 ++ c :: l2) (l1 ++ c :: l2 ++ t) = Some t.
Proof.
  replace (l1 ++ c :: l2 ++ t) with ((l1 ++ c :: l2) ++ t)
    by now rewrite <- app_assoc.
  apply expect_complete.
Qed.

Lemma plus_whole (p : codeunit -> bool) (r : jsstring) :
  r <> [] -> forallb p r = true -> plus p r = Some (r, []).
Proof.
  intros N F. rewrite <- (app_nil_r r) at 1. now apply plus_complete.
Qed.

Lemma metrics_complete (d : jsstring) (m : groups) :
  well_formed m ->
  metrics d (metric_lines m) =
    Some {| g_debug := d; g_realTime := g_realTime m;
            g_userTime := g_userTime m; g_sysTime := g_sysTime m;
            g_CPUshare := g_CPUshare m; g_exitCode := g_exitCode m |}.
Proof.
  intros ([N1 F1] & [N2 F2] & [N3 F3] & [N4 F4] & [N5 F5]).
  unfold metrics, metric_lines.
  rewrite expect_complete. cbn [obind].
  rewrite (@plus_complete is_digit_or_dot (g_realTime m) _ N1 F1)
    by reflexivity.
  cbn [obind]. rewrite expect_line. cbn [obind].
  rewrite (@plus_complete is_digit_or_dot (g_userTime m) _ N2 F2)
    by reflexivity.
  cbn [obind]. rewrite expect_line. cbn [obind].
  rewrite (@plus_complete is_digit_or_dot (g_sysTime m) _ N3 F3)
    by reflexivity.
  cbn [obind]. rewrite expect_line. cbn [obind].
  rewrite (@plus_complete is_digit_or_dot (g_CPUshare m) _ N4 F4)
    by reflexivity.
  cbn [obind]. rewrite expect_line. cbn [obind].
  rewrite (plus_whole _ N5 F5). reflexivity.
Qed.

Lemma DEBUG_from_sound (pre s : jsstring) (m : groups) :
  DEBUG_from pre s = Some m ->
  well_formed m /\ rev pre ++ s = g_debug m ++ metric_lines m.
Proof.
  revert pre; induction s as [|c s IH]; intros pre; cbn [DEBUG_from].
  - intros E. apply metrics_sound in E as (-> & W & E). now rewrite E.
  - destruct (DEBUG_from (c :: pre) s) as [m'|] eqn:D.
    + intros [= <-]. apply IH in D as [W E]. split; [exact W|].
      rewrite <- E. cbn [rev]. now rewrite <- app_assoc.
    + intros E. apply metrics_sound in E as (-> & W & E). now rewrite E.
Qed.

(** The search finds a match whenever some split of the text has the
    metric lines after it. *)
Lemma DEBUG_from_complete (pre d : jsstring) (m : groups) :
  well_formed m ->
  exists m', DEBUG_from pre (d ++ metric_lines m) = Some m'.
Proof.
  intros W. revert pre; induction d as [|c d IH]; intros pre.
  - cbn [app]. destruct (metric_lines m) as [|c t] eqn:E.
    + discriminate.
    + cbn [DEBUG_from]. destruct (DEBUG_from (c :: pre) t); [eauto|].
      rewrite <- E, (metrics_complete _ W). eauto.
  - cbn [app DEBUG_from]. destruct (IH (c :: pre)) as [m' ->]. eauto.
Qed.

Lemma DEBUG_REGEX_sound (s : jsstring) (m : groups) :
  DEBUG_REGEX s = Some m -> well_formed m /\ s = g_debug m ++ metric_lines m.
Proof. intros E. now apply DEBUG_from_sound in E. Qed.

Lemma DEBUG_REGEX_matches (s : jsstring) :
  ends_with_metrics s <-> exists m, DEBUG_REGEX s = Some m.
Proof.
  split.
  - intros (m & W & ->). now apply DEBUG_from_complete.
  - intros [m E]. exists m. now apply DEBUG_REGEX_sound.
Qed.

Lemma DEBUG_REGEX_fails (s : jsstring) :
  ~ ends_with_metrics s <-> DEBUG_REGEX s = None.
Proof.
  rewrite DEBUG_REGEX_matches. destruct (DEBUG_REGEX s) as [m|].
  - split; [intros N; exfalso; eauto|discriminate].
  - split; [reflexivity|]. intros _ [m E]. discriminate.
Qed.

End GrammarFacts.

(** ** The request encoder *)

Module EncoderFacts.
Import JS Regex Num Tio Notions JSFacts.

Lemma uint_chars_ascii (u : Decimal.uint) :
  forallb (fun c => (c <? 128)%N) (uint_chars u) = true.
Proof. induction u; cbn [uint_chars forallb]; try rewrite IHu; reflexivity. Qed.

Lemma decimal_ascii (n : nat) :
  forallb (fun c => (c <? 128)%N) (decimal n) = true.
Proof. apply uint_chars_ascii. Qed.

Lemma utf8_decimal (n : nat) : utf8_encode (decimal n) = decimal n.
Proof. apply utf8_ascii, decimal_ascii. Qed.

Lemma utf8_NUL (s : jsstring) : utf8_encode (NUL :: s) = NUL :: utf8_encode s.
Proof. reflexivity. Qed.

Lemma utf8_before_NUL (a s : jsstring) :
  utf8_encode (a ++ NUL :: s) = utf8_encode a ++ NUL :: utf8_encode s.
Proof. now rewrite utf8_encode_app, utf8_NUL. Qed.

Lemma encodeField_shape (label value : jsstring) :
  encodeField label value =
    label ++ NUL :: decimal (length (utf8_encode value)) ++ NUL :: value.
Proof.
  unfold encodeField, encodeLength. rewrite byteLength_utf8.
  cbn [concat app]. now rewrite app_nil_r.
Qed.

Lemma encodeField_bytes (label value rest : jsstring) :
  starts_low rest = false ->
  utf8_encode (encodeField label value ++ rest) =
    ffield_bytes label value ++ utf8_encode rest.
Proof.
  intros Hr. rewrite encodeField_shape. unfold ffield_bytes.
  repeat (rewrite <- ?app_assoc; cbn [app]).
  rewrite utf8_before_NUL, utf8_before_NUL, utf8_decimal.
  rewrite utf8_encode_app by exact Hr.
  now repeat (rewrite <- ?app_assoc; cbn [app]).
Qed.

(** C7, as the code has it. Only the two files of the frame carry a
    length: the number written before a value by [encodeField], which
    writes [F.code.tio] and [F.input.tio], is the decimal rendering of the
    number of bytes of the UTF-8 encoding of the value, both in the string
    built and in the bytes sent, where exactly that many bytes of content
    follow; it is not the number of characters: the one character U+20AC,
    three bytes in UTF-8, is preceded by 3. In the variables [Vargs],
    [Vlang], [VTIO_CFLAGS] and [VTIO_OPTIONS] the number after the name is
    the number of values, each value then closed by NUL: the language
    [python3] and the argument U+20AC are each preceded by 1. *)
Theorem length_prefix_counts_bytes (label value code : jsstring)
    (o : NormalizedOptions) :
  encodeField label value =
    label ++ NUL :: decimal (length (utf8_encode value)) ++ NUL :: value /\
  utf8_encode (encodeField label value) = ffield_bytes label value /\
  encodeLength [8364%N] = 3 /\ length [8364%N] = 1 /\
  utf8_encode [8364%N] = [226; 130; 172]%N /\
  encodeField (lit "F.code.tio") [8364%N] =
    lit "F.code.tio" ++ NUL :: lit "3" ++ NUL :: [8364%N] /\
  payload code o =
    (lit "Vargs" ++ NUL :: decimal (length (argv o)) ++ NUL ::
       concat (map (fun x => x ++ [NUL]) (argv o)))
    ++ (lit "Vlang" ++ NUL :: lit "1" ++ NUL :: language o ++ [NUL])
    ++ (lit "VTIO_CFLAGS" ++ NUL :: decimal (length (cflags o)) ++ NUL ::
          concat (map (fun x => x ++ [NUL]) (cflags o)))
    ++ (lit "VTIO_OPTIONS" ++ NUL :: lit "0" ++ [NUL])
    ++ encodeField (lit "F.code.tio") code
    ++ encodeField (lit "F.input.tio") (stdin o)
    ++ lit "R" /\
  (argv o = [[8364%N]] ->
   exists rest,
     payload code o =
       lit "Vargs" ++ NUL :: lit "1" ++ NUL :: [8364%N; NUL] ++ rest).
Proof.
  split; [apply encodeField_shape|]. split.
  { rewrite <- (app_nil_r (encodeField label value)).
    rewrite encodeField_bytes by reflexivity. apply app_nil_r. }
  do 4 (split; [now vm_compute|]).
  assert (P : payload code o =
    (lit "Vargs" ++ NUL :: decimal (length (argv o)) ++ NUL ::
       concat (map (fun x => x ++ [NUL]) (argv o)))
    ++ (lit "Vlang" ++ NUL :: lit "1" ++ NUL :: language o ++ [NUL])
    ++ (lit "VTIO_CFLAGS" ++ NUL :: decimal (length (cflags o)) ++ NUL ::
          concat (map (fun x => x ++ [NUL]) (cflags o)))
    ++ (lit "VTIO_OPTIONS" ++ NUL :: lit "0" ++ [NUL])
    ++ encodeField (lit "F.code.tio") code
    ++ encodeField (lit "F.input.tio") (stdin o)
    ++ lit "R").
  { unfold payload, join. cbn [concat].
    change (decimal 1) with [49%N]. change (decimal 0) with [48%N].
    repeat (rewrite <- ?app_assoc; cbn [app]). reflexivity. }
  split; [exact P|].
  intros A. rewrite P, A. cbn [length map concat].
  change (decimal 1) with (lit "1").
  eexists. repeat (rewrite <- ?app_assoc; cbn [app]). reflexivity.
Qed.

(** The rule of section 4.2 does not hold of every value of the frame:
    the language [python3], seven bytes long, is carried by the frame of
    the sample request, and nowhere in it does it come after a 7. *)
Lemma language_is_not_byte_prefixed :
  In (lit "python3")
    (field_values Sample.source
       (normalize (Sample.options (Fin 1000%Q) None))) /\
  ~ byte_prefixed
      (payload Sample.source (normalize (Sample.options (Fin 1000%Q) None)))
      (lit "python3").
Proof.
  split; [now left|].
  intros (pre & post & E).
  apply (@indexOf_occurs
           (NUL :: decimal (byteLength (lit "python3")) ++ NUL ::
            lit "python3") pre post).
  replace (pre ++ (NUL :: decimal (byteLength (lit "python3")) ++ NUL ::
                   lit "python3") ++ post)
    with (payload Sample.source
            (normalize (Sample.options (Fin 1000%Q) None)))
    by (rewrite E; cbn [app]; now rewrite <- ?app_assoc).
  vm_compute. reflexivity.
Qed.

Lemma payload_layout (code : jsstring) (o : NormalizedOptions) :
  payload code o =
    vfield (lit "Vargs") (argv o)
    ++ vfield (lit "Vlang") [language o]
    ++ vfield (lit "VTIO_CFLAGS") (cflags o)
    ++ vfield (lit "VTIO_OPTIONS") []
    ++ encodeField (lit "F.code.tio") code
    ++ encodeField (lit "F.input.tio") (stdin o)
    ++ lit "R".
Proof.
  unfold payload, vfield, terminated, join.
  cbn [concat length map]. change (decimal 1) with [49%N].
  change (decimal 0) with [48%N].
  repeat (rewrite <- ?app_assoc; cbn [app]). reflexivity.
Qed.

Lemma terminated_bytes (entries : list jsstring) (rest : jsstring) :
  starts_low rest = false ->
  utf8_encode (terminated entries ++ rest) =
    concat (map (fun x => utf8_encode x ++ [NUL]) entries) ++ utf8_encode rest.
Proof.
  intros Hr. unfold terminated.
  induction entries as [|x l IH]; [reflexivity|].
  cbn [map concat]. repeat (rewrite <- ?app_assoc; cbn [app]).
  now rewrite utf8_before_NUL, IH.
Qed.

Lemma vfield_bytes (name : jsstring) (entries : list jsstring)
    (rest : jsstring) :
  starts_low rest = false ->
  utf8_encode (vfield name entries ++ rest) =
    utf8_encode name ++ NUL :: decimal (length entries) ++ NUL ::
    concat (map (fun x => utf8_encode x ++ [NUL]) entries) ++ utf8_encode rest.
Proof.
  intros Hr. unfold vfield. repeat (rewrite <- ?app_assoc; cbn [app]).
  rewrite utf8_before_NUL, utf8_before_NUL, utf8_decimal.
  now rewrite terminated_bytes.
Qed.

(** C2, as the code has it. For every request the string deflated is, in
    this order: the variable [Vargs] (number of arguments, then each
    argument closed by NUL), the variable [Vlang] (the literal 1, then the
    language closed by NUL), the variable [VTIO_CFLAGS] (number of flags,
    each flag closed by NUL), the variable [VTIO_OPTIONS] (the literal 0 and
    no value), the file [F.code.tio] and the file [F.input.tio] (each: name,
    NUL, decimal number of UTF-8 bytes, NUL, content), and the single
    character [R]; the bytes sent are the same seven parts, encoded. *)
Theorem frame_layout `{Runtime} (code : jsstring) (o : NormalizedOptions) :
  payload code o =
    vfield (lit "Vargs") (argv o)
    ++ vfield (lit "Vlang") [language o]
    ++ vfield (lit "VTIO_CFLAGS") (cflags o)
    ++ vfield (lit "VTIO_OPTIONS") []
    ++ encodeField (lit "F.code.tio") code
    ++ encodeField (lit "F.input.tio") (stdin o)
    ++ lit "R" /\
  vfield (lit "Vlang") [language o] =
    lit "Vlang" ++ NUL :: lit "1" ++ NUL :: language o ++ [NUL] /\
  vfield (lit "VTIO_OPTIONS") [] =
    lit "VTIO_OPTIONS" ++ NUL :: lit "0" ++ [NUL] /\
  buildRequestBody code o =
    deflateRawSync
      (lit "Vargs" ++ NUL :: decimal (length (argv o)) ++ NUL ::
         concat (map (fun x => utf8_encode x ++ [NUL]) (argv o))
       ++ lit "Vlang" ++ NUL :: lit "1" ++ NUL ::
         utf8_encode (language o) ++ [NUL]
       ++ lit "VTIO_CFLAGS" ++ NUL :: decimal (length (cflags o)) ++ NUL ::
         concat (map (fun x => utf8_encode x ++ [NUL]) (cflags o))
       ++ lit "VTIO_OPTIONS" ++ NUL :: lit "0" ++ [NUL]
       ++ ffield_bytes (lit "F.code.tio") code
       ++ ffield_bytes (lit "F.input.tio") (stdin o)
       ++ lit "R").
Proof.
  split; [apply payload_layout|]. split; [|split].
  - unfold vfield, terminated. cbn [map concat length].
    now rewrite app_nil_r.
  - reflexivity.
  - unfold buildRequestBody. f_equal. rewrite payload_layout.
    rewrite vfield_bytes by reflexivity.
    rewrite vfield_bytes by reflexivity.
    rewrite vfield_bytes by reflexivity.
    rewrite vfield_bytes by reflexivity.
    rewrite encodeField_bytes by reflexivity.
    rewrite encodeField_bytes by reflexivity.
    cbn [map concat length].
    repeat (rewrite <- ?app_assoc; cbn [app]). reflexivity.
Qed.

(** The frame is not the one the specification words: it opens with
    [Vargs], not [args], whatever the terminator. *)
Lemma frame_differs_from_spec_wording :
  ~ exists terminator,
      payload Sample.source (normalize (Sample.options (Fin 1000%Q) None))
      = spec_frame terminator Sample.source
          (normalize (Sample.options (Fin 1000%Q) None)).
Proof.
  intros [terminator E]. apply (f_equal (@hd _ 0%N)) in E.
  vm_compute in E. discriminate.
Qed.

End EncoderFacts.

(** ** The response decoder *)

Module DecoderFacts.
Import JS Regex Num Tio Notions JSFacts RegexFacts GrammarFacts.

Lemma decode_few (t : bool) (content : jsstring) :
  length (split (substring_from 16 content) (substring_to 16 content)) < 2 ->
  decode t content =
    inl (Error (lit "Unexpected response format received from tio.run")).
Proof.
  intros Hl. unfold decode. apply Nat.ltb_lt in Hl. now rewrite Hl.
Qed.

Lemma decode_unmatched (t : bool) (content : jsstring) :
  2 <= length (split (substring_from 16 content) (substring_to 16 content)) ->
  DEBUG_REGEX (diagnostics content) = None ->
  decode t content =
    inl (Error (lit "Unable to parse tio.run diagnostics output")).
Proof.
  intros Hl Hd. unfold decode. apply Nat.ltb_ge in Hl. rewrite Hl.
  fold (diagnostics content). now rewrite Hd.
Qed.

Lemma decode_matched (t : bool) (content : jsstring) (m : groups) :
  2 <= length (split (substring_from 16 content) (substring_to 16 content)) ->
  DEBUG_REGEX (diagnostics content) = Some m ->
  decode t content =
    inr {| output := if is_nil (segment0 content) then g_debug m
                     else segment0 content;
           timedOut := t;
           realTime := parseFloat (g_realTime m);
           userTime := parseFloat (g_userTime m);
           sysTime := parseFloat (g_sysTime m);
           CPUshare := parseFloat (g_CPUshare m);
           exitCode := Number (g_exitCode m) |}.
Proof.
  intros Hl Hd. unfold decode. apply Nat.ltb_ge in Hl. rewrite Hl.
  fold (diagnostics content). now rewrite Hd.
Qed.

Lemma decode_inr (t : bool) (content : jsstring) (r : TioResponse) :
  decode t content = inr r ->
  2 <= length (split (substring_from 16 content) (substring_to 16 content)) /\
  exists m, DEBUG_REGEX (diagnostics content) = Some m /\
    r = {| output := if is_nil (segment0 content) then g_debug m
                     else segment0 content;
           timedOut := t;
           realTime := parseFloat (g_realTime m);
           userTime := parseFloat (g_userTime m);
           sysTime := parseFloat (g_sysTime m);
           CPUshare := parseFloat (g_CPUshare m);
           exitCode := Number (g_exitCode m) |}.
Proof.
  unfold decode. fold (diagnostics content) (segment0 content).
  destruct (Nat.ltb_spec
    (length (split (substring_from 16 content) (substring_to 16 content))) 2)
    as [Hl|Hl]; [discriminate|].
  destruct (DEBUG_REGEX (diagnostics content)) as [m|]; [|discriminate].
  intros [= <-]. split; [exact Hl|]. now exists m.
Qed.

Lemma decode_malformed (t : bool) (content : jsstring) :
  malformed content -> exists msg, decode t content = inl (Error msg).
Proof.
  intros [Hl|Hn].
  - rewrite decode_few by exact Hl. eauto.
  - destruct (Nat.lt_ge_cases
      (length (split (substring_from 16 content) (substring_to 16 content))) 2)
      as [Hl|Hl].
    + rewrite decode_few by exact Hl. eauto.
    + rewrite decode_unmatched; [eauto|exact Hl|].
      now apply DEBUG_REGEX_fails.
Qed.

(** The exit code of a match is the number for a natural number. *)
Lemma Number_digits (s : jsstring) :
  forallb is_digit s = true ->
  Number s = of_real (inject_Z (Z.of_N (digits_val 0 s))).
Proof. unfold Number. now intros ->. Qed.

(** The sections of the example: the delimiter, read from the first 16
    characters, cuts the rest in two. *)
Lemma example_sections (delim out seg : jsstring) :
  delimits delim out seg ->
  substring_to 16 (delim ++ out ++ delim ++ seg) = delim /\
  split (substring_from 16 (delim ++ out ++ delim ++ seg)) delim = [out; seg].
Proof.
  intros (Hl & Ho & Hs). unfold substring_to, substring_from.
  rewrite <- Hl at 1 2.
  rewrite firstn_app, Nat.sub_diag, firstn_all. cbn [firstn].
  rewrite app_nil_r. split; [reflexivity|].
  rewrite skipn_app, skipn_all, Nat.sub_diag. cbn [skipn app].
  apply split_two; try assumption.
  intros ->. discriminate.
Qed.

(** C3. The example of the specification: the text made of a delimiter of
    16 characters, [hello], the delimiter again and the diagnostics block
    [dbg], newline, the five metric lines, the 16 characters being the
    delimiter of that text, decodes to output [hello], real time 0.12,
    user time 0.03, system time 0.01, CPU share 33.3 and exit code 0. In
    general a decoded result comes from a segment 1 that ends with the
    metric lines (text, then the five lines, up to the end), its output
    is segment 0 when that is not empty and the captured text otherwise,
    and its numbers are read from the five lines. *)
Theorem decode_example (delim : jsstring) (t : bool) (content : jsstring)
    (r : TioResponse) :
  (delimits delim (lit "hello") Sample.diag ->
   decode t (delim ++ lit "hello" ++ delim ++ Sample.diag) =
     inr {| output := lit "hello"; timedOut := t;
            realTime := Fin 0.12%Q; userTime := Fin 0.03%Q;
            sysTime := Fin 0.01%Q; CPUshare := Fin 33.3%Q;
            exitCode := Fin 0%Q |}) /\
  (decode t content = inr r ->
   ends_with_metrics (diagnostics content) /\
   exists m, DEBUG_REGEX (diagnostics content) = Some m /\
     diagnostics content = g_debug m ++ metric_lines m /\
     output r = (if is_nil (segment0 content) then g_debug m
                 else segment0 content) /\
     realTime r = parseFloat (g_realTime m) /\
     userTime r = parseFloat (g_userTime m) /\
     sysTime r = parseFloat (g_sysTime m) /\
     CPUshare r = parseFloat (g_CPUshare m) /\
     exitCode r = Number (g_exitCode m)).
Proof.
  split.
  - intros Hd.
    destruct (example_sections Hd) as [Hd1 Hd2].
    unfold decode. rewrite Hd1, Hd2. now vm_compute.
  - intros E. apply decode_inr in E as (_ & m & Hm & ->).
    split; [apply DEBUG_REGEX_matches; eauto|].
    exists m. split; [exact Hm|].
    split; [now apply DEBUG_REGEX_sound in Hm|]. now cbn.
Qed.

Lemma decode_example_witness :
  decode false
    (Sample.delimiter ++ lit "hello" ++ Sample.delimiter ++ Sample.diag) =
    inr {| output := lit "hello"; timedOut := false;
           realTime := Fin 0.12%Q; userTime := Fin 0.03%Q;
           sysTime := Fin 0.01%Q; CPUshare := Fin 33.3%Q;
           exitCode := Fin 0%Q |}.
Proof.
  apply (proj1 (decode_example Sample.delimiter false []
                  {| output := []; timedOut := false; realTime := NaN;
                     userTime := NaN; sysTime := NaN; CPUshare := NaN;
                     exitCode := NaN |})).
  repeat split; vm_compute; reflexivity.
Defined.

End DecoderFacts.

(** ** [runOnTio] *)

Module RunFacts.
Import JS Regex Num Tio Notions JSFacts RegexFacts CacheFacts TransportFacts.
Import NumFacts GrammarFacts DecoderFacts.

Section Run.
Context `{Runtime}.
Variables (e : env) (code : jsstring) (o : TioRunOptions) (c : cache).

(** A failed resolution ends the call. *)
Lemma runOnTio_unresolved (err : exn) :
  value (ensureRunUrl e c) = inl err ->
  runOnTio e code o c =
    {| value := inl err; final := final (ensureRunUrl e c);
       trace := trace (ensureRunUrl e c) |}.
Proof. intros E. unfold runOnTio. now rewrite (bind_inl _ _ _ E). Qed.

(** A signal aborted beforehand ends the call after the resolution. *)
Lemma runOnTio_pre_aborted :
  pre_aborted (o_signal o) = true ->
  runOnTio e code o c =
    {| value := match value (ensureRunUrl e c) with
                | inl err => inl err
                | inr _ => inl ExecutionAbortedError
                end;
       final := final (ensureRunUrl e c);
       trace := trace (ensureRunUrl e c) |}.
Proof.
  intros Hp. destruct (value (ensureRunUrl e c)) as [err|[]] eqn:E.
  - now apply runOnTio_unresolved.
  - unfold runOnTio. rewrite (bind_inr _ _ _ E).
    rewrite (bind_inl _ _ _
               (f_equal (@value _)
                  (@executeRequest_pre_aborted e _ (normalize o) _ Hp))).
    rewrite executeRequest_pre_aborted by exact Hp.
    cbn [value final trace]. now rewrite app_nil_r.
Qed.

(** The call once the endpoint is resolved and the signal is not aborted
    beforehand. *)
Lemma runOnTio_sent :
  value (ensureRunUrl e c) = inr tt ->
  pre_aborted (o_signal o) = false ->
  value (runOnTio e code o c) =
    match value (executeRequest e (buildRequestBody code (normalize o))
                   (normalize o) (final (ensureRunUrl e c))) with
    | inl err => inl err
    | inr r =>
        match buffer r with
        | None => inr (timed_out_response (normalize o))
        | Some data =>
            match gunzipSync data with
            | inl x => inl (Raised x)
            | inr raw => decode (t_timedOut r) (Buffer_toString raw)
            end
        end
    end.
Proof.
  intros E Hp. unfold runOnTio. rewrite (bind_inr _ _ _ E). cbn [value].
  set (c' := final (ensureRunUrl e c)).
  set (m := executeRequest e _ _).
  destruct (value (m c')) as [err|r] eqn:E'.
  - now rewrite (bind_inl _ _ _ E').
  - rewrite (bind_inr _ _ _ E'). cbn [value].
    destruct (buffer r) as [data|]; [|reflexivity].
    unfold bind, lift, raised.
    destruct (gunzipSync data) as [x|raw]; cbn [throw ret value];
      [reflexivity|].
    now destruct (decode _ _).
Qed.

Lemma resolve_trace (c0 : cache) :
  existsb is_post (trace (resolve e c0)) = false.
Proof.
  unfold resolve.
  destruct (fetchText_run e (lit "/") c0) as (Hf & Ht & _).
  destruct (value (fetchText e (lit "/") c0)) as [x|html] eqn:E.
  - rewrite (bind_inl _ _ _ E). cbn [trace]. now rewrite Ht.
  - rewrite (bind_inr _ _ _ E), Hf, Ht. cbn [trace app existsb is_post orb].
    destruct (truthy (SCRIPT_REGEX html)) as [path|]; [|reflexivity].
    destruct (fetchText_run e path c0) as (Hf' & Ht' & _).
    destruct (value (fetchText e path c0)) as [x|script] eqn:E'.
    + rewrite (bind_inl _ _ _ E'). cbn [trace]. now rewrite Ht'.
    + rewrite (bind_inr _ _ _ E'), Hf', Ht'.
      cbn [trace app existsb is_post orb].
      now destruct (truthy (RUN_URL_REGEX script)).
Qed.

Lemma ensureRunUrl_trace : existsb is_post (trace (ensureRunUrl e c)) = false.
Proof.
  destruct (fresh_or_stale e c) as [Hf|Hs].
  - now rewrite (ensureRunUrl_fresh Hf).
  - rewrite (ensureRunUrl_stale Hs). apply resolve_trace.
Qed.

(** C1, as the code has it. When the caller's signal is already aborted
    at the call, no POST is sent and the fetches made are those of the
    endpoint resolution, which runs first: on a fresh cache there is
    none, and [ExecutionAbortedError] is raised with the cache unchanged;
    otherwise the discovery fetches are made, and the call raises
    [ExecutionAbortedError] if the resolution succeeds and the error of
    the resolution if it fails. *)
Theorem pre_aborted_sends_no_post :
  pre_aborted (o_signal o) = true ->
  existsb is_post (trace (runOnTio e code o c)) = false /\
  trace (runOnTio e code o c) = trace (ensureRunUrl e c) /\
  (fresh e c ->
     runOnTio e code o c =
       {| value := inl ExecutionAbortedError; final := c; trace := [] |}) /\
  (value (ensureRunUrl e c) = inr tt ->
     value (runOnTio e code o c) = inl ExecutionAbortedError) /\
  (forall err, value (ensureRunUrl e c) = inl err ->
     value (runOnTio e code o c) = inl err).
Proof.
  intros Hp. rewrite (runOnTio_pre_aborted Hp). cbn [value final trace].
  split; [apply ensureRunUrl_trace|]. split; [reflexivity|].
  split; [|split].
  - intros Hf. now rewrite (ensureRunUrl_fresh Hf).
  - now intros ->.
  - now intros err ->.
Qed.

(** What a returned result can be. *)
Lemma runOnTio_returns (r : TioResponse) :
  value (ensureRunUrl e c) = inr tt ->
  pre_aborted (o_signal o) = false ->
  value (runOnTio e code o c) = inr r ->
  (timer_fired e (normalize o) /\ r = timed_out_response (normalize o)) \/
  (~ timer_fired e (normalize o) /\
   exists data raw,
     value (executeRequest e (buildRequestBody code (normalize o))
              (normalize o) (final (ensureRunUrl e c))) =
       inr {| buffer := Some data; t_timedOut := false |} /\
     gunzipSync data = inr raw /\
     decode false (Buffer_toString raw) = inr r).
Proof.
  intros E Hp. rewrite (runOnTio_sent E Hp).
  destruct (value (executeRequest e _ _ _)) as [err|t] eqn:X; [discriminate|].
  destruct (buffer t) as [data|] eqn:B.
  - destruct (@executeRequest_data e _ (normalize o) _ t data Hp X B)
      as [T N].
    rewrite T. destruct (gunzipSync data) as [x|raw] eqn:G; [discriminate|].
    intros D. right. split; [exact N|]. exists data, raw.
    split; [|split; assumption].
    destruct t as [b tt']. cbn in B, T. now subst.
  - intros [= <-]. left. split; [|reflexivity].
    apply (@executeRequest_marker e (buildRequestBody code (normalize o))
             (normalize o) (final (ensureRunUrl e c)) Hp).
    rewrite X. f_equal. destruct t as [b tt']. cbn in B. subst b.
    pose proof X as X'.
    rewrite (@executeRequest_run e _ (normalize o) _ Hp) in X'.
    cbn [value] in X'.
    destruct (attempt e _ _ _) as [err|d]; [|discriminate].
    now apply classify_marker in X' as [_ ->].
Qed.

(** C5. Once the endpoint is resolved and the caller's signal is not
    aborted beforehand: a request whose timer fires while the POST is in
    flight makes [runOnTio] return (not raise) a result with [timedOut]
    true, exit code 124, CPU share 0 and real, user and system time all
    equal to the effective timeout divided by 1000; and every result
    returned is either of that kind, or has [timedOut] false and the
    exit code read from the last metric line of the diagnostics block:
    the number that [Number] gives for its digits, which for the decimal
    writing of a natural number below 10^15 is that number itself, a
    binary64 value. *)
Theorem timeout_is_a_result :
  value (ensureRunUrl e c) = inr tt ->
  pre_aborted (o_signal o) = false ->
  let seconds := div1000 (timeout (normalize o)) in
  (timer_fired e (normalize o) ->
     exists r, value (runOnTio e code o c) = inr r /\
       timedOut r = true /\ exitCode r = Fin 124%Q /\
       CPUshare r = Fin 0%Q /\
       realTime r = seconds /\ userTime r = seconds /\
       sysTime r = seconds) /\
  (forall r, value (runOnTio e code o c) = inr r ->
     (timer_fired e (normalize o) /\ timedOut r = true /\
      exitCode r = Fin 124%Q /\ CPUshare r = Fin 0%Q) \/
     (~ timer_fired e (normalize o) /\ timedOut r = false /\
      exists data raw m,
        value (executeRequest e (buildRequestBody code (normalize o))
                 (normalize o) (final (ensureRunUrl e c))) =
          inr {| buffer := Some data; t_timedOut := false |} /\
        gunzipSync data = inr raw /\
        DEBUG_REGEX (diagnostics (Buffer_toString raw)) = Some m /\
        exitCode r = Number (g_exitCode m) /\
        forall k, (Z.of_nat k < 10 ^ 15)%Z -> g_exitCode m = decimal k ->
          exitCode r = Fin (inject_Z (Z.of_nat k)) /\
          b64 (inject_Z (Z.of_nat k)) = inject_Z (Z.of_nat k))).
Proof.
  intros E Hp seconds. split.
  - intros Ht. exists (timed_out_response (normalize o)).
    rewrite (runOnTio_sent E Hp).
    rewrite (@executeRequest_timer e (buildRequestBody code (normalize o))
               (normalize o) (final (ensureRunUrl e c)) Hp Ht).
    cbn [buffer].
    repeat (split; [reflexivity|]). reflexivity.
  - intros r Hr.
    destruct (runOnTio_returns E Hp Hr)
      as [[Ht ->]|(Hn & data & raw & X & G & D)].
    + left. split; [exact Ht|]. repeat (split; [reflexivity|]). reflexivity.
    + right. apply decode_inr in D as (_ & m & Hm & ->).
      split; [exact Hn|]. split; [reflexivity|].
      exists data, raw, m.
      split; [exact X|].
      split; [exact G|]. split; [exact Hm|]. split; [reflexivity|].
      intros k Hk Ek. cbn [exitCode]. rewrite Ek.
      now apply Number_decimal.
Qed.

(** C9. When the split of the decompressed text on its first 16
    characters gives fewer than two segments, or segment 1 does not end
    with the metric lines, decoding raises an [Error] (the first or the
    second message of the decoder) and yields no result at all; a call
    of [runOnTio] whose POST brought such a payload raises that error. *)
Theorem malformed_payload_raises (t : bool) (content : jsstring)
    (data raw : bytes) :
  (length (split (substring_from 16 content) (substring_to 16 content)) < 2 ->
   decode t content =
     inl (Error (lit "Unexpected response format received from tio.run"))) /\
  (2 <= length (split (substring_from 16 content) (substring_to 16 content)) ->
   ~ ends_with_metrics (diagnostics content) ->
   decode t content =
     inl (Error (lit "Unable to parse tio.run diagnostics output"))) /\
  (malformed content -> forall r, decode t content <> inr r) /\
  (value (ensureRunUrl e c) = inr tt ->
   pre_aborted (o_signal o) = false ->
   value (executeRequest e (buildRequestBody code (normalize o))
            (normalize o) (final (ensureRunUrl e c))) =
     inr {| buffer := Some data; t_timedOut := false |} ->
   gunzipSync data = inr raw ->
   malformed (Buffer_toString raw) ->
   exists msg, value (runOnTio e code o c) = inl (Error msg)).
Proof.
  split; [apply decode_few|]. split; [|split].
  - intros Hl Hn. apply decode_unmatched; [exact Hl|].
    now apply DEBUG_REGEX_fails.
  - intros Hm r D. destruct (decode_malformed t Hm) as [msg D'].
    congruence.
  - intros E Hp X G Hm. rewrite (runOnTio_sent E Hp), X. cbn [buffer].
    rewrite G. cbn [t_timedOut]. now apply decode_malformed.
Qed.

End Run.


Lemma pre_aborted_witness :
  @runOnTio Sample.stored (Sample.world 100 Sample.site []) Sample.source
    (Sample.options (Fin 1000%Q) Sample.cancelled) Sample.warm =
    {| value := inl ExecutionAbortedError; final := Sample.warm; trace := [] |}
  /\ existsb is_post
       (trace (@runOnTio Sample.stored (Sample.world 100 Sample.site [])
                 Sample.source (Sample.options (Fin 1000%Q) Sample.cancelled)
                 initial)) = false.
Proof.
  split.
  - apply (@pre_aborted_sends_no_post Sample.stored
             (Sample.world 100 Sample.site []) Sample.source
             (Sample.options (Fin 1000%Q) Sample.cancelled) Sample.warm
             eq_refl).
    split; [now eexists|reflexivity].
  - apply (@pre_aborted_sends_no_post Sample.stored
             (Sample.world 100 Sample.site []) Sample.source
             (Sample.options (Fin 1000%Q) Sample.cancelled) initial eq_refl).
Defined.

(** The first sentence of C1 fails on a cold cache: the call of a caller
    whose signal is already aborted fetches the landing page and the
    script before it raises. *)
Lemma cancelled_call_still_discovers :
  pre_aborted (o_signal (Sample.options (Fin 1000%Q) Sample.cancelled)) = true
  /\ ~ @aborts_before_any_fetch Sample.stored
         (Sample.world 100 Sample.site []) Sample.source
         (Sample.options (Fin 1000%Q) Sample.cancelled) initial.
Proof.
  split; [reflexivity|]. intros [T _]. vm_compute in T. discriminate.
Qed.

Lemma cancelled_call_trace :
  trace (@runOnTio Sample.stored (Sample.world 100 Sample.site [])
           Sample.source (Sample.options (Fin 1000%Q) Sample.cancelled)
           initial) =
    [GET landing_url; GET (TIO_BASE_URL ++ Sample.script_path)]
  /\ value (@runOnTio Sample.stored (Sample.world 100 Sample.down [])
              Sample.source (Sample.options (Fin 1000%Q) Sample.cancelled)
              initial) =
       inl (Error (lit "Failed to fetch / from tio.run (404)")).
Proof. split; vm_compute; reflexivity. Qed.

Lemma timeout_is_a_result_witness :
  (exists r,
     value (@runOnTio Sample.stored
              (Sample.world 100 Sample.site [TimerFires]) Sample.source
              (Sample.options (Fin 1%Q) Sample.pending) initial) = inr r /\
     timedOut r = true /\ exitCode r = Fin 124%Q /\ CPUshare r = Fin 0%Q /\
     realTime r = Fin (500 / 1000)%Q /\ userTime r = Fin (500 / 1000)%Q /\
     sysTime r = Fin (500 / 1000)%Q) /\
  (exists r,
     value (@runOnTio Sample.stored
              (Sample.serving 100 Sample.site []
                 (Sample.delimiter ++ lit "hello" ++ Sample.delimiter
                  ++ Sample.diag_killed))
              Sample.source (Sample.options (Fin 1%Q) Sample.pending)
              initial) = inr r /\
     timedOut r = false /\ exitCode r = Fin 137%Q).
Proof.
  split.
  - apply (@timeout_is_a_result Sample.stored
             (Sample.world 100 Sample.site [TimerFires]) Sample.source
             (Sample.options (Fin 1%Q) Sample.pending) initial).
    + vm_compute; reflexivity.
    + reflexivity.
    + split; [reflexivity|left; reflexivity].
  - eexists. split; [vm_compute; reflexivity|].
    destruct (@timeout_is_a_result Sample.stored
                (Sample.serving 100 Sample.site []
                   (Sample.delimiter ++ lit "hello" ++ Sample.delimiter
                    ++ Sample.diag_killed))
                Sample.source (Sample.options (Fin 1%Q) Sample.pending)
                initial) as [_ R].
    + vm_compute; reflexivity.
    + reflexivity.
    + destruct (R _ ltac:(vm_compute; reflexivity))
        as [(_ & X & _)|(_ & X & data & raw & m & V & G & D & _ & K)];
        [discriminate X|].
      split; [exact X|].
      vm_compute in V. injection V as <-.
      vm_compute in G. injection G as <-.
      vm_compute in D. injection D as <-.
      apply (K 137); reflexivity.
Defined.

Lemma malformed_payload_witness :
  decode false (lit "too short") =
    inl (Error (lit "Unexpected response format received from tio.run")) /\
  decode false (Sample.delimiter ++ lit "hello" ++ Sample.delimiter
                ++ lit "Real time: 0.12 s") =
    inl (Error (lit "Unable to parse tio.run diagnostics output")) /\
  exists msg,
    value (@runOnTio Sample.stored
             (Sample.serving 100 Sample.site [] (lit "too short"))
             Sample.source (Sample.options (Fin 1%Q) Sample.pending)
             initial) = inl (Error msg).
Proof.
  split; [|split].
  - apply (@malformed_payload_raises Sample.stored
             (Sample.world 100 Sample.site []) Sample.source
             (Sample.options (Fin 1%Q) Sample.pending) initial
             false (lit "too short") [] []).
    vm_compute. lia.
  - apply (@malformed_payload_raises Sample.stored
             (Sample.world 100 Sample.site []) Sample.source
             (Sample.options (Fin 1%Q) Sample.pending) initial
             false _ [] []).
    + vm_compute. lia.
    + apply DEBUG_REGEX_fails. vm_compute; reflexivity.
  - apply (@malformed_payload_raises Sample.stored
             (Sample.serving 100 Sample.site [] (lit "too short"))
             Sample.source (Sample.options (Fin 1%Q) Sample.pending) initial
             false [] (lit "too short") (lit "too short")).
    + vm_compute; reflexivity.
    + reflexivity.
    + vm_compute; reflexivity.
    + reflexivity.
    + left. vm_compute. lia.
Defined.

(** ** The effective timeout *)

(** C6. For every requested timeout [t] (a finite number of
    milliseconds) the timeout in force is the larger of 500 and [t]: 500
    when [t] is at most 500 (so for 1 and for 500), and [t] itself when [t]
    exceeds 500; and the timer is started with it. *)
Theorem timeout_floor (o : TioRunOptions) (t : Q) :
  o_timeout o = Fin t ->
  timeout (normalize o) = Fin (Qmax 500 t) /\
  armed (normalize o) = true /\
  ((t <= 500)%Q -> timeout (normalize o) = Fin 500%Q) /\
  ((500 < t)%Q -> timeout (normalize o) = Fin t).
Proof.
  intros Ht.
  assert (E : timeout (normalize o) = Fin (Qmax 500 t)).
  { unfold normalize. cbn [timeout]. now rewrite Ht. }
  split; [exact E|]. split; [|split].
  - unfold armed. rewrite E. cbn [isFinite gt0 andb].
    destruct (Qle_bool (Qmax 500 t) 0) eqn:B; [|reflexivity].
    apply Qle_bool_iff in B.
    pose proof (Q.le_max_l 500%Q t) as L.
    pose proof (Qle_trans _ _ _ L B) as X. now compute in X.
  - intros Hle. rewrite E. f_equal.
    unfold Qmax, GenericMinMax.gmax.
    destruct (500 ?= t)%Q eqn:C; try reflexivity.
    apply (proj2 (Qlt_alt _ _)) in C. now apply Qle_not_lt in Hle.
  - intros Hlt. rewrite E. f_equal.
    unfold Qmax, GenericMinMax.gmax.
    pose proof (proj1 (Qlt_alt _ _) Hlt) as L.
    destruct (500 ?= t)%Q; try reflexivity; discriminate L.
Qed.

Lemma timeout_floor_witness :
  timeout (normalize (Sample.options (Fin 1%Q) None)) = Fin 500%Q /\
  timeout (normalize (Sample.options (Fin 500%Q) None)) = Fin 500%Q /\
  timeout (normalize (Sample.options (Fin 2000%Q) None)) = Fin 2000%Q.
Proof.
  destruct (@timeout_floor (Sample.options (Fin 1%Q) None) 1%Q eq_refl)
    as (_ & _ & A & _).
  destruct (@timeout_floor (Sample.options (Fin 500%Q) None) 500%Q eq_refl)
    as (_ & _ & B & _).
  destruct (@timeout_floor (Sample.options (Fin 2000%Q) None) 2000%Q eq_refl)
    as (_ & _ & _ & C).
  split; [|split].
  - apply A. discriminate.
  - apply B. discriminate.
  - apply C. reflexivity.
Defined.

End RunFacts.

(** ** More on the encoder *)

Module EncoderMore.
Import JS Regex Num Tio Notions Shapes JSFacts EncoderFacts.

Lemma byteLength_bounds (s : jsstring) :
  length s <= byteLength s <= 3 * length s.
Proof.
  remember (length s) as n eqn:Hn.
  revert s Hn; induction n as [n IH] using lt_wf_ind; intros s Hn.
  destruct s as [|c s]; [subst; cbn; lia|].
  cbn [byteLength]. cbn [length] in Hn.
  destruct (is_high c).
  - destruct s as [|d s]; [subst; cbn; lia|].
    cbn [length] in Hn. destruct (is_low d).
    + pose proof (IH (length s) ltac:(lia) s eq_refl). lia.
    + pose proof (IH (length (d :: s)) ltac:(cbn; lia) (d :: s) eq_refl) as B.
      cbn [length] in B. lia.
  - pose proof (IH (length s) ltac:(lia) s eq_refl).
    destruct (c <? 128)%N; [lia|]. destruct (c <? 2048)%N; lia.
Qed.

(** X1. The length written by [encodeLength] lies between the number of
    UTF-16 code units of the value and three times that number, and is 0
    only for the empty value. *)
Theorem encodeLength_bounds (value : jsstring) :
  length value <= encodeLength value <= 3 * length value /\
  (encodeLength value = 0 <-> value = []).
Proof.
  split; [apply byteLength_bounds|].
  pose proof (byteLength_bounds value) as B. unfold encodeLength.
  split.
  - intros E. destruct value; [reflexivity|]. cbn [length] in B. lia.
  - now intros ->.
Qed.

(** Adding characters adds bytes. *)
Lemma byteLength_grows (a x : jsstring) :
  x <> [] -> byteLength a < byteLength (a ++ x).
Proof.
  intros Hx. remember (length a) as n eqn:Hn.
  revert a Hn; induction n as [n IH] using lt_wf_ind; intros a Hn.
  destruct a as [|c a].
  - cbn [app]. pose proof (byteLength_bounds x) as B.
    destruct x; [congruence|]. cbn [length] in B.
    change (byteLength []) with 0. lia.
  - cbn [length] in Hn. cbn [app byteLength].
    destruct (is_high c).
    + destruct a as [|d a].
      * cbn [app]. destruct x as [|d x]; [congruence|].
        pose proof (byteLength_bounds (d :: x)) as B. cbn [length] in B.
        pose proof (byteLength_bounds x) as B'.
        destruct (is_low d); lia.
      * cbn [length] in Hn. cbn [app]. destruct (is_low d).
        -- pose proof (IH (length a) ltac:(lia) a eq_refl). lia.
        -- pose proof (IH (length (d :: a)) ltac:(cbn; lia) (d :: a) eq_refl)
             as B. cbn [app] in B. lia.
    + pose proof (IH (length a) ltac:(lia) a eq_refl).
      destruct (c <? 128)%N; [lia|]. destruct (c <? 2048)%N; lia.
Qed.

End EncoderMore.

(** ** Reading UTF-8 back *)

Module Utf8Facts.
Import JS Regex Num Tio Notions Shapes JSFacts EncoderFacts.

Lemma high_range (c : codeunit) :
  is_high c = true <-> (55296 <= c <= 56319)%N.
Proof.
  unfold is_high. rewrite andb_true_iff, !N.leb_le. tauto.
Qed.

Lemma low_range (c : codeunit) :
  is_low c = true <-> (56320 <= c <= 57343)%N.
Proof.
  unfold is_low. rewrite andb_true_iff, !N.leb_le. tauto.
Qed.

Lemma not_high (c : codeunit) :
  is_high c = false -> (c < 55296 \/ 56319 < c)%N.
Proof.
  unfold is_high. rewrite andb_false_iff, !N.leb_gt. lia.
Qed.

Lemma not_low (c : codeunit) :
  is_low c = false -> (c < 56320 \/ 57343 < c)%N.
Proof.
  unfold is_low. rewrite andb_false_iff, !N.leb_gt. lia.
Qed.

Lemma ltb_false (a b : N) : (b <= a)%N -> (a <? b)%N = false.
Proof. intros. now apply N.ltb_ge. Qed.

Lemma ltb_true (a b : N) : (a < b)%N -> (a <? b)%N = true.
Proof. intros. now apply N.ltb_lt. Qed.

(** Quotients and remainders of a code point by 64, 4096 and 262144. *)
Lemma split64 (c : N) :
  exists q r,
    (c / 64 = q /\ c mod 64 = r /\ c = 64 * q + r /\ r < 64)%N.
Proof.
  exists (c / 64)%N, (c mod 64)%N. split; [reflexivity|].
  split; [reflexivity|]. split; [apply N.div_mod'|]. now apply N.mod_lt.
Qed.

Lemma split4096 (c : N) :
  exists q d r,
    (c / 4096 = q /\ (c / 64) mod 64 = d /\ c mod 64 = r /\
     c = 4096 * q + 64 * d + r /\ d < 64 /\ r < 64)%N.
Proof.
  destruct (split64 c) as (a & r & Ea & Er & S & R).
  destruct (split64 a) as (q & d & Eq & Ed & S' & D).
  exists q, d, r. rewrite Ea.
  pose proof (N.Div0.div_div c 64 64) as E.
  change (64 * 64)%N with 4096%N in E. rewrite Ea, Eq in E.
  split; [now symmetry|]. split; [exact Ed|]. split; [exact Er|].
  split; [lia|]. now split.
Qed.

Lemma split262144 (c : N) :
  exists q f d r,
    (c / 262144 = q /\ (c / 4096) mod 64 = f /\ (c / 64) mod 64 = d /\
     c mod 64 = r /\ c = 262144 * q + 4096 * f + 64 * d + r /\
     f < 64 /\ d < 64 /\ r < 64)%N.
Proof.
  destruct (split4096 c) as (a & d & r & Ea & Ed & Er & S & D & R).
  destruct (split64 a) as (q & f & Eq & Ef & S' & F).
  exists q, f, d, r. rewrite Ea.
  pose proof (N.Div0.div_div c 4096 64) as E.
  change (4096 * 64)%N with 262144%N in E. rewrite Ea, Eq in E.
  split; [now symmetry|]. split; [exact Ef|]. split; [exact Ed|].
  split; [exact Er|]. split; [lia|]. now repeat split.
Qed.

(** Reading back one unit outside the surrogates. *)
Lemma utf8_first_unit (c : codeunit) (rest : bytes) :
  is_high c = false -> is_low c = false -> (c < 65536)%N ->
  utf8_first (utf8_unit c ++ rest) = Some ([c], rest).
Proof.
  intros Hh Hl Hc. unfold utf8_unit.
  destruct (N.ltb_spec c 128) as [A|A].
  - cbn [utf8_1 app utf8_first]. now rewrite (ltb_true A).
  - destruct (N.ltb_spec c 2048) as [B|B].
    + cbn [utf8_2 app utf8_first].
      destruct (split64 c) as (q & r & -> & -> & S & R).
      rewrite ltb_false by lia. rewrite ltb_true by lia.
      do 3 f_equal. lia.
    + rewrite Hh, Hl. cbn [orb utf8_3 app utf8_first].
      destruct (split4096 c) as (q & d & r & -> & -> & -> & S & D & R).
      rewrite ltb_false by lia. rewrite ltb_false by lia.
      rewrite ltb_true by lia.
      do 3 f_equal. lia.
Qed.

Lemma pair_halves (x y : N) :
  (y < 1024)%N ->
  ((x * 1024 + y) / 1024 = x /\ (x * 1024 + y) mod 1024 = y)%N.
Proof.
  intros Hy. split.
  - rewrite N.div_add_l by discriminate. rewrite (N.div_small y) by exact Hy.
    apply N.add_0_r.
  - rewrite N.add_comm, N.Div0.mod_add. now apply N.mod_small.
Qed.

(** Reading back a surrogate pair. *)
Lemma utf8_first_pair (c d : codeunit) (rest : bytes) :
  is_high c = true -> is_low d = true ->
  utf8_first (utf8_4 (pair_codepoint c d) ++ rest) = Some ([c; d], rest).
Proof.
  intros Hh Hl. apply high_range in Hh. apply low_range in Hl.
  assert (P : exists x y,
    (c = 55296 + x /\ d = 56320 + y /\ y < 1024 /\
     pair_codepoint c d = 65536 + (x * 1024 + y))%N).
  { exists (c - 55296)%N, (d - 56320)%N. unfold pair_codepoint.
    repeat split; lia. }
  destruct P as (x & y & Hx & Hy & Ly & P).
  destruct (pair_halves x Ly) as [Q R].
  rewrite P. set (cp := (65536 + (x * 1024 + y))%N).
  cbn [utf8_4 app utf8_first].
  destruct (split262144 cp) as (q & f & e & r & -> & -> & -> & -> & S & B).
  rewrite ltb_false by lia. rewrite ltb_false by lia.
  rewrite ltb_false by lia.
  cbv zeta.
  replace ((240 + q - 240) * 262144 + (128 + f - 128) * 4096
           + (128 + e - 128) * 64 + (128 + r - 128))%N with cp by lia.
  replace (cp - 65536)%N with (x * 1024 + y)%N by (unfold cp; lia).
  rewrite Q, R, Hx, Hy. reflexivity.
Qed.

(** The first character of a well-formed text, read back from its
    bytes. *)
Lemma utf8_first_encode (s : jsstring) :
  well_formed16 s = true -> s <> [] ->
  exists u rest,
    s = u ++ rest /\ length rest < length s /\
    well_formed16 rest = true /\
    utf8_first (utf8_encode s) = Some (u, utf8_encode rest).
Proof.
  destruct s as [|c s]; [congruence|]. intros W _.
  cbn [well_formed16] in W. cbn [utf8_encode].
  destruct (is_high c) eqn:Hh.
  - destruct s as [|d s]; [discriminate|].
    apply andb_true_iff in W as [Hl W]. rewrite Hl.
    exists [c; d], s. split; [reflexivity|]. split; [cbn; lia|].
    split; [exact W|]. now apply utf8_first_pair.
  - apply andb_true_iff in W as [W Ws]. apply andb_true_iff in W as [Hl Hc].
    apply negb_true_iff in Hl. apply N.ltb_lt in Hc.
    exists [c], s. split; [reflexivity|]. split; [cbn; lia|].
    split; [exact Ws|]. now apply utf8_first_unit.
Qed.

(** On well-formed texts the UTF-8 encoding loses nothing. *)
Lemma utf8_encode_inj (s s' : jsstring) :
  well_formed16 s = true -> well_formed16 s' = true ->
  utf8_encode s = utf8_encode s' -> s = s'.
Proof.
  remember (length s) as n eqn:Hn.
  revert s s' Hn; induction n as [n IH] using lt_wf_ind.
  intros s s' Hn W W' E.
  destruct (list_eq_dec N.eq_dec s []) as [Z|Z];
    destruct (list_eq_dec N.eq_dec s' []) as [Z'|Z'].
  - congruence.
  - destruct (utf8_first_encode W' Z') as (u & rest & _ & _ & _ & F).
    rewrite <- E, Z in F. discriminate.
  - destruct (utf8_first_encode W Z) as (u & rest & _ & _ & _ & F).
    rewrite E, Z' in F. discriminate.
  - destruct (utf8_first_encode W Z) as (u & rest & S & L & Wr & F).
    destruct (utf8_first_encode W' Z') as (u' & rest' & S' & _ & Wr' & F').
    rewrite E, F' in F. injection F as Eu Er.
    rewrite S, S', Eu. f_equal.
    apply (IH (length rest)); try assumption; [lia|reflexivity|].
    now symmetry.
Qed.

Lemma well_formed16_app (a b : jsstring) :
  well_formed16 a = true -> well_formed16 b = true ->
  well_formed16 (a ++ b) = true.
Proof.
  intros Wa Wb. remember (length a) as n eqn:Hn.
  revert a Hn Wa; induction n as [n IH] using lt_wf_ind; intros a Hn Wa.
  destruct a as [|c a]; [exact Wb|].
  cbn [well_formed16 app] in *. destruct (is_high c).
  - destruct a as [|d a]; [discriminate|]. cbn [app].
    apply andb_true_iff in Wa as [Hl Wa]. rewrite Hl. cbn [andb].
    apply (IH (length a)); [cbn in Hn; lia|reflexivity|exact Wa].
  - apply andb_true_iff in Wa as [-> Wa]. cbn [andb].
    apply (IH (length a)); [cbn in Hn; lia|reflexivity|exact Wa].
Qed.

Lemma well_formed16_ascii (s : jsstring) :
  forallb (fun c => (c <? 128)%N) s = true -> well_formed16 s = true.
Proof.
  induction s as [|c s IH]; [reflexivity|].
  cbn [forallb well_formed16]. intros H.
  apply andb_true_iff in H as [Hc Hs]. apply N.ltb_lt in Hc.
  assert (Hh : is_high c = false).
  { unfold is_high. apply andb_false_iff. left. apply N.leb_gt. lia. }
  assert (Hl : is_low c = false).
  { unfold is_low. apply andb_false_iff. left. apply N.leb_gt. lia. }
  rewrite Hh, Hl, (IH Hs). cbn [negb andb].
  rewrite andb_true_r. apply N.ltb_lt. lia.
Qed.

Lemma well_formed16_concat (l : list jsstring) :
  forallb well_formed16 l = true -> well_formed16 (concat l) = true.
Proof.
  induction l as [|x l IH]; [reflexivity|].
  cbn [forallb concat]. intros H. apply andb_true_iff in H as [Hx Hl].
  apply well_formed16_app; [exact Hx|now apply IH].
Qed.

Lemma well_formed16_terminated (l : list jsstring) :
  forallb well_formed16 l = true ->
  well_formed16 (concat (map (fun x => x ++ [NUL]) l)) = true.
Proof.
  intros H. apply well_formed16_concat.
  induction l as [|x l IH]; [reflexivity|].
  cbn [forallb map] in *. apply andb_true_iff in H as [Hx Hl].
  rewrite (IH Hl), andb_true_r.
  apply well_formed16_app; [exact Hx|reflexivity].
Qed.

(** The text deflated is well-formed when the texts of the request
    are. *)
Lemma payload_well_formed (code : jsstring) (o : NormalizedOptions) :
  text_request code o -> well_formed16 (payload code o) = true.
Proof.
  intros (Wc & Ws & Wa & Wf & Wl).
  assert (D : forall n, well_formed16 (decimal n) = true).
  { intros n. apply well_formed16_ascii, decimal_ascii. }
  unfold payload, encodeField, join.
  apply well_formed16_concat. cbn [forallb].
  rewrite !D, Wl, !well_formed16_terminated by assumption.
  cbn [andb].
  rewrite !well_formed16_concat; [reflexivity| |];
    cbn [forallb]; rewrite ?D, ?Wc, ?Ws; reflexivity.
Qed.

End Utf8Facts.

(** ** The frame determines the request *)

Module FrameFacts.
Import Utf8Facts.
Import JS Regex Num Tio Notions Shapes JSFacts EncoderFacts EncoderMore.

Lemma nul_split (a a' x x' : jsstring) :
  nul_free a -> nul_free a' ->
  a ++ NUL :: x = a' ++ NUL :: x' -> a = a' /\ x = x'.
Proof.
  unfold nul_free. revert a'; induction a as [|c a IH]; intros [|c' a'];
    cbn [forallb app]; intros Ha Ha' E.
  - now injection E as <-.
  - injection E as <- _. apply andb_true_iff in Ha' as [Hc _]. discriminate.
  - injection E as -> _. apply andb_true_iff in Ha as [Hc _]. discriminate.
  - injection E as <- E. apply andb_true_iff in Ha as [_ Ha].
    apply andb_true_iff in Ha' as [_ Ha'].
    destruct (IH a' Ha Ha' E) as [<- <-]. now split.
Qed.

Lemma uint_chars_nul_free (u : Decimal.uint) : nul_free (uint_chars u).
Proof.
  unfold nul_free.
  induction u; cbn [uint_chars forallb]; try rewrite IHu; reflexivity.
Qed.

Lemma uint_chars_inj (u v : Decimal.uint) :
  uint_chars u = uint_chars v -> u = v.
Proof.
  revert v; induction u; intros v; destruct v; cbn [uint_chars];
    intros E; try reflexivity; try discriminate E;
    injection E as E; f_equal; now apply IHu.
Qed.

Lemma decimal_inj (n m : nat) : decimal n = decimal m -> n = m.
Proof.
  intros E. apply uint_chars_inj in E.
  rewrite <- (DecimalNat.Unsigned.of_to n), <- (DecimalNat.Unsigned.of_to m).
  now rewrite E.
Qed.

Lemma terminated_inj (l l' : list jsstring) (x x' : jsstring) :
  Forall nul_free l -> Forall nul_free l' -> length l = length l' ->
  terminated l ++ x = terminated l' ++ x' -> l = l' /\ x = x'.
Proof.
  unfold terminated. intros Hl; revert l'.
  induction Hl as [|a l Ha Hl IH]; intros [|a' l'] Hl' Hn;
    cbn [length] in Hn; try discriminate Hn.
  - cbn. now intros ->.
  - inversion Hl' as [|? ? Ha' Hl'']; subst.
    cbn [map concat]. repeat (rewrite <- ?app_assoc; cbn [app]).
    intros E. apply nul_split in E as [<- E]; try assumption.
    destruct (IH l' Hl'' ltac:(lia) E) as [<- <-]. now split.
Qed.

Lemma vfield_inj (name : jsstring) (l l' : list jsstring) (x x' : jsstring) :
  Forall nul_free l -> Forall nul_free l' ->
  vfield name l ++ x = vfield name l' ++ x' -> l = l' /\ x = x'.
Proof.
  intros Hl Hl'. unfold vfield.
  repeat (rewrite <- ?app_assoc; cbn [app]).
  intros E. apply app_inv_head in E. injection E as E.
  apply nul_split in E as [En E]; try apply uint_chars_nul_free.
  apply decimal_inj in En. now apply terminated_inj.
Qed.

Lemma same_bytes_same_text (v v' x x' : jsstring) :
  byteLength v = byteLength v' -> v ++ x = v' ++ x' -> v = v' /\ x = x'.
Proof.
  intros Hb E. apply app_eq_app in E as [l [[-> ->]|[-> ->]]].
  - destruct l as [|c l]; [now rewrite app_nil_r|].
    pose proof (@byteLength_grows v' (c :: l) ltac:(discriminate)). lia.
  - destruct l as [|c l]; [now rewrite app_nil_r|].
    pose proof (@byteLength_grows v (c :: l) ltac:(discriminate)). lia.
Qed.

Lemma encodeField_inj (name v v' x x' : jsstring) :
  encodeField name v ++ x = encodeField name v' ++ x' -> v = v' /\ x = x'.
Proof.
  unfold encodeField, encodeLength. cbn [concat].
  repeat (rewrite <- ?app_assoc; cbn [app]).
  intros E. apply app_inv_head in E. injection E as E.
  apply nul_split in E as [En E]; try apply uint_chars_nul_free.
  apply decimal_inj in En. now apply same_bytes_same_text.
Qed.

Lemma payload_determines_request (code code' : jsstring)
    (o o' : NormalizedOptions) :
  plain_options o -> plain_options o' ->
  payload code o = payload code' o' -> same_request code code' o o'.
Proof.
  intros (Ha & Hc & Hl) (Ha' & Hc' & Hl'). rewrite !payload_layout.
  intros E.
  destruct (@vfield_inj _ _ _ _ _ Ha Ha' E) as [Ea E1].
  assert (Hs : Forall nul_free [language o]) by now repeat constructor.
  assert (Hs' : Forall nul_free [language o']) by now repeat constructor.
  destruct (@vfield_inj _ _ _ _ _ Hs Hs' E1) as [El E2].
  destruct (@vfield_inj _ _ _ _ _ Hc Hc' E2) as [Ec E3].
  destruct (@vfield_inj _ _ _ _ _ (Forall_nil _) (Forall_nil _) E3) as [_ E4].
  destruct (@encodeField_inj _ _ _ _ _ E4) as [Ecode E5].
  destruct (@encodeField_inj _ _ _ _ _ E5) as [Estdin _].
  injection El as El. unfold same_request. now repeat split.
Qed.

(** The bytes deflated. *)
Lemma payload_bytes (code : jsstring) (o : NormalizedOptions) :
  utf8_encode (payload code o) =
    lit "Vargs" ++ NUL :: decimal (length (argv o)) ++ NUL ::
      concat (map (fun x => utf8_encode x ++ [NUL]) (argv o))
    ++ lit "Vlang" ++ NUL :: lit "1" ++ NUL ::
      utf8_encode (language o) ++ [NUL]
    ++ lit "VTIO_CFLAGS" ++ NUL :: decimal (length (cflags o)) ++ NUL ::
      concat (map (fun x => utf8_encode x ++ [NUL]) (cflags o))
    ++ lit "VTIO_OPTIONS" ++ NUL :: lit "0" ++ [NUL]
    ++ ffield_bytes (lit "F.code.tio") code
    ++ ffield_bytes (lit "F.input.tio") (stdin o)
    ++ lit "R".
Proof.
  rewrite payload_layout.
  rewrite vfield_bytes by reflexivity.
  rewrite vfield_bytes by reflexivity.
  rewrite vfield_bytes by reflexivity.
  rewrite vfield_bytes by reflexivity.
  rewrite encodeField_bytes by reflexivity.
  rewrite encodeField_bytes by reflexivity.
  cbn [map concat length].
  repeat (rewrite <- ?app_assoc; cbn [app]). reflexivity.
Qed.

(** X2. The frame determines the request. When deflating loses nothing
    (it can be inflated again), the texts of both requests are well-formed
    UTF-16 and no argument, flag or language token contains NUL, two
    requests for which [buildRequestBody] gives the same bytes have the
    same source code, input, arguments, flags and language. Neither
    condition on the texts can be dropped: the argument lists
    [a NUL b; c] and [a; b NUL c] give the same bytes, and so do a source
    that is a lone surrogate and one that is U+FFFD. *)
Theorem frame_determines_request `{Runtime} (code code' : jsstring)
    (o o' : NormalizedOptions) :
  ((forall b b', deflateRawSync b = deflateRawSync b' -> b = b') ->
   plain_options o -> plain_options o' ->
   text_request code o -> text_request code' o' ->
   buildRequestBody code o = buildRequestBody code' o' ->
   same_request code code' o o') /\
  (forall lang input,
     buildRequestBody code
       {| language := lang; stdin := input; timeout := NaN;
          argv := [lit "a" ++ NUL :: lit "b"; lit "c"];
          cflags := []; signal := None |} =
     buildRequestBody code
       {| language := lang; stdin := input; timeout := NaN;
          argv := [lit "a"; lit "b" ++ NUL :: lit "c"];
          cflags := []; signal := None |}) /\
  buildRequestBody [55296%N] o = buildRequestBody [65533%N] o.
Proof.
  split; [|split].
  - intros I P P' T T' E. unfold buildRequestBody in E. apply I in E.
    apply utf8_encode_inj in E; try now apply payload_well_formed.
    now apply payload_determines_request.
  - reflexivity.
  - unfold buildRequestBody. f_equal. rewrite !payload_bytes. reflexivity.
Qed.

Lemma frame_determines_request_witness :
  @buildRequestBody Sample.stored (lit "print(1)")
    (normalize (Sample.options (Fin 1000%Q) None)) <>
  @buildRequestBody Sample.stored (lit "print(2)")
    (normalize (Sample.options (Fin 2000%Q) Sample.pending)).
Proof.
  intros E.
  destruct (proj1 (@frame_determines_request Sample.stored
                     (lit "print(1)") (lit "print(2)")
                     (normalize (Sample.options (Fin 1000%Q) None))
                     (normalize (Sample.options (Fin 2000%Q)
                                   Sample.pending)))
              (fun b b' X => X)
              ltac:(repeat split; repeat constructor)
              ltac:(repeat split; repeat constructor)
              ltac:(repeat split; reflexivity)
              ltac:(repeat split; reflexivity) E) as [C _].
  discriminate C.
Defined.

End FrameFacts.

(** ** More on resolution and on the requests of a call *)

Module RequestFacts.
Import JS Regex Num Tio Notions Shapes JSFacts RegexFacts CacheFacts.
Import TransportFacts GrammarFacts DecoderFacts RunFacts.

Lemma SCRIPT_at_shape (s g : jsstring) :
  SCRIPT_at s = Some g -> frontend_path g.
Proof.
  unfold SCRIPT_at, obind.
  destruct (expect _ s) as [s1|]; [|discriminate].
  destruct (expect _ s1) as [s2|]; [|discriminate].
  destruct (plus is_hex s2) as [[h s3]|] eqn:P; [|discriminate].
  destruct (expect _ s3) as [s4|]; [|discriminate].
  destruct (expect _ s4) as [s5|]; [|discriminate].
  intros [= <-]. apply plus_sound in P as (_ & N & F & _).
  now exists h.
Qed.

Lemma SCRIPT_REGEX_shape (s g : jsstring) :
  SCRIPT_REGEX s = Some g -> frontend_path g.
Proof.
  induction s as [|c s IH]; cbn [SCRIPT_REGEX].
  - destruct (SCRIPT_at []) eqn:E; [|discriminate].
    intros [= <-]. eapply SCRIPT_at_shape, E.
  - destruct (SCRIPT_at (c :: s)) eqn:E; [|exact IH].
    intros [= <-]. eapply SCRIPT_at_shape, E.
Qed.

Lemma RUN_URL_at_shape (s g : jsstring) :
  RUN_URL_at s = Some g -> endpoint_text g.
Proof.
  unfold RUN_URL_at, obind.
  destruct (expect _ s) as [s1|]; [|discriminate].
  destruct (plus not_dquote s1) as [[r t]|] eqn:E; [|discriminate].
  destruct (expect _ t) as [s3|]; [|discriminate].
  destruct (at_eol s3); [|discriminate].
  intros [= <-]. apply plus_sound in E as (_ & N & F & _). now split.
Qed.

Lemma RUN_URL_search_shape (b : bool) (s g : jsstring) :
  RUN_URL_search b s = Some g -> endpoint_text g.
Proof.
  revert b; induction s as [|c s IH]; intros b; cbn [RUN_URL_search].
  - destruct b; [|discriminate].
    destruct (RUN_URL_at []) eqn:E; [|discriminate].
    intros [= <-]. eapply RUN_URL_at_shape, E.
  - destruct b.
    + destruct (RUN_URL_at (c :: s)) eqn:E; [|apply IH].
      intros [= <-]. eapply RUN_URL_at_shape, E.
    + apply IH.
Qed.

Lemma truthy_inv (o : option jsstring) (g : jsstring) :
  truthy o = Some g -> o = Some g.
Proof. destruct o as [[|c s]|]; cbn; congruence. Qed.

(** Every way [resolve] can end. *)
Lemma resolve_cases (e : env) (c : cache) :
  (exists err, value (resolve e c) = inl err /\ final (resolve e c) = c /\
     trace (resolve e c) = [GET landing_url]) \/
  (exists p, frontend_path p /\
     trace (resolve e c) = [GET landing_url; GET (TIO_BASE_URL ++ p)] /\
     ((exists err, value (resolve e c) = inl err /\ final (resolve e c) = c) \/
      (exists u, endpoint_text u /\ value (resolve e c) = inr tt /\
         final (resolve e c) =
           {| runUrl := Some u;
              nextRefreshAt := now_store e + RUN_URL_REFRESH_MS |}))).
Proof.
  unfold resolve.
  destruct (fetchText_run e (lit "/") c) as (Hf & Ht & _).
  fold landing_url in Ht.
  destruct (value (fetchText e (lit "/") c)) as [x|html] eqn:E.
  - left. rewrite (bind_inl _ _ _ E). cbn [value final trace]. eauto.
  - rewrite (bind_inr _ _ _ E), Hf, Ht. cbn [value final trace].
    destruct (truthy (SCRIPT_REGEX html)) as [path|] eqn:T.
    + right. apply truthy_inv, SCRIPT_REGEX_shape in T. exists path.
      split; [exact T|].
      destruct (fetchText_run e path c) as (Hf' & Ht' & _).
      destruct (value (fetchText e path c)) as [x|script] eqn:E'.
      * rewrite (bind_inl _ _ _ E'). cbn [value final trace].
        rewrite Ht', Hf'. split; [reflexivity|]. left. eauto.
      * rewrite (bind_inr _ _ _ E'), Hf', Ht'. cbn [value final trace].
        destruct (truthy (RUN_URL_REGEX script)) as [u|] eqn:U.
        -- apply truthy_inv, RUN_URL_search_shape in U.
           split; [reflexivity|]. right. exists u.
           split; [exact U|]. split; reflexivity.
        -- split; [reflexivity|]. left. cbn. eauto.
    + left. cbn. eauto.
Qed.

Lemma ensureRunUrl_requests (e : env) (c : cache) :
  discovery_trace (trace (ensureRunUrl e c)).
Proof.
  destruct (fresh_or_stale e c) as [Hf|Hs].
  - rewrite (ensureRunUrl_fresh Hf). now left.
  - rewrite (ensureRunUrl_stale Hs).
    destruct (resolve_cases e c) as [(err & _ & _ & T)|(p & Hp & T & _)];
      rewrite T; [right; now left|right; right; eauto].
Qed.

Lemma ensureRunUrl_holds (e : env) (c : cache) :
  value (ensureRunUrl e c) = inr tt ->
  exists u, runUrl (final (ensureRunUrl e c)) = Some u.
Proof.
  destruct (fresh_or_stale e c) as [Hf|Hs].
  - rewrite (ensureRunUrl_fresh Hf). intros _. exact (proj1 Hf).
  - rewrite (ensureRunUrl_stale Hs).
    destruct (resolve_cases e c)
      as [(err & V & _)|(p & _ & _ & [(err & V & _)|(u & _ & _ & F)])].
    + rewrite V. discriminate.
    + rewrite V. discriminate.
    + intros _. exists u. now rewrite F.
Qed.

(** X3. What [ensureRunUrl] leaves behind: it makes no request, or fetches
    the landing page, or the landing page and then a script whose path has
    the form /static/<hex>-frontend.js, and nothing else; when it
    succeeds the cache holds an endpoint, unchanged if the cache was
    fresh, and otherwise a non-empty text without double quote, due for
    refresh 850000 ms after the resolution. *)
Theorem ensureRunUrl_postcondition (e : env) (c : cache) :
  discovery_trace (trace (ensureRunUrl e c)) /\
  (value (ensureRunUrl e c) = inr tt ->
   exists u, runUrl (final (ensureRunUrl e c)) = Some u /\
     (fresh e c -> final (ensureRunUrl e c) = c) /\
     (stale e c -> endpoint_text u /\
        nextRefreshAt (final (ensureRunUrl e c)) =
          (now_store e + RUN_URL_REFRESH_MS)%Z)).
Proof.
  destruct (fresh_or_stale e c) as [Hf|Hs].
  - rewrite (ensureRunUrl_fresh Hf). cbn [value final trace].
    split; [now left|]. intros _. destruct Hf as [[u Hu] Ht]. exists u.
    split; [exact Hu|]. split; [reflexivity|].
    intros [Hn|Hn]; [congruence|lia].
  - rewrite (ensureRunUrl_stale Hs).
    destruct (resolve_cases e c)
      as [(err & V & F & T)|(p & Hp & T & [(err & V & F)|(u & Hu & V & F)])].
    + rewrite T, V. split; [right; now left|discriminate].
    + rewrite T, V. split; [right; right; eauto|discriminate].
    + rewrite T, V, F. split; [right; right; eauto|].
      intros _. exists u. split; [reflexivity|]. split.
      * intros [[u' Hu'] Ht]. destruct Hs as [Hn|Hn]; [congruence|lia].
      * intros _. now split.
Qed.

Lemma ensureRunUrl_postcondition_witness :
  exists u,
    runUrl (final (ensureRunUrl (Sample.world 100 Sample.site []) initial)) =
      Some u /\ endpoint_text u.
Proof.
  destruct (ensureRunUrl_postcondition (Sample.world 100 Sample.site [])
              initial) as [_ P].
  destruct (P ltac:(vm_compute; reflexivity)) as (u & Hu & _ & S).
  exists u. split; [exact Hu|]. apply S. now left.
Defined.

(** X10. A POST that nothing aborts: when neither the timer nor the
    caller's signal fires, the outcome is that of the network alone: the
    data of a successful reply, an [Error] naming status and status text
    for any other status, and a fault of [fetch] or of the body passed on
    unchanged, even one that calls itself [AbortError]. The cache is not
    touched and exactly one POST is sent. *)
Theorem unaborted_post (e : env) (body : bytes) (o : NormalizedOptions)
    (c : cache) :
  pre_aborted (signal o) = false ->
  ~ timer_fired e o -> ~ signal_fired e o ->
  executeRequest e body o c =
    {| value :=
         match reply_post e (post_url e c) body with
         | inl f => inl (Raised f)
         | inr r =>
             if ok r then
               match content r with
               | inl f => inl (Raised f)
               | inr data => inr {| buffer := Some data; t_timedOut := false |}
               end
             else inl (Error (concat [lit "tio.run responded with ";
                                      decimal (status r); lit " ";
                                      statusText r]))
         end;
       final := c;
       trace := [POST (post_url e c) body] |}.
Proof.
  intros Hp Nt Ns. rewrite (@executeRequest_run e body o c Hp).
  fold (flown e o). f_equal.
  assert (Ft : f_timedOut (flown e o) = false).
  { destruct (f_timedOut (flown e o)) eqn:X; [|reflexivity].
    now apply flight_timedOut in X. }
  assert (Fs : f_signal (flown e o) = false).
  { destruct (f_signal (flown e o)) eqn:X; [|reflexivity].
    now apply flight_signal in X. }
  pose proof (flight_attributed e o) as Fc. unfold attributed in Fc.
  rewrite Ft, Fs in Fc. cbn in Fc.
  unfold attempt. rewrite Fc.
  destruct (reply_post e (post_url e c) body) as [f|r].
  - unfold classify. rewrite Ft, Fs. now destruct (str_eqb _ _).
  - destruct (ok r); cbn [negb].
    + destruct (content r) as [f|data]; cbn [raised]; [|reflexivity].
      unfold classify. rewrite Ft, Fs. now destruct (str_eqb _ _).
    + reflexivity.
Qed.

Lemma unaborted_post_witness :
  value (executeRequest (Sample.world 100 Sample.site []) []
           (normalize (Sample.options (Fin 1%Q) Sample.pending)) Sample.warm)
  = inl (Error (lit "tio.run responded with 404 Not Found")).
Proof.
  rewrite (@unaborted_post (Sample.world 100 Sample.site []) []
             (normalize (Sample.options (Fin 1%Q) Sample.pending))
             Sample.warm eq_refl).
  - reflexivity.
  - intros [_ []].
  - intros [_ []].
Defined.

Section Requests.
Context `{Runtime}.
Variables (e : env) (code : jsstring) (o : TioRunOptions) (c : cache).

(** The whole outcome of a call that reaches the POST. *)
Lemma runOnTio_after_post :
  value (ensureRunUrl e c) = inr tt ->
  pre_aborted (o_signal o) = false ->
  final (runOnTio e code o c) = final (ensureRunUrl e c) /\
  trace (runOnTio e code o c) =
    trace (ensureRunUrl e c) ++
    [POST (post_url e (final (ensureRunUrl e c)))
       (buildRequestBody code (normalize o))].
Proof.
  intros E Hp. unfold runOnTio. rewrite (bind_inr _ _ _ E).
  cbn [final trace].
  set (c' := final (ensureRunUrl e c)).
  pose proof (@executeRequest_run e (buildRequestBody code (normalize o))
                (normalize o) c' Hp) as X. cbv zeta in X.
  destruct (value (executeRequest e (buildRequestBody code (normalize o))
                     (normalize o) c')) as [err|r] eqn:V.
  - rewrite (bind_inl _ _ _ V). cbn [final trace]. now rewrite X.
  - rewrite (bind_inr _ _ _ V). cbn [final trace]. rewrite X.
    cbn [final trace].
    destruct (buffer r) as [data|].
    + unfold bind, lift, raised.
      destruct (gunzipSync data) as [x|raw]; cbn [throw ret value final trace];
        [now rewrite app_nil_r|].
      destruct (decode _ _); cbn [throw ret value final trace];
        now rewrite !app_nil_r.
    + cbn [ret final trace]. now rewrite app_nil_r.
Qed.

Lemma runOnTio_value_inr (r : TioResponse) :
  value (runOnTio e code o c) = inr r ->
  value (ensureRunUrl e c) = inr tt /\ pre_aborted (o_signal o) = false.
Proof.
  intros V. destruct (value (ensureRunUrl e c)) as [err|[]] eqn:E.
  - rewrite (@runOnTio_unresolved _ e code o c _ E) in V. discriminate.
  - split; [reflexivity|].
    destruct (pre_aborted (o_signal o)) eqn:Hp; [|reflexivity].
    rewrite (@runOnTio_pre_aborted _ e code o c Hp), E in V. discriminate.
Qed.

(** X4. The requests of one call of [runOnTio]: those of the endpoint
    resolution, followed by at most one POST. A POST is sent exactly when
    the resolution succeeded and the caller's signal was not aborted
    beforehand; it then comes last, goes to the base address,
    [/cgi-bin/static/], the endpoint held by the cache (never the text
    null), a slash and the random suffix, and carries the deflated frame
    of the normalized request. When no POST is sent the call raises and
    its requests are those of the resolution. Whatever happens, the cache
    after the call is the cache after the resolution. *)
Theorem request_discipline :
  final (runOnTio e code o c) = final (ensureRunUrl e c) /\
  discovery_trace (trace (ensureRunUrl e c)) /\
  (existsb is_post (trace (runOnTio e code o c)) = true <->
   value (ensureRunUrl e c) = inr tt /\ pre_aborted (o_signal o) = false) /\
  (value (ensureRunUrl e c) = inr tt -> pre_aborted (o_signal o) = false ->
   exists u,
     runUrl (final (ensureRunUrl e c)) = Some u /\
     trace (runOnTio e code o c) =
       trace (ensureRunUrl e c) ++
       [POST (concat [TIO_BASE_URL; lit "/cgi-bin/static/"; u; lit "/";
                      randomHex e])
          (buildRequestBody code (normalize o))]) /\
  (existsb is_post (trace (runOnTio e code o c)) = false ->
   (exists err, value (runOnTio e code o c) = inl err) /\
   trace (runOnTio e code o c) = trace (ensureRunUrl e c)).
Proof.
  pose proof (ensureRunUrl_requests e c) as D.
  pose proof (@ensureRunUrl_holds e c) as P.
  pose proof (ensureRunUrl_trace e c) as N.
  destruct (value (ensureRunUrl e c)) as [err|[]] eqn:E.
  - rewrite (@runOnTio_unresolved _ e code o c _ E). cbn [value final trace].
    split; [reflexivity|]. split; [exact D|]. rewrite N.
    split; [split; [discriminate|intros [X _]; discriminate]|].
    split; [discriminate|]. intros _. split; [eauto|reflexivity].
  - destruct (pre_aborted (o_signal o)) eqn:Hp.
    + rewrite (@runOnTio_pre_aborted _ e code o c Hp), E.
      cbn [value final trace].
      split; [reflexivity|]. split; [exact D|]. rewrite N.
      split; [split; [discriminate|intros [_ X]; discriminate]|].
      split; [discriminate|]. intros _. split; [eauto|reflexivity].
    + destruct (runOnTio_after_post E Hp) as [F T].
      split; [exact F|]. split; [exact D|].
      assert (X : existsb is_post (trace (runOnTio e code o c)) = true).
      { rewrite T, existsb_app, N. reflexivity. }
      rewrite X.
      split; [split; [now split|reflexivity]|].
      split; [|discriminate]. intros _ _.
      destruct (P eq_refl) as (u & Hu). exists u.
      split; [exact Hu|]. rewrite T. unfold post_url. now rewrite Hu.
Qed.

(** X5. A requested timeout that is [NaN] or [+Infinity] starts no timer:
    such a call never yields the timed-out marker and never returns a
    result with [timedOut] set, whatever time the server takes. *)
Theorem untimed_call (r : TioResponse) :
  o_timeout o = NaN \/ o_timeout o = PosInf ->
  armed (normalize o) = false /\
  (value (runOnTio e code o c) = inr r -> timedOut r = false) /\
  value (executeRequest e (buildRequestBody code (normalize o))
           (normalize o) (final (ensureRunUrl e c))) <>
    inr {| buffer := None; t_timedOut := true |}.
Proof.
  intros Ht.
  assert (A : armed (normalize o) = false).
  { unfold armed, normalize. cbn [timeout]. now destruct Ht as [-> | ->]. }
  assert (N : ~ timer_fired e (normalize o)).
  { intros [X _]. congruence. }
  split; [exact A|]. split.
  - intros V. destruct (runOnTio_value_inr V) as [E Hp].
    destruct (@runOnTio_returns _ e code o c r E Hp V)
      as [[T _]|(_ & data & raw & _ & _ & D)];
      [contradiction|].
    apply decode_inr in D as (_ & m & _ & ->). reflexivity.
  - intros X. destruct (pre_aborted (o_signal o)) eqn:Hp.
    + rewrite (@executeRequest_pre_aborted e _ (normalize o) _ Hp) in X.
      discriminate.
    + now apply (@executeRequest_marker e _ (normalize o) _ Hp) in X.
Qed.
End Requests.

Lemma request_discipline_witness :
  existsb is_post
    (trace (@runOnTio Sample.stored
              (Sample.serving 100 Sample.site [] (lit "too short"))
              Sample.source (Sample.options (Fin 1%Q) Sample.pending)
              initial)) = true /\
  existsb is_post
    (trace (@runOnTio Sample.stored
              (Sample.serving 100 Sample.down [] (lit "too short"))
              Sample.source (Sample.options (Fin 1%Q) Sample.pending)
              initial)) = false.
Proof.
  split.
  - apply (@request_discipline Sample.stored
             (Sample.serving 100 Sample.site [] (lit "too short"))
             Sample.source (Sample.options (Fin 1%Q) Sample.pending)
             initial).
    split; [vm_compute; reflexivity|reflexivity].
  - destruct (@request_discipline Sample.stored
                (Sample.serving 100 Sample.down [] (lit "too short"))
                Sample.source (Sample.options (Fin 1%Q) Sample.pending)
                initial) as (_ & _ & P & _).
    destruct (existsb is_post _) eqn:X; [|reflexivity].
    destruct (proj1 P eq_refl) as [V _]. vm_compute in V. discriminate V.
Defined.

Lemma untimed_call_witness :
  exists r,
    value (@runOnTio Sample.stored
             (Sample.serving 100 Sample.site [TimerFires]
                (Sample.delimiter ++ lit "hello" ++ Sample.delimiter
                 ++ Sample.diag))
             Sample.source (Sample.options NaN Sample.pending) initial)
      = inr r /\ timedOut r = false.
Proof.
  eexists. split; [vm_compute; reflexivity|].
  eapply (@untimed_call Sample.stored
            (Sample.serving 100 Sample.site [TimerFires]
               (Sample.delimiter ++ lit "hello" ++ Sample.delimiter
                ++ Sample.diag))
            Sample.source (Sample.options NaN Sample.pending) initial).
  - now left.
  - vm_compute; reflexivity.
Defined.

End RequestFacts.

(** ** More on the decoder *)

Module DecoderMore.
Import JS Regex Num Tio Notions Shapes JSFacts RegexFacts GrammarFacts.
Import NumFacts DecoderFacts.

(** *** Occurrences and segments *)

Lemma startsWith_app_r (p a b : jsstring) :
  startsWith p a = true -> startsWith p (a ++ b) = true.
Proof.
  revert a; induction p as [|x p IH]; intros [|y a]; cbn [startsWith app];
    try reflexivity; try discriminate.
  intros E. apply andb_true_iff in E as [E1 E2].
  rewrite E1. cbn. now apply IH.
Qed.

Lemma indexOf_nil (sep : jsstring) : sep <> [] -> indexOf sep [] = None.
Proof. destruct sep; [congruence|reflexivity]. Qed.

Lemma indexOf_absent_prefix (sep a b : jsstring) :
  indexOf sep (a ++ b) = None -> indexOf sep a = None.
Proof.
  induction a as [|c a IH]; cbn [app].
  - intros E. destruct sep as [|x sep]; [|reflexivity].
    destruct b; discriminate E.
  - intros E. apply indexOf_cons_None in E as [E1 E2].
    cbn [indexOf].
    destruct (startsWith sep (c :: a)) eqn:S.
    + apply (startsWith_app_r _ _ b) in S. cbn [app] in S. congruence.
    + now rewrite (IH E2).
Qed.

Lemma indexOf_before (sep s : jsstring) (i : nat) :
  sep <> [] -> indexOf sep s = Some i -> indexOf sep (firstn i s) = None.
Proof.
  intros Hs. revert i; induction s as [|c s IH]; intros i;
    cbn [indexOf].
  - destruct (startsWith sep []); intros E; [|discriminate].
    injection E as <-. now apply indexOf_nil.
  - destruct (startsWith sep (c :: s)) eqn:S.
    + intros [= <-]. now apply indexOf_nil.
    + destruct (indexOf sep s) as [j|] eqn:J; [|discriminate].
      intros [= <-]. cbn [firstn indexOf].
      destruct (startsWith sep (c :: firstn j s)) eqn:S'.
      * apply (startsWith_app_r _ _ (skipn j s)) in S'. cbn [app] in S'.
        rewrite firstn_skipn in S'. congruence.
      * now rewrite (IH j eq_refl).
Qed.

Lemma indexOf_found (sep s : jsstring) (i : nat) :
  indexOf sep s = Some i ->
  s = firstn i s ++ sep ++ skipn (i + length sep) s.
Proof.
  revert i; induction s as [|c s IH]; intros i; cbn [indexOf].
  - destruct (startsWith sep []) eqn:S; [|discriminate].
    intros [= <-]. destruct sep; [reflexivity|discriminate].
  - destruct (startsWith sep (c :: s)) eqn:S.
    + intros [= <-]. cbn [firstn app Nat.add]. now apply startsWith_split.
    + destruct (indexOf sep s) as [j|] eqn:J; [|discriminate].
      intros [= <-]. cbn [firstn app Nat.add skipn]. f_equal. now apply IH.
Qed.

Lemma split_go_nonempty (sep : jsstring) (k : nat) (acc s : jsstring) :
  split_go sep k acc s <> [].
Proof.
  revert k acc; induction s as [|c s IH]; intros k acc; cbn [split_go].
  - discriminate.
  - destruct k; [|apply IH]. destruct (startsWith sep (c :: s));
      [discriminate|apply IH].
Qed.

Lemma join_with_cons (sep x : jsstring) (l : list jsstring) :
  l <> [] -> join_with sep (x :: l) = x ++ sep ++ join_with sep l.
Proof. destruct l; [congruence|reflexivity]. Qed.

Lemma split_segments (sep : jsstring) (n : nat) (s : jsstring) :
  sep <> [] -> length s <= n ->
  Forall (fun seg => indexOf sep seg = None) (split_go sep 0 [] s) /\
  join_with sep (split_go sep 0 [] s) = s.
Proof.
  intros Hs. revert s; induction n as [|n IH]; intros s Hn.
  - destruct s; [|cbn in Hn; lia]. cbn.
    split; [|reflexivity]. constructor; [now apply indexOf_nil|constructor].
  - destruct (indexOf sep s) as [i|] eqn:I.
    + rewrite (split_go_present [] _ Hs I). cbn [rev app].
      pose proof (indexOf_found _ _ I) as F.
      assert (L : length (skipn (i + length sep) s) <= n).
      { rewrite length_skipn. destruct sep; [congruence|]. cbn [length].
        lia. }
      destruct (IH _ L) as [A J]. split.
      * constructor; [now apply indexOf_before|exact A].
      * rewrite join_with_cons by apply split_go_nonempty.
        now rewrite J, <- F.
    + rewrite (split_go_absent _ [] _ I). cbn [rev app].
      split; [now repeat constructor|reflexivity].
Qed.

(** X6. For a non-empty decompressed text the decoder always gets at least
    one segment, no segment contains the delimiter, and the segments joined
    by the delimiter give back the text after the delimiter: nothing is
    lost or invented by the split. *)
Theorem sections_partition (content : jsstring) :
  content <> [] ->
  let delimiter := substring_to 16 content in
  let sections := split (substring_from 16 content) delimiter in
  sections <> [] /\
  Forall (fun seg => indexOf delimiter seg = None) sections /\
  join_with delimiter sections = substring_from 16 content.
Proof.
  intros Hc delimiter sections.
  assert (Hd : delimiter <> []).
  { unfold delimiter, substring_to. destruct content; [congruence|].
    discriminate. }
  unfold sections. rewrite split_nonempty by exact Hd.
  split; [apply split_go_nonempty|].
  now apply (@split_segments delimiter (length (substring_from 16 content))).
Qed.

Lemma sections_partition_witness :
  join_with Sample.delimiter
    (split (lit "hello" ++ Sample.delimiter ++ Sample.diag) Sample.delimiter)
  = lit "hello" ++ Sample.delimiter ++ Sample.diag.
Proof.
  apply (@sections_partition
           (Sample.delimiter ++ lit "hello" ++ Sample.delimiter
            ++ Sample.diag)).
  discriminate.
Defined.

(** *** The metric lines are found in one way only *)

Lemma count_R_app (a b : jsstring) : count_R (a ++ b) = count_R a + count_R b.
Proof. apply count_occ_app. Qed.

Lemma count_R_other (c : codeunit) (s : jsstring) :
  c <> letter_R -> count_R (c :: s) = count_R s.
Proof. intros N. now apply count_occ_cons_neq. Qed.

Lemma count_R_head (s : jsstring) : count_R (letter_R :: s) = S (count_R s).
Proof. now apply count_occ_cons_eq. Qed.

Lemma count_R_numeric (s : jsstring) :
  forallb is_digit_or_dot s = true -> count_R s = 0.
Proof.
  induction s as [|c s IH]; [reflexivity|].
  cbn [forallb]. intros E. apply andb_true_iff in E as [Ec Es].
  rewrite count_R_other; [now apply IH|]. intros ->. discriminate Ec.
Qed.

Lemma digit_is_numeric (s : jsstring) :
  forallb is_digit s = true -> forallb is_digit_or_dot s = true.
Proof.
  induction s as [|c s IH]; [reflexivity|].
  cbn [forallb]. intros E. apply andb_true_iff in E as [Ec Es].
  unfold is_digit_or_dot. rewrite Ec. cbn. now apply IH.
Qed.

Lemma count_R_metric_lines (m : groups) :
  well_formed m -> count_R (metric_lines m) = 1.
Proof.
  intros ([_ F1] & [_ F2] & [_ F3] & [_ F4] & [_ F5]).
  apply digit_is_numeric in F5. unfold metric_lines.
  repeat (rewrite ?count_R_app, ?count_R_other by discriminate).
  rewrite (count_R_numeric _ F1), (count_R_numeric _ F2),
    (count_R_numeric _ F3), (count_R_numeric _ F4), (count_R_numeric _ F5).
  reflexivity.
Qed.

Lemma metric_lines_head (m : groups) :
  exists t, metric_lines m = letter_R :: t.
Proof. unfold metric_lines. cbn. eauto. Qed.

(** A text with one R, at its head, does not occur later in another. *)
Lemma one_R_no_shift (l a b : jsstring) :
  count_R a = 1 -> count_R b = 1 ->
  (exists t, a = letter_R :: t) -> (exists t, b = letter_R :: t) ->
  a = l ++ b -> l = [].
Proof.
  intros Ca Cb [t T] [t' T'] E. destruct l as [|x l]; [reflexivity|].
  rewrite E in Ca. rewrite T, T' in E. cbn [app] in E.
  injection E as <- _. cbn [app] in Ca.
  rewrite count_R_head, count_R_app in Ca. lia.
Qed.

Lemma metric_lines_unique (d d' : jsstring) (m m' : groups) :
  well_formed m -> well_formed m' ->
  d ++ metric_lines m = d' ++ metric_lines m' ->
  d = d' /\ metric_lines m = metric_lines m'.
Proof.
  intros W W' E.
  pose proof (count_R_metric_lines W) as C.
  pose proof (count_R_metric_lines W') as C'.
  apply app_eq_app in E as [l [[-> E]|[-> E]]].
  - pose proof (one_R_no_shift l C' C (metric_lines_head m')
                  (metric_lines_head m) E) as ->.
    cbn [app] in E. rewrite app_nil_r. now split.
  - pose proof (one_R_no_shift l C C' (metric_lines_head m)
                  (metric_lines_head m') E) as ->.
    cbn [app] in E. rewrite app_nil_r. now split.
Qed.

Lemma DEBUG_REGEX_exact (m : groups) :
  well_formed m -> DEBUG_REGEX (g_debug m ++ metric_lines m) = Some m.
Proof.
  intros W.
  destruct (DEBUG_from_complete [] (g_debug m) W) as [m' E].
  unfold DEBUG_REGEX. rewrite E. f_equal.
  destruct (DEBUG_from_sound _ _ E) as [W' S]. cbn [rev app] in S.
  destruct (metric_lines_unique _ _ W W' S) as [Hd Hm].
  pose proof (metrics_complete [] W) as M.
  pose proof (metrics_complete [] W') as M'.
  rewrite Hm, M' in M. injection M as E1 E2 E3 E4 E5.
  destruct m, m'. cbn in *. congruence.
Qed.

(** X7. Matching is the inverse of writing: the pattern applied to a text
    returns a capture and five numbers exactly when the numbers have the
    right shape and the text is the capture followed by the five metric
    lines written from them. So the lines written from any capture and any
    five such numbers are read back as they were, even when the capture
    itself contains metric lines (the last block wins). *)
Theorem DEBUG_REGEX_round_trip (s : jsstring) (m : groups) :
  DEBUG_REGEX s = Some m <->
  well_formed m /\ s = g_debug m ++ metric_lines m.
Proof.
  split; [apply DEBUG_REGEX_sound|].
  intros [W ->]. now apply DEBUG_REGEX_exact.
Qed.

Lemma DEBUG_REGEX_round_trip_witness :
  DEBUG_REGEX (lit "note: Real time: 9 s" ++ LF :: lit "Real time: 1.5 s"
               ++ LF :: lit "User time: 1 s" ++ LF :: lit "Sys. time: .5 s"
               ++ LF :: lit "CPU share: 99.9 %" ++ LF :: lit "Exit code: 3")
  = Some {| g_debug := lit "note: Real time: 9 s" ++ [LF];
            g_realTime := lit "1.5"; g_userTime := lit "1";
            g_sysTime := lit ".5"; g_CPUshare := lit "99.9";
            g_exitCode := lit "3" |}.
Proof.
  apply (proj2 (@DEBUG_REGEX_round_trip
           (lit "note: Real time: 9 s" ++ LF :: lit "Real time: 1.5 s"
            ++ LF :: lit "User time: 1 s" ++ LF :: lit "Sys. time: .5 s"
            ++ LF :: lit "CPU share: 99.9 %" ++ LF :: lit "Exit code: 3")
           {| g_debug := lit "note: Real time: 9 s" ++ [LF];
              g_realTime := lit "1.5"; g_userTime := lit "1";
              g_sysTime := lit ".5"; g_CPUshare := lit "99.9";
              g_exitCode := lit "3" |})).
  repeat split; try discriminate; reflexivity.
Defined.

(** X8. Decoding a framed response: for every delimiter that delimits,
    every output and every diagnostics block made of some text and five
    well-formed metric lines, decoding yields the output (or, when the
    output is empty, the text before the metric lines) and the numbers of
    the five lines. *)
Theorem decode_framed (delim out : jsstring) (m : groups) (t : bool) :
  well_formed m -> delimits delim out (g_debug m ++ metric_lines m) ->
  decode t (delim ++ out ++ delim ++ g_debug m ++ metric_lines m) =
    inr {| output := if is_nil out then g_debug m else out;
           timedOut := t;
           realTime := parseFloat (g_realTime m);
           userTime := parseFloat (g_userTime m);
           sysTime := parseFloat (g_sysTime m);
           CPUshare := parseFloat (g_CPUshare m);
           exitCode := Number (g_exitCode m) |}.
Proof.
  intros W D. destruct (example_sections D) as [Hd Hs].
  rewrite (@decode_matched t _ m).
  - unfold segment0. now rewrite Hd, Hs.
  - rewrite Hd, Hs. cbn. lia.
  - unfold diagnostics. rewrite Hd, Hs. cbn [nth].
    now apply DEBUG_REGEX_exact.
Qed.

Lemma decode_framed_witness :
  decode false
    (Sample.delimiter ++ [] ++ Sample.delimiter ++
     (lit "warning" ++ [LF]) ++
     metric_lines {| g_debug := lit "warning" ++ [LF];
                     g_realTime := lit "2.5"; g_userTime := lit "1";
                     g_sysTime := lit ".5"; g_CPUshare := lit "60.0";
                     g_exitCode := lit "1" |}) =
    inr {| output := lit "warning" ++ [LF]; timedOut := false;
           realTime := Fin 2.5%Q; userTime := Fin 1%Q; sysTime := Fin 0.5%Q;
           CPUshare := Fin 60.0%Q; exitCode := Fin 1%Q |}.
Proof.
  apply (@decode_framed Sample.delimiter []
           {| g_debug := lit "warning" ++ [LF];
              g_realTime := lit "2.5"; g_userTime := lit "1";
              g_sysTime := lit ".5"; g_CPUshare := lit "60.0";
              g_exitCode := lit "1" |} false).
  - repeat split; try discriminate; reflexivity.
  - repeat split; vm_compute; reflexivity.
Defined.

(** *** The numbers decoded *)

Lemma measure_of_real (q : Q) : (0 <= q)%Q -> measure (of_real q).
Proof.
  intros Hq. destruct (of_real_nonneg Hq) as [[-> _]|[-> _]];
    [exact I|exact Hq].
Qed.

Lemma of_real_not_NaN (q : Q) : of_real q <> NaN.
Proof.
  unfold of_real. destruct (Qle_bool huge q); [discriminate|].
  destruct (Qle_bool q (- huge)); discriminate.
Qed.

Lemma of_real_finite (q : Q) :
  (0 <= q)%Q -> (q < huge)%Q -> of_real q <> PosInf.
Proof. intros Hq Hl. now rewrite (of_real_small Hq Hl). Qed.

Lemma measure_parseFloat (s : jsstring) : measure (parseFloat s).
Proof.
  unfold parseFloat. destruct (span is_digit s) as [ip r].
  destruct r as [|c r'].
  - destruct (is_nil ip); [exact I|].
    apply measure_of_real, whole_nonneg.
  - destruct (ceq c 46%N).
    + destruct (span is_digit r') as [fp rest].
      destruct (is_nil ip && is_nil fp); [exact I|].
      apply measure_of_real, decimal_nonneg.
    + destruct (is_nil ip); [exact I|].
      apply measure_of_real, whole_nonneg.
Qed.

Lemma span_head (p : codeunit -> bool) (c : codeunit) (s : jsstring) :
  is_nil (fst (span p (c :: s))) = negb (p c).
Proof.
  cbn [span]. destruct (p c); [|reflexivity].
  now destruct (span p s).
Qed.

Lemma span_rest_head (p : codeunit -> bool) (c : codeunit) (s : jsstring) :
  p c = false -> span p (c :: s) = ([], c :: s).
Proof. intros E. cbn [span]. now rewrite E. Qed.

Lemma parseFloat_NaN (s : jsstring) :
  parseFloat s = NaN <-> starts_numeric s = false.
Proof.
  assert (R : forall q, of_real q = NaN <-> true = false).
  { intros q. split; [intros X; now apply of_real_not_NaN in X|discriminate]. }
  unfold parseFloat, starts_numeric. destruct s as [|c s].
  - cbn. tauto.
  - destruct (is_digit c) eqn:D.
    + cbn [span]. rewrite D. destruct (span is_digit s) as [ip r].
      cbn [orb]. destruct r as [|d r']; [cbn [is_nil]; apply R|].
      destruct (ceq d 46%N).
      * destruct (span is_digit r'). cbn [is_nil andb]. apply R.
      * cbn [is_nil]. apply R.
    + rewrite (@span_rest_head is_digit c s D). cbn [orb is_nil andb].
      destruct (ceq c 46%N); [|tauto].
      destruct s as [|d s']; [cbn; tauto|].
      pose proof (span_head is_digit d s') as Hh.
      destruct (span is_digit (d :: s')) as [fp rest]. cbn [fst] in Hh.
      rewrite Hh. cbn [andb]. destruct (is_digit d); cbn [negb].
      * rewrite R. tauto.
      * tauto.
Qed.

(** A number read from at most 308 digits before the dot is finite. *)
Lemma parseFloat_finite (s : jsstring) :
  length (fst (span is_digit s)) <= 308 -> parseFloat s <> PosInf.
Proof.
  unfold parseFloat. destruct (span is_digit s) as [ip r] eqn:Sp.
  cbn [fst]. intros L.
  destruct (span_sound _ _ Sp) as (_ & Di & _).
  destruct r as [|c r'].
  - destruct (is_nil ip); [discriminate|].
    apply of_real_finite; [apply whole_nonneg|now apply whole_lt_huge].
  - destruct (ceq c 46%N).
    + destruct (span is_digit r') as [fp rest] eqn:Sf.
      destruct (span_sound _ _ Sf) as (_ & Df & _).
      destruct (is_nil ip && is_nil fp); [discriminate|].
      apply of_real_finite; [apply decimal_nonneg|].
      now apply decimal_lt_huge.
    + destruct (is_nil ip); [discriminate|].
      apply of_real_finite; [apply whole_nonneg|now apply whole_lt_huge].
Qed.

Lemma reading_parseFloat (s : jsstring) : reading s (parseFloat s).
Proof.
  split; [apply measure_parseFloat|].
  split; [apply parseFloat_NaN|apply parseFloat_finite].
Qed.

(** X9. The numbers of a decoded result. Each of the three times and the
    CPU share is [NaN], [+Infinity] or a rational that is not negative:
    [NaN] exactly when its text does not start with a digit or with a dot
    and a digit (such a text passes the pattern and is not rejected), and
    [+Infinity] only when the text has more than 308 digits before the
    dot. The exit code is [+Infinity] or a natural number (the one
    written, which above 2^53 stands for the nearest binary64 value), and
    a natural number when its text has at most 308 digits. None of them is
    ever negative. *)
Theorem decoded_numbers (t : bool) (content : jsstring) (r : TioResponse) :
  decode t content = inr r ->
  exists m, DEBUG_REGEX (diagnostics content) = Some m /\
    reading (g_realTime m) (realTime r) /\
    reading (g_userTime m) (userTime r) /\
    reading (g_sysTime m) (sysTime r) /\
    reading (g_CPUshare m) (CPUshare r) /\
    (exitCode r = PosInf \/
     exists k : N, exitCode r = Fin (inject_Z (Z.of_N k))) /\
    (length (g_exitCode m) <= 308 ->
     exists k : N, exitCode r = Fin (inject_Z (Z.of_N k))).
Proof.
  intros D. apply decode_inr in D as (_ & m & Hm & ->).
  cbn [realTime userTime sysTime CPUshare exitCode].
  exists m. split; [exact Hm|].
  repeat (split; [apply reading_parseFloat|]).
  apply DEBUG_REGEX_sound in Hm as [(_ & _ & _ & _ & _ & F) _].
  rewrite (Number_digits _ F).
  set (n := digits_val 0 (g_exitCode m)).
  split.
  - destruct (of_real_nonneg (whole_nonneg n)) as [[-> _]|[-> _]];
      [now left|right; now exists n].
  - intros L. exists n. apply of_real_small; [apply whole_nonneg|].
    now apply whole_lt_huge.
Qed.

Lemma decoded_numbers_witness :
  exists r,
    decode false
      (Sample.delimiter ++ lit "x" ++ Sample.delimiter ++
       lit "Real time: . s" ++ LF :: lit "User time: 1 s" ++ LF ::
       lit "Sys. time: 1 s" ++ LF :: lit "CPU share: 1 %" ++ LF ::
       lit "Exit code: 7") = inr r /\
    realTime r = NaN /\ measure (userTime r) /\ userTime r <> PosInf.
Proof.
  assert (D : decode false
      (Sample.delimiter ++ lit "x" ++ Sample.delimiter ++
       lit "Real time: . s" ++ LF :: lit "User time: 1 s" ++ LF ::
       lit "Sys. time: 1 s" ++ LF :: lit "CPU share: 1 %" ++ LF ::
       lit "Exit code: 7") =
    inr {| output := lit "x"; timedOut := false; realTime := NaN;
           userTime := Fin 1%Q; sysTime := Fin 1%Q; CPUshare := Fin 1%Q;
           exitCode := Fin 7%Q |}) by (vm_compute; reflexivity).
  eexists. split; [exact D|]. split; [reflexivity|].
  destruct (@decoded_numbers _ _ _ D) as (m & Hm & _ & (M & _ & F) & _).
  split; [exact M|]. apply F.
  vm_compute in Hm. injection Hm as <-. vm_compute. lia.
Defined.

End DecoderMore.

(** ** Language names *)

Module LangFacts.
Import JS Regex Lang JSFacts.

Lemma is_dash_eq (c : codeunit) : is_dash c = true <-> c = DASH.
Proof. apply N.eqb_eq. Qed.

Lemma alnum_not_dash (c : codeunit) :
  is_lower_alnum c = true -> is_dash c = false.
Proof.
  intros A. destruct (is_dash c) eqn:D; [|reflexivity].
  apply is_dash_eq in D. subst c. discriminate A.
Qed.

Lemma slug_chars_app (a b : jsstring) :
  slug_chars (a ++ b) <-> slug_chars a /\ slug_chars b.
Proof. unfold slug_chars. rewrite forallb_app. apply andb_true_iff. Qed.

Lemma slug_chars_rev (s : jsstring) : slug_chars s -> slug_chars (rev s).
Proof.
  unfold slug_chars. rewrite !forallb_forall. intros F x Hx.
  apply F. now apply in_rev.
Qed.

Lemma single_dashes_no_double (s : jsstring) :
  single_dashes s = true <-> no_double s.
Proof.
  unfold no_double. induction s as [|c s IH].
  - split; [|reflexivity]. intros _ [|x a] b; discriminate.
  - destruct s as [|d s].
    + split; [|reflexivity]. intros _ [|x [|y a]] b; discriminate.
    + change (single_dashes (c :: d :: s))
        with (negb (is_dash c && is_dash d) && single_dashes (d :: s)).
      rewrite andb_true_iff, IH. split.
      * intros [N F] [|x a] b E.
        -- injection E as -> -> _. discriminate N.
        -- injection E as _ E. now apply (F a b).
      * intros F. split.
        -- destruct (is_dash c) eqn:C, (is_dash d) eqn:D; try reflexivity.
           apply is_dash_eq in C, D. subst. now destruct (F [] s).
        -- intros a b E. apply (F (c :: a) b). cbn [app]. now rewrite E.
Qed.

Lemma no_double_rev (s : jsstring) : no_double s -> no_double (rev s).
Proof.
  intros F a b E. apply (F (rev b) (rev a)).
  rewrite <- (rev_involutive s), E, rev_app_distr. cbn [rev].
  now repeat (rewrite <- ?app_assoc; cbn [app]).
Qed.

Lemma no_double_mid (a w b : jsstring) : no_double (a ++ w ++ b) -> no_double w.
Proof.
  intros F x y E. apply (F (a ++ x) (y ++ b)). rewrite E.
  now repeat (rewrite <- ?app_assoc; cbn [app]).
Qed.

(** The dashes dropped in front. *)
Lemma drop_dashes_spec (s : jsstring) :
  exists k, s = repeat DASH k ++ drop_dashes s /\
    head_dash (drop_dashes s) = false.
Proof.
  induction s as [|c s (k & E & Hd)].
  - now exists 0.
  - cbn [drop_dashes]. destruct (is_dash c) eqn:C.
    + apply is_dash_eq in C. subst c. exists (S k). cbn [repeat app].
      now rewrite <- E.
    + exists 0. cbn. now split.
Qed.

Lemma drop_dashes_id (s : jsstring) : head_dash s = false -> drop_dashes s = s.
Proof. destruct s as [|c s]; [reflexivity|]. cbn. now intros ->. Qed.

Lemma rev_repeat_dash (k : nat) : rev (repeat DASH k) = repeat DASH k.
Proof.
  induction k as [|k IH]; [reflexivity|].
  cbn [repeat rev]. rewrite IH. clear IH.
  induction k as [|k IH]; [reflexivity|]. cbn [repeat app]. now rewrite IH.
Qed.

(** What trimming leaves: the text without the dashes around it. *)
Lemma trim_dashes_spec (s : jsstring) :
  exists k j, s = repeat DASH k ++ trim_dashes s ++ repeat DASH j /\
    head_dash (trim_dashes s) = false /\
    head_dash (rev (trim_dashes s)) = false.
Proof.
  unfold trim_dashes.
  destruct (drop_dashes_spec s) as (k & E & Hd).
  destruct (drop_dashes_spec (rev (drop_dashes s))) as (j & E' & Hd').
  set (u := drop_dashes s) in *. set (v := drop_dashes (rev u)) in *.
  assert (U : u = rev v ++ repeat DASH j).
  { rewrite <- (rev_involutive u), E', rev_app_distr.
    now rewrite rev_repeat_dash. }
  exists k, j. split; [now rewrite <- U|].
  split; [|now rewrite rev_involutive].
  rewrite U in Hd. destruct (rev v) as [|c w]; [reflexivity|exact Hd].
Qed.

Lemma replace_runs_chars (b : bool) (s : jsstring) :
  slug_chars (replace_runs b s).
Proof.
  unfold slug_chars. revert b; induction s as [|c s IH]; intros b;
    [reflexivity|].
  cbn [replace_runs]. destruct (is_lower_alnum c) eqn:A.
  - cbn [forallb]. now rewrite A, IH.
  - destruct b; [apply IH|]. cbn [forallb]. rewrite IH.
    now rewrite orb_true_r.
Qed.

Lemma replace_runs_single (b : bool) (s : jsstring) :
  single_dashes (replace_runs b s) = true /\
  (b = true -> head_dash (replace_runs b s) = false).
Proof.
  revert b; induction s as [|c s IH]; intros b; [now split|].
  cbn [replace_runs]. destruct (is_lower_alnum c) eqn:A.
  - destruct (IH false) as [S _]. split.
    + destruct (replace_runs false s) as [|d r] eqn:R; [reflexivity|].
      change (single_dashes (c :: d :: r))
        with (negb (is_dash c && is_dash d) && single_dashes (d :: r)).
      now rewrite S, (alnum_not_dash _ A).
    + intros _. cbn. now apply alnum_not_dash.
  - destruct b; [apply IH|]. destruct (IH true) as [S Hd]. split.
    + specialize (Hd eq_refl).
      destruct (replace_runs true s) as [|d r] eqn:R; [reflexivity|].
      change (single_dashes (DASH :: d :: r))
        with (negb (is_dash DASH && is_dash d) && single_dashes (d :: r)).
      cbn [head_dash] in Hd. rewrite S, Hd. reflexivity.
    + discriminate.
Qed.

Lemma filter_repeat_dash (k : nat) :
  filter is_lower_alnum (repeat DASH k) = [].
Proof. induction k; [reflexivity|exact IHk]. Qed.

Lemma replace_runs_keeps (b : bool) (s : jsstring) :
  filter is_lower_alnum (replace_runs b s) = filter is_lower_alnum s.
Proof.
  revert b; induction s as [|c s IH]; intros b; [reflexivity|].
  cbn [replace_runs filter]. destruct (is_lower_alnum c) eqn:A.
  - cbn [filter]. now rewrite A, IH.
  - destruct b; [apply IH|]. cbn [filter]. apply IH.
Qed.

Lemma trim_dashes_keeps (s : jsstring) :
  filter is_lower_alnum (trim_dashes s) = filter is_lower_alnum s.
Proof.
  destruct (trim_dashes_spec s) as (k & j & E & _).
  rewrite E at 2. rewrite !filter_app, !filter_repeat_dash.
  now rewrite app_nil_r.
Qed.

Lemma head_dash_cons (s t : jsstring) :
  head_dash s = false -> s <> DASH :: t.
Proof. intros Hd ->. discriminate Hd. Qed.

Lemma last_dash_snoc (s t : jsstring) :
  head_dash (rev s) = false -> s <> t ++ [DASH].
Proof. intros Hd ->. rewrite rev_app_distr in Hd. discriminate Hd. Qed.

Lemma trimmed_slug (s : jsstring) :
  slug_chars s -> single_dashes s = true -> trim_dashes s <> [] ->
  slug (trim_dashes s).
Proof.
  intros C S N. destruct (trim_dashes_spec s) as (k & j & E & Hd & Hl).
  split; [exact N|]. split; [|split; [|split]].
  - rewrite E in C. apply slug_chars_app in C as [_ C].
    now apply slug_chars_app in C as [C _].
  - apply single_dashes_no_double. apply single_dashes_no_double in S.
    rewrite E in S. now apply no_double_mid in S.
  - intros t. now apply head_dash_cons.
  - intros t. now apply last_dash_snoc.
Qed.

Lemma tio_slug : slug (lit "tio").
Proof.
  split; [discriminate|]. split; [reflexivity|]. split; [reflexivity|].
  split; intros t; [now apply head_dash_cons|now apply last_dash_snoc].
Qed.

Section Sanitize.
Context `{Casing}.

Lemma sanitize_slug (tioLanguage : jsstring) :
  slug (sanitizeExtensionFromTioLanguage tioLanguage).
Proof.
  unfold sanitizeExtensionFromTioLanguage.
  set (sanitized := replace_runs false (normalize tioLanguage)).
  destruct (trim_dashes sanitized) as [|c w] eqn:T; [apply tio_slug|].
  rewrite <- T. apply trimmed_slug.
  - apply replace_runs_chars.
  - apply replace_runs_single.
  - rewrite T. discriminate.
Qed.

(** X11. Whatever the name given, [sanitizeExtensionFromTioLanguage]
    returns a usable extension: not empty, made of lower case letters,
    digits and dashes only, with no dash first or last and no two dashes
    in a row. It is [tio] when the lowered name has no letter or digit, and
    otherwise keeps exactly the letters and digits of the lowered name, in
    order. *)
Theorem sanitized_extension (tioLanguage : jsstring) :
  slug (sanitizeExtensionFromTioLanguage tioLanguage) /\
  (filter is_lower_alnum (normalize tioLanguage) = [] ->
   sanitizeExtensionFromTioLanguage tioLanguage = lit "tio") /\
  (filter is_lower_alnum (normalize tioLanguage) <> [] ->
   filter is_lower_alnum (sanitizeExtensionFromTioLanguage tioLanguage) =
     filter is_lower_alnum (normalize tioLanguage)).
Proof.
  unfold sanitizeExtensionFromTioLanguage.
  set (sanitized := replace_runs false (normalize tioLanguage)).
  pose proof (trim_dashes_keeps sanitized) as K.
  unfold sanitized in K at 2. rewrite replace_runs_keeps in K.
  destruct (trim_dashes sanitized) as [|c w] eqn:T.
  - split; [apply tio_slug|]. split; [reflexivity|].
    intros N. cbn in K. congruence.
  - split.
    + rewrite <- T. apply trimmed_slug.
      * apply replace_runs_chars.
      * apply replace_runs_single.
      * rewrite T. discriminate.
    + split; [|intros _; exact K].
      intros E. rewrite E in K.
      assert (S : slug (c :: w)).
      { rewrite <- T. apply trimmed_slug;
          [apply replace_runs_chars|apply replace_runs_single|].
        rewrite T. discriminate. }
      destruct S as (_ & C & _ & Hh & _). cbn [forallb] in C.
      apply andb_true_iff in C as [C _]. cbn [filter] in K.
      destruct (is_lower_alnum c); [discriminate K|].
      cbn in C. apply is_dash_eq in C. subst c. now destruct (Hh w).
Qed.

Lemma slug_ascii (s : jsstring) : slug_chars s -> forallb is_ascii s = true.
Proof.
  unfold slug_chars. rewrite !forallb_forall. intros F c Hc.
  specialize (F c Hc). unfold is_lower_alnum, is_digit, is_dash, ceq, DASH in F.
  unfold is_ascii. apply N.ltb_lt.
  apply orb_true_iff in F as [F|F].
  - apply orb_true_iff in F as [F|F]; apply andb_true_iff in F as [_ F];
      apply N.leb_le in F; lia.
  - apply N.eqb_eq in F. lia.
Qed.

Lemma slug_lower (s : jsstring) : slug_chars s -> map ascii_lower s = s.
Proof.
  unfold slug_chars. induction s as [|c s IH]; [reflexivity|].
  cbn [forallb map]. intros F. apply andb_true_iff in F as [F Fs].
  rewrite (IH Fs). f_equal. unfold ascii_lower.
  destruct ((65 <=? c)%N && (c <=? 90)%N) eqn:U; [|reflexivity].
  apply andb_true_iff in U as [U1 U2]. apply N.leb_le in U1, U2.
  unfold is_lower_alnum, is_digit, is_dash, ceq, DASH in F.
  apply orb_true_iff in F as [F|F].
  - apply orb_true_iff in F as [F|F]; apply andb_true_iff in F as [F1 F2];
      apply N.leb_le in F1, F2; lia.
  - apply N.eqb_eq in F. lia.
Qed.

Lemma replace_runs_id (b : bool) (s : jsstring) :
  slug_chars s -> single_dashes s = true ->
  (b = true -> head_dash s = false) -> replace_runs b s = s.
Proof.
  unfold slug_chars. revert b; induction s as [|c s IH]; intros b C S Hb;
    [reflexivity|].
  cbn [forallb] in C. apply andb_true_iff in C as [Cc Cs].
  assert (S' : single_dashes s = true).
  { destruct s as [|d s]; [reflexivity|].
    change (single_dashes (c :: d :: s))
      with (negb (is_dash c && is_dash d) && single_dashes (d :: s)) in S.
    now apply andb_true_iff in S as [_ S]. }
  cbn [replace_runs]. destruct (is_lower_alnum c) eqn:A.
  - f_equal. apply IH; [exact Cs|exact S'|discriminate].
  - cbn [orb] in Cc. destruct b.
    + specialize (Hb eq_refl). cbn [head_dash] in Hb. congruence.
    + apply is_dash_eq in Cc. subst c. f_equal.
      apply IH; [exact Cs|exact S'|]. intros _.
      destruct s as [|d s]; [reflexivity|].
      change (single_dashes (DASH :: d :: s))
        with (negb (is_dash DASH && is_dash d) && single_dashes (d :: s)) in S.
      apply andb_true_iff in S as [S _]. cbn [head_dash].
      now destruct (is_dash d).
Qed.

Lemma trim_dashes_id (s : jsstring) :
  (forall t, s <> DASH :: t) -> (forall t, s <> t ++ [DASH]) ->
  trim_dashes s = s.
Proof.
  intros Hh Hl. unfold trim_dashes.
  assert (A : head_dash s = false).
  { destruct s as [|c s]; [reflexivity|]. cbn.
    destruct (is_dash c) eqn:D; [|reflexivity].
    apply is_dash_eq in D. subst c. now destruct (Hh s). }
  rewrite (drop_dashes_id _ A).
  assert (B : head_dash (rev s) = false).
  { destruct (rev s) as [|c r] eqn:R; [reflexivity|]. cbn.
    destruct (is_dash c) eqn:D; [|reflexivity].
    apply is_dash_eq in D. subst c. destruct (Hl (rev r)).
    rewrite <- (rev_involutive s), R. reflexivity. }
  rewrite (drop_dashes_id _ B). apply rev_involutive.
Qed.

(** X12. Sanitizing twice changes nothing more: applied to its own result,
    [sanitizeExtensionFromTioLanguage] returns it unchanged (given that
    [toLowerCase] treats ASCII text as it should). *)
Theorem sanitize_idempotent (tioLanguage : jsstring) :
  lowers_ascii ->
  sanitizeExtensionFromTioLanguage
    (sanitizeExtensionFromTioLanguage tioLanguage) =
  sanitizeExtensionFromTioLanguage tioLanguage.
Proof.
  intros L. pose proof (sanitize_slug tioLanguage) as S.
  set (r := sanitizeExtensionFromTioLanguage tioLanguage) in *.
  destruct S as (N & C & D & Hh & Hl).
  unfold sanitizeExtensionFromTioLanguage at 1. unfold normalize.
  rewrite (L r (@slug_ascii r C)), (@slug_lower r C).
  rewrite (@replace_runs_id false r C D) by discriminate.
  rewrite (@trim_dashes_id r Hh Hl). destruct r; [congruence|reflexivity].
Qed.

End Sanitize.

Lemma ascii_casing_lowers : @lowers_ascii ascii_casing.
Proof. intros s _. reflexivity. Defined.

Lemma sanitized_extension_witness :
  @sanitizeExtensionFromTioLanguage ascii_casing (lit "C++ (GCC)") =
    lit "c-gcc" /\
  @sanitizeExtensionFromTioLanguage ascii_casing (lit "+++") = lit "tio".
Proof.
  destruct (@sanitized_extension ascii_casing (lit "+++")) as (_ & T & _).
  split; [reflexivity|]. apply T. reflexivity.
Defined.

Lemma sanitize_idempotent_witness :
  @sanitizeExtensionFromTioLanguage ascii_casing
    (@sanitizeExtensionFromTioLanguage ascii_casing (lit "C++ (GCC)")) =
  @sanitizeExtensionFromTioLanguage ascii_casing (lit "C++ (GCC)").
Proof.
  apply (@sanitize_idempotent ascii_casing (lit "C++ (GCC)")).
  exact ascii_casing_lowers.
Defined.

End LangFacts.

(** ** Choices and defaults *)

Module ChoiceFacts.
Import JS Regex Num Tio Lang Exec JSFacts LangFacts.

Lemma str_eqb_eq (a b : jsstring) : str_eqb a b = true <-> a = b.
Proof.
  revert b; induction a as [|x a IH]; intros [|y b]; cbn [str_eqb];
    try (split; [reflexivity|reflexivity]); try (split; discriminate).
  rewrite andb_true_iff, IH. unfold ceq. rewrite N.eqb_eq.
  split; [intros [-> ->]; reflexivity|intros [= -> ->]; now split].
Qed.

Lemma own_In (o : list (jsstring * jsstring)) (k v : jsstring) :
  own o k = Some v -> In v (map snd o).
Proof.
  induction o as [|[k' v'] o IH]; [discriminate|].
  cbn [own map snd In]. destruct (str_eqb k k').
  - intros [= <-]. now left.
  - intros E. right. now apply IH.
Qed.

Lemma find_snd {A B} (f : A * B -> bool) (l : list (A * B)) (x : A * B) :
  find f l = Some x -> In (snd x) (map snd l).
Proof. intros E. apply find_some in E as [E _]. now apply in_map. Qed.

Section Choices.
Context `{Casing}.
Hypothesis lowers : lowers_ascii.

Lemma getChoice_ascii (l : jsstring) :
  forallb is_ascii l = true ->
  getChoiceForTioLanguage (Some l) =
    @getChoiceForTioLanguage ascii_casing (Some l).
Proof.
  intros A. destruct l as [|c s]; [reflexivity|].
  unfold getChoiceForTioLanguage, normalize. now rewrite (lowers _ A).
Qed.

Lemma choiceToDefault_ascii (choice : jsstring) :
  forallb is_ascii choice = true ->
  choiceToDefaultTioLanguage choice =
    @choiceToDefaultTioLanguage ascii_casing choice.
Proof.
  intros A. unfold choiceToDefaultTioLanguage, normalize.
  now rewrite (lowers _ A).
Qed.

Lemma ascii_lower_not_upper (c : codeunit) :
  negb ((65 <=? ascii_lower c)%N && (ascii_lower c <=? 90)%N) = true.
Proof.
  unfold ascii_lower.
  destruct ((65 <=? c)%N && (c <=? 90)%N) eqn:U.
  - apply andb_true_iff in U as [A B].
    apply N.leb_le in A. apply N.leb_le in B.
    apply negb_true_iff, andb_false_iff. right. apply N.leb_gt. lia.
  - now rewrite U.
Qed.

Lemma lowered_no_upper (s : jsstring) :
  forallb (fun c => negb ((65 <=? c)%N && (c <=? 90)%N))
    (map ascii_lower s) = true.
Proof.
  induction s as [|c s IH]; [reflexivity|].
  cbn [map forallb]. now rewrite ascii_lower_not_upper, IH.
Qed.

(** X14. [choiceToDefaultTioLanguage] reads the table by a plain property
    access, so for an ASCII choice it returns a member inherited from
    [Object.prototype], neither a language nor [undefined], exactly when
    the lowered choice is [constructor] or [__proto__]; the other members
    of the prototype have a capital letter in their name and are out of
    reach after lowering. *)
Theorem inherited_defaults (choice n : jsstring) :
  forallb is_ascii choice = true ->
  choiceToDefaultTioLanguage choice = Inherited n <->
  n = map ascii_lower choice /\
  (n = lit "constructor" \/ n = lit "__proto__").
Proof.
  intros A. rewrite (choiceToDefault_ascii _ A).
  unfold choiceToDefaultTioLanguage, normalize, get.
  change (@toLowerCase ascii_casing choice) with (map ascii_lower choice).
  pose proof (lowered_no_upper choice) as L.
  split.
  - destruct (own _ _) eqn:O; [discriminate|].
    destruct (existsb _ _) eqn:E; [|discriminate].
    intros [= <-]. split; [reflexivity|].
    apply existsb_exists in E as (p & I & E). apply str_eqb_eq in E.
    rewrite E in *. clear E O.
    cbn [Object_prototype In] in I.
    repeat (destruct I as [<-|I];
      [first [left; reflexivity | right; reflexivity
             | exfalso; vm_compute in L; discriminate]|]).
    destruct I.
  - intros [-> [E|E]]; rewrite E; reflexivity.
Qed.

(** X13. The table of defaults and the reverse lookup agree (given that
    [toLowerCase] treats ASCII text as it should). Whenever
    [choiceToDefaultTioLanguage] finds a default language for a choice,
    [getChoiceForTioLanguage] maps that language back to a choice with the
    same default; and every choice that [getChoiceForTioLanguage] returns,
    from the table or from a pattern, has a default language in the
    table. *)
Theorem choices_and_defaults :
  (forall choice t,
     choiceToDefaultTioLanguage choice = Own t ->
     exists k, getChoiceForTioLanguage (Some t) = Some k /\
       choiceToDefaultTioLanguage k = Own t) /\
  (forall l k,
     getChoiceForTioLanguage l = Some k ->
     exists t, choiceToDefaultTioLanguage k = Own t).
Proof.
  split.
  - intros choice t. unfold choiceToDefaultTioLanguage at 1, get.
    destruct (own CHOICE_TO_TIO (normalize choice)) as [v|] eqn:O.
    + intros [= <-]. apply own_In in O. cbn [map snd CHOICE_TO_TIO In] in O.
      repeat (destruct O as [<-|O];
        [eexists; rewrite getChoice_ascii by reflexivity;
         split; [vm_compute; reflexivity|];
         rewrite choiceToDefault_ascii by reflexivity; reflexivity|]).
      destruct O.
    + destruct (existsb _ _); discriminate.
  - intros [[|c s]|] k; try discriminate.
    unfold getChoiceForTioLanguage.
    destruct (find _ CHOICE_TO_TIO) as [[choice d]|] eqn:F.
    + intros [= <-]. apply find_some in F as [F _].
      cbn [CHOICE_TO_TIO In] in F.
      repeat (destruct F as [F|F];
        [injection F as <- _; eexists;
         rewrite choiceToDefault_ascii by reflexivity; reflexivity|]).
      destruct F.
    + destruct (find _ TIO_MATCHERS) as [[p choice]|] eqn:M; [|discriminate].
      intros [= <-]. apply find_snd in M. cbn [map snd TIO_MATCHERS In] in M.
      repeat (destruct M as [<-|M];
        [eexists; rewrite choiceToDefault_ascii by reflexivity;
         reflexivity|]).
      destruct M.
Qed.

(** X16. What [mapLanguageToTio] returns, looked up again (given that
    [toLowerCase] treats ASCII text as it should).
    [getChoiceForTioLanguage] maps every language [mapLanguageToTio]
    returns back to the choice it came from, [cc] and [cxx] as [cpp], with
    one exception: [c-clang], returned for C with a clang compiler, is
    found neither in the table nor by a pattern (the pattern for the C
    compilers has no dash), and the lookup gives [undefined]. *)
Theorem remote_language_choice (language : Language) (t : jsstring) :
  mapLanguageToTio language = inr t ->
  (t = lit "c-clang" /\ getChoiceForTioLanguage (Some t) = None) \/
  (t <> lit "c-clang" /\
   getChoiceForTioLanguage (Some t) =
     Some (canonical_choice (l_name language))).
Proof.
  unfold mapLanguageToTio, canonical_choice.
  destruct language as [name comp]. cbn [l_name l_compiler].
  repeat match goal with
  | |- context [str_eqb name ?l] =>
      let E := fresh "E" in
      destruct (str_eqb name l) eqn:E;
      [apply str_eqb_eq in E; subst name|]
  end; cbn [orb];
  repeat match goal with
  | |- context [includes ?a ?b] => destruct (includes a b)
  end;
  intros [= <-];
  try (right; split; [discriminate|];
       rewrite getChoice_ascii by reflexivity; reflexivity);
  try (left; split; [reflexivity|];
       rewrite getChoice_ascii by reflexivity; reflexivity).
Qed.

End Choices.

Lemma choices_and_defaults_witness :
  exists k,
    @getChoiceForTioLanguage ascii_casing (Some (lit "haskell")) = Some k /\
    @choiceToDefaultTioLanguage ascii_casing k = Own (lit "haskell").
Proof.
  destruct (@choices_and_defaults ascii_casing ascii_casing_lowers) as [A _].
  apply (A (lit "HS")). reflexivity.
Defined.

Lemma inherited_defaults_witness :
  @choiceToDefaultTioLanguage ascii_casing (lit "Constructor") =
    Inherited (lit "constructor").
Proof.
  apply (@inherited_defaults ascii_casing ascii_casing_lowers
           (lit "Constructor") (lit "constructor")).
  - reflexivity.
  - split; [reflexivity|left; reflexivity].
Defined.

Lemma remote_language_choice_witness :
  @getChoiceForTioLanguage ascii_casing (Some (lit "c-clang")) = None /\
  @getChoiceForTioLanguage ascii_casing (Some (lit "python3")) =
    Some (lit "python").
Proof.
  split.
  - destruct (@remote_language_choice ascii_casing ascii_casing_lowers
                Desk.clang_c (lit "c-clang")) as [[_ X]|[X _]].
    + reflexivity.
    + exact X.
    + now contradiction X.
  - destruct (@remote_language_choice ascii_casing ascii_casing_lowers
                Desk.python (lit "python3")) as [[X _]|[_ X]].
    + reflexivity.
    + discriminate X.
    + exact X.
Defined.

End ChoiceFacts.

(** ** Running a test case *)

Module ExecFacts.
Import JS Regex Num Tio Notions Shapes Lang Exec.
Import JSFacts NumFacts CacheFacts TransportFacts GrammarFacts DecoderFacts.
Import RunFacts RequestFacts.
Import DecoderMore ChoiceFacts.

(** *** Names accepted by [mapLanguageToTio] *)

Section Names.
Context `{Casing}.

Lemma mapLanguageToTio_cases (l : Language) :
  match mapLanguageToTio l with
  | inl err =>
      own CHOICE_TO_TIO (l_name l) = None /\
      err = Error (lit "Unsupported language for tio.run: " ++ l_name l)
  | inr t =>
      exists d, own CHOICE_TO_TIO (l_name l) = Some d /\
        (includes (lit "clang") (normalizeCompiler (l_compiler l)) = false ->
         includes (lit "python2") (normalizeCompiler (l_compiler l)) = false ->
         t = d)
  end.
Proof.
  unfold mapLanguageToTio.
  destruct l as [name comp]. cbn [l_name l_compiler].
  repeat match goal with
  | |- context [str_eqb name ?l] =>
      let E := fresh "E" in
      destruct (str_eqb name l) eqn:E;
      [apply str_eqb_eq in E; subst name|]
  end; cbn [orb];
  try (eexists; split; [reflexivity|]; intros A B; rewrite ?A, ?B;
       reflexivity).
  split; [|reflexivity].
  cbn [own CHOICE_TO_TIO].
  repeat match goal with
  | E : str_eqb name ?l = false |- context [str_eqb name ?l'] =>
      change (str_eqb name l') with (str_eqb name l); rewrite E
  end.
  reflexivity.
Qed.

(** X15. [mapLanguageToTio] and the table [CHOICE_TO_TIO] know the same
    names. It throws exactly for the names that are no key of the table
    (compared as given, without lowering), and the message is
    Unsupported language for tio.run: followed by the name. For a compiler
    command that mentions neither clang nor python2 it returns exactly
    the default language of the table. *)
Theorem remote_language_defaults (l : Language) :
  (forall err,
     mapLanguageToTio l = inl err <->
     own CHOICE_TO_TIO (l_name l) = None /\
     err = Error (lit "Unsupported language for tio.run: " ++ l_name l)) /\
  (includes (lit "clang") (normalizeCompiler (l_compiler l)) = false ->
   includes (lit "python2") (normalizeCompiler (l_compiler l)) = false ->
   forall t,
     mapLanguageToTio l = inr t <-> own CHOICE_TO_TIO (l_name l) = Some t).
Proof.
  pose proof (mapLanguageToTio_cases l) as C.
  destruct (mapLanguageToTio l) as [err|t].
  - destruct C as [O ->]. split.
    + intros err. split; [intros [= <-]; now split|intros [_ ->]; reflexivity].
    + intros _ _ t. rewrite O. split; discriminate.
  - destruct C as (d & O & D). split.
    + intros err. rewrite O. split; [discriminate|intros [X _]; discriminate].
    + intros A B t'. rewrite O, (D A B).
      split; intros [= ->]; reflexivity.
Qed.

End Names.

(** *** The ways [runOnTio] raises *)

Lemma fetchText_error (e : env) (path : jsstring) (c : cache) (err : exn) :
  value (fetchText e path c) = inl err -> err <> ExecutionAbortedError.
Proof.
  destruct (fetchText_run e path c) as (_ & _ & ->).
  destruct (reply_get e _) as [f|r]; [intros [= <-]; discriminate|].
  destruct (ok r); [|intros [= <-]; discriminate].
  destruct (content r); [intros [= <-]|]; discriminate.
Qed.

Lemma resolve_error (e : env) (c : cache) (err : exn) :
  value (resolve e c) = inl err -> err <> ExecutionAbortedError.
Proof.
  unfold resolve.
  destruct (fetchText_run e (lit "/") c) as (Hf & _ & _).
  destruct (value (fetchText e (lit "/") c)) as [x|html] eqn:E.
  - rewrite (bind_inl _ _ _ E). cbn [value]. intros [= <-].
    exact (fetchText_error _ _ _ E).
  - rewrite (bind_inr _ _ _ E), Hf. cbn [value].
    destruct (truthy (SCRIPT_REGEX html)) as [path|];
      [|intros [= <-]; discriminate].
    destruct (fetchText_run e path c) as (Hf' & _ & _).
    destruct (value (fetchText e path c)) as [x|script] eqn:E'.
    + rewrite (bind_inl _ _ _ E'). cbn [value]. intros [= <-].
      exact (fetchText_error _ _ _ E').
    + rewrite (bind_inr _ _ _ E'). cbn [value].
      destruct (truthy (RUN_URL_REGEX script));
        [discriminate|intros [= <-]; discriminate].
Qed.

Lemma ensureRunUrl_error (e : env) (c : cache) (err : exn) :
  value (ensureRunUrl e c) = inl err -> err <> ExecutionAbortedError.
Proof.
  destruct (fresh_or_stale e c) as [Hf|Hs].
  - rewrite (ensureRunUrl_fresh Hf). discriminate.
  - rewrite (ensureRunUrl_stale Hs). apply resolve_error.
Qed.

Section Raises.
Context `{Runtime}.
Variables (e : env) (code : jsstring) (o : TioRunOptions) (c : cache).

(** Only the caller's signal makes [runOnTio] raise the cancellation. *)
Lemma runOnTio_cancelled :
  value (runOnTio e code o c) = inl ExecutionAbortedError ->
  pre_aborted (o_signal o) = true \/
  (signal_fired e (Tio.normalize o) /\ ~ timer_fired e (Tio.normalize o)).
Proof.
  intros V.
  destruct (pre_aborted (o_signal o)) eqn:Hp; [now left|right].
  destruct (value (ensureRunUrl e c)) as [err|[]] eqn:E.
  - rewrite (@runOnTio_unresolved _ e code o c _ E) in V. cbn [value] in V.
    injection V as ->. now apply ensureRunUrl_error in E.
  - rewrite (@runOnTio_sent _ e code o c E Hp) in V.
    destruct (value (executeRequest e _ _ _)) as [err|t] eqn:X.
    + injection V as ->.
      exact (@executeRequest_cancel e _ (Tio.normalize o) _ Hp X).
    + destruct (buffer t) as [data|]; [|discriminate].
      destruct (gunzipSync data) as [x|raw]; [discriminate|].
      destruct (decode (t_timedOut t) (Buffer_toString raw)) as [err|r] eqn:D;
        [|discriminate].
      injection V as ->. unfold decode in D.
      destruct (length _ <? 2); [discriminate|].
      destruct (DEBUG_REGEX _); discriminate.
Qed.

End Raises.

(** *** Numbers *)

Lemma Qmax_cases (x y : Q) : Qmax x y = x \/ Qmax x y = y.
Proof.
  unfold Qmax, GenericMinMax.gmax. destruct (x ?= y)%Q; auto.
Qed.

Lemma whole_time (x : number) :
  measure x ->
  Math_max (Fin 0%Q) (Math_round (times1000 x)) = NaN \/
  Math_max (Fin 0%Q) (Math_round (times1000 x)) = PosInf \/
  exists n : N,
    Math_max (Fin 0%Q) (Math_round (times1000 x)) =
      Fin (inject_Z (Z.of_N n)).
Proof.
  destruct x as [| | |q]; cbn [measure]; try contradiction.
  - intros _. now left.
  - intros _. right. now left.
  - intros Hq. right. cbn [times1000].
    assert (P : (0 <= b64 q * 1000)%Q).
    { apply Qmult_le_0_compat; [now apply b64_nonneg|easy]. }
    destruct (of_real_nonneg P) as [[-> _]|[-> _]]; [now left|right].
    cbn [Math_round Math_max].
    set (z := Qfloor (b64 (b64 q * 1000) + (1 # 2))).
    assert (Hz : (0 <= z)%Z).
    { change 0%Z with (Qfloor 0). apply Qfloor_resp_le.
      pose proof (b64_nonneg P) as B.
      apply Qle_trans with (b64 (b64 q * 1000)); [exact B|].
      rewrite <- (Qplus_0_r (b64 (b64 q * 1000))) at 1.
      apply Qplus_le_r. easy. }
    destruct (Qmax_cases 0 (inject_Z z)) as [-> | ->].
    + now exists 0%N.
    + exists (Z.to_N z). now rewrite Z2N.id.
Qed.

Lemma armed_finite (o : TioRunOptions) :
  isFinite (o_timeout o) = true -> armed (Tio.normalize o) = true.
Proof.
  unfold armed, Tio.normalize. cbn [timeout].
  destruct (o_timeout o) as [| | |q]; try discriminate. intros _.
  cbn [Math_max MIN_TIMEOUT_MS isFinite gt0 andb].
  apply negb_true_iff.
  destruct (Qle_bool (Qmax 500 q) 0) eqn:L; [|reflexivity].
  apply Qle_bool_iff in L.
  assert (X : (500 <= Qmax 500 q)%Q) by apply Q.le_max_l.
  pose proof (Qle_trans _ _ _ X L) as A. now compute in A.
Qed.

Lemma armed_measure (o : NormalizedOptions) :
  armed o = true -> measure (div1000 (timeout o)).
Proof.
  unfold armed. destruct (timeout o) as [| | |q]; try discriminate.
  cbn [isFinite gt0 andb div1000 measure]. intros G.
  apply negb_true_iff in G.
  assert (Hq : (0 < q)%Q).
  { apply Qnot_le_lt. intros L. apply Qle_bool_iff in L. congruence. }
  apply Qlt_le_weak in Hq. apply b64_nonneg in Hq.
  apply Qle_shift_div_l; [easy|]. now rewrite Qmult_0_l.
Qed.

(** *** [runTestCase] *)

Section TestCase.
Context `{Runtime} `{Casing}.
Variables (h : host) (e : env) (language : option Language).
Variables (binPath input : jsstring).
Variables (srcPath overrideTioLanguage : option jsstring) (c : cache).

Lemma runTestCase_rejected (err : exn) :
  tio_language language overrideTioLanguage = inl err ->
  runTestCase h e language binPath input srcPath overrideTioLanguage c =
    {| returned := inl err; shown := []; cache_after := c; requests := [] |}.
Proof. intros T. unfold runTestCase. now rewrite T. Qed.

Lemma runTestCase_no_language (x : option jsstring) :
  tio_language language overrideTioLanguage = inr x -> truthy x = None ->
  runTestCase h e language binPath input srcPath overrideTioLanguage c =
    {| returned := inr (failed no_language_text (lit "ERROR"));
       shown := [no_language_text]; cache_after := c; requests := [] |}.
Proof. intros T X. unfold runTestCase. now rewrite T, X. Qed.

Lemma runTestCase_unreadable (x : option jsstring) (t : jsstring)
    (f : fault) :
  tio_language language overrideTioLanguage = inr x -> truthy x = Some t ->
  readFile h (nullish srcPath binPath) = inl f ->
  runTestCase h e language binPath input srcPath overrideTioLanguage c =
    caught (Raised f) c [].
Proof. intros T X F. unfold runTestCase. now rewrite T, X, F. Qed.

Lemma runTestCase_ran (x : option jsstring) (t code : jsstring) :
  tio_language language overrideTioLanguage = inr x -> truthy x = Some t ->
  readFile h (nullish srcPath binPath) = inr code ->
  runTestCase h e language binPath input srcPath overrideTioLanguage c =
    match value (remote_call h e t input code c) with
    | inr tioResponse =>
        {| returned := inr (completed tioResponse); shown := [];
           cache_after := final (remote_call h e t input code c);
           requests := trace (remote_call h e t input code c) |}
    | inl err =>
        caught err (final (remote_call h e t input code c))
          (trace (remote_call h e t input code c))
    end.
Proof. intros T X F. unfold runTestCase. now rewrite T, X, F. Qed.

(** Every way the call settles. *)
Lemma runTestCase_cases :
  (exists err, tio_language language overrideTioLanguage = inl err /\
     runTestCase h e language binPath input srcPath overrideTioLanguage c =
       {| returned := inl err; shown := []; cache_after := c;
          requests := [] |}) \/
  (exists x, tio_language language overrideTioLanguage = inr x /\
     truthy x = None /\
     runTestCase h e language binPath input srcPath overrideTioLanguage c =
       {| returned := inr (failed no_language_text (lit "ERROR"));
          shown := [no_language_text]; cache_after := c; requests := [] |}) \/
  (exists x t f, tio_language language overrideTioLanguage = inr x /\
     truthy x = Some t /\ readFile h (nullish srcPath binPath) = inl f /\
     runTestCase h e language binPath input srcPath overrideTioLanguage c =
       caught (Raised f) c []) \/
  (exists x t code, tio_language language overrideTioLanguage = inr x /\
     truthy x = Some t /\ readFile h (nullish srcPath binPath) = inr code /\
     runTestCase h e language binPath input srcPath overrideTioLanguage c =
       match value (remote_call h e t input code c) with
       | inr tioResponse =>
           {| returned := inr (completed tioResponse); shown := [];
              cache_after := final (remote_call h e t input code c);
              requests := trace (remote_call h e t input code c) |}
       | inl err =>
           caught err (final (remote_call h e t input code c))
             (trace (remote_call h e t input code c))
       end).
Proof.
  destruct (tio_language language overrideTioLanguage) as [err|x] eqn:T.
  - left. exists err. split; [reflexivity|]. now apply runTestCase_rejected.
  - right. destruct (truthy x) as [t|] eqn:X.
    + right. destruct (readFile h (nullish srcPath binPath)) as [f|code] eqn:F.
      * left. exists x, t, f. repeat split; try assumption.
        now apply runTestCase_unreadable with x t.
      * right. exists x, t, code. repeat split; try assumption.
        now apply runTestCase_ran with x.
    + left. exists x. repeat split; try assumption.
      now apply runTestCase_no_language with x.
Qed.

Lemma caught_cases (err : exn) (c' : cache) (t : list request) :
  (err = ExecutionAbortedError /\
   caught err c' t =
     {| returned := inr (failed (lit "Execution aborted by user.")
                           (lit "ABORTED"));
        shown := []; cache_after := c'; requests := t |}) \/
  (err <> ExecutionAbortedError /\
   caught err c' t =
     {| returned := inr (failed (exn_message err) (lit "ERROR"));
        shown := [lit "Could not execute testcase via tio.run: "
                  ++ exn_message err];
        cache_after := c'; requests := t |}).
Proof.
  destruct err; [right|left|right]; (split; [|reflexivity]);
    try discriminate; reflexivity.
Qed.

Lemma tio_language_inl (err : exn) :
  tio_language language overrideTioLanguage = inl err <->
  overrideTioLanguage = None /\
  exists l, language = Some l /\ mapLanguageToTio l = inl err.
Proof.
  unfold tio_language.
  destruct overrideTioLanguage as [t|].
  - split; [discriminate|intros [X _]; discriminate].
  - destruct language as [l|].
    + destruct (mapLanguageToTio l) as [x|t] eqn:Ml.
      * split.
        -- intros [= <-]. split; [reflexivity|]. now exists l.
        -- intros [_ (l' & [= <-] & X)]. congruence.
      * split; [discriminate|].
        intros [_ (l' & [= <-] & X)]. congruence.
    + split; [discriminate|]. intros [_ (l' & X & _)]. discriminate.
Qed.

(** X17. [runTestCase] rejects in one case only: no override language is
    given and the language of the file has a name that [mapLanguageToTio]
    does not support. The exception is the one of [mapLanguageToTio];
    nothing is shown, no request is made and the cache is untouched. Every
    later failure (reading the file, the remote run) becomes a [Run]. *)
Theorem rejects_only_unsupported (err : exn) :
  (returned
     (runTestCase h e language binPath input srcPath overrideTioLanguage c) =
     inl err <->
   overrideTioLanguage = None /\
   exists l, language = Some l /\ mapLanguageToTio l = inl err) /\
  (returned
     (runTestCase h e language binPath input srcPath overrideTioLanguage c) =
     inl err ->
   runTestCase h e language binPath input srcPath overrideTioLanguage c =
     {| returned := inl err; shown := []; cache_after := c;
        requests := [] |}).
Proof.
  rewrite <- tio_language_inl.
  destruct runTestCase_cases
    as [(x & T & R)|[(x & T & X & R)|[(x & t & f & T & X & F & R)
       |(x & t & code & T & X & F & R)]]]; rewrite R, T.
  - cbn [returned]. split; [split; congruence|]. now intros [= <-].
  - cbn [returned]. split; [split; discriminate|discriminate].
  - destruct (caught_cases (Raised f) c []) as [[_ ->]|[_ ->]];
      cbn [returned]; (split; [split; discriminate|discriminate]).
  - destruct (value (remote_call h e t input code c)) as [x'|resp].
    + destruct (caught_cases x' (final (remote_call h e t input code c))
                  (trace (remote_call h e t input code c)))
        as [[_ ->]|[_ ->]];
        cbn [returned]; (split; [split; discriminate|discriminate]).
    + cbn [returned]. split; [split; discriminate|discriminate].
Qed.

(** X18. A [Run] returned by [runTestCase] is of one of three kinds.
    Completed: [signal] is null, [stderr] is empty and nothing is shown.
    Aborted: [signal] is ABORTED, [stderr] reads Execution aborted by
    user. and nothing is shown. Failed: [signal] is ERROR and exactly one
    message is shown, either [stderr] itself or [stderr] after the words
    Could not execute testcase via tio.run. An aborted or failed [Run]
    keeps the initial [stdout], [code], [time] and [timeOut]. *)
Theorem run_outcomes (r : Run) :
  returned
    (runTestCase h e language binPath input srcPath overrideTioLanguage c) =
    inr r ->
  (signal r = None /\ stderr r = [] /\
   shown (runTestCase h e language binPath input srcPath
            overrideTioLanguage c) = []) \/
  (signal r = Some (lit "ABORTED") /\ blank r /\
   stderr r = lit "Execution aborted by user." /\
   shown (runTestCase h e language binPath input srcPath
            overrideTioLanguage c) = []) \/
  (signal r = Some (lit "ERROR") /\ blank r /\
   (shown (runTestCase h e language binPath input srcPath
             overrideTioLanguage c) = [stderr r] \/
    shown (runTestCase h e language binPath input srcPath
             overrideTioLanguage c) =
      [lit "Could not execute testcase via tio.run: " ++ stderr r])).
Proof.
  assert (B : forall a b, blank (failed a b)) by (intros; now repeat split).
  assert (K : forall x c' t, returned (caught x c' t) = inr r ->
     (signal r = Some (lit "ABORTED") /\ blank r /\
      stderr r = lit "Execution aborted by user." /\
      shown (caught x c' t) = []) \/
     (signal r = Some (lit "ERROR") /\ blank r /\
      (shown (caught x c' t) = [stderr r] \/
       shown (caught x c' t) =
         [lit "Could not execute testcase via tio.run: " ++ stderr r]))).
  { intros x c' t.
    destruct (caught_cases x c' t) as [[_ ->]|[_ ->]];
      cbn [returned shown]; intros [= <-]; [left|right];
      cbn [signal stderr failed]; repeat split; auto. }
  destruct runTestCase_cases
    as [(x & T & R)|[(x & T & X & R)|[(x & t & f & T & X & F & R)
       |(x & t & code & T & X & F & R)]]]; rewrite R.
  - discriminate.
  - cbn [returned shown]. intros [= <-]. right. right.
    cbn [signal stderr failed]. repeat split; auto.
  - intros V. right. now apply K.
  - destruct (value (remote_call h e t input code c)) as [x'|resp].
    + intros V. right. now apply K.
    + cbn [returned shown]. intros [= <-]. left. now repeat split.
Qed.

Lemma failed_signal (a b : jsstring) (r : Run) :
  failed a b = r -> signal r = Some b.
Proof. now intros <-. Qed.

Lemma caught_aborted (x : exn) (c' : cache) (t : list request) (r : Run) :
  returned (caught x c' t) = inr r -> signal r = Some (lit "ABORTED") ->
  x = ExecutionAbortedError.
Proof.
  destruct (caught_cases x c' t) as [[E _]|[_ ->]]; [now intros|].
  cbn [returned]. intros [= <-]. discriminate.
Qed.

(** X19. A [Run] is marked ABORTED only if the controller of the call was
    aborted: before its signal was looked at, or while the POST was in
    flight without the timer of a finite time-out firing as well.
    Conversely, when the language resolves, the file is read, the endpoint
    resolves and the controller was aborted beforehand, the call returns
    the ABORTED [Run], shows nothing, and makes the requests of the
    endpoint resolution only: no POST is sent. *)
Theorem aborted_by_kill :
  (forall r,
     returned
       (runTestCase h e language binPath input srcPath overrideTioLanguage
          c) = inr r ->
     signal r = Some (lit "ABORTED") ->
     killed h = true \/
     (In SignalAborts (inflight e) /\
      ~ (isFinite (getTimeOutPref h) = true /\
         In TimerFires (inflight e)))) /\
  (forall x t code,
     tio_language language overrideTioLanguage = inr x ->
     truthy x = Some t ->
     readFile h (nullish srcPath binPath) = inr code ->
     value (ensureRunUrl e c) = inr tt ->
     killed h = true ->
     runTestCase h e language binPath input srcPath overrideTioLanguage c =
       {| returned := inr (failed (lit "Execution aborted by user.")
                             (lit "ABORTED"));
          shown := [];
          cache_after := final (ensureRunUrl e c);
          requests := trace (ensureRunUrl e c) |} /\
     existsb is_post (trace (ensureRunUrl e c)) = false).
Proof.
  split.
  - intros r.
    destruct runTestCase_cases
      as [(x & T & R)|[(x & T & X & R)|[(x & t & f & T & X & F & R)
         |(x & t & code & T & X & F & R)]]]; rewrite R.
    + discriminate.
    + cbn [returned]. intros [= <-]. discriminate.
    + intros V S. apply (caught_aborted _ _ _ V) in S. discriminate.
    + destruct (value (remote_call h e t input code c)) as [x'|resp] eqn:V.
      * intros V' S. apply (caught_aborted _ _ _ V') in S. subst x'.
        unfold remote_call in V. apply runOnTio_cancelled in V.
        destruct V as [V|[[_ V1] V2]]; [now left|right].
        split; [exact V1|]. intros [A B]. apply V2.
        split; [|exact B]. now apply armed_finite.
      * cbn [returned]. intros [= <-]. discriminate.
  - intros x t code T X F E K.
    split; [|apply ensureRunUrl_trace].
    rewrite (runTestCase_ran T X F). unfold remote_call.
    rewrite (@runOnTio_pre_aborted _ e code (run_options h t input) c K).
    cbn [value final trace]. now rewrite E.
Qed.

Lemma timed_out_code (o : NormalizedOptions) :
  code (completed (timed_out_response o)) = Some (Fin 124%Q) /\
  timeOut (completed (timed_out_response o)) = true /\
  signal (completed (timed_out_response o)) = None /\
  stderr (completed (timed_out_response o)) = [].
Proof. now repeat split. Qed.

(** X20. Time-outs as [runTestCase] reports them. When the language
    resolves, the file is read, the endpoint resolves, the controller is
    not aborted beforehand, the time-out preference is a finite number and
    the timer fires while the POST is in flight, the call returns a [Run]
    with [timeOut] true, [code] 124, [signal] null and [stderr] empty, and
    shows nothing. Conversely a [Run] returned has [timeOut] true only if
    the timer fired in flight and the controller was not aborted
    beforehand; its [code] is then 124. *)
Theorem timed_out_run :
  (forall x t source,
     tio_language language overrideTioLanguage = inr x ->
     truthy x = Some t ->
     readFile h (nullish srcPath binPath) = inr source ->
     value (ensureRunUrl e c) = inr tt ->
     killed h = false ->
     isFinite (getTimeOutPref h) = true ->
     In TimerFires (inflight e) ->
     exists r,
       returned
         (runTestCase h e language binPath input srcPath
            overrideTioLanguage c) = inr r /\
       timeOut r = true /\ code r = Some (Fin 124%Q) /\
       signal r = None /\ stderr r = [] /\
       shown (runTestCase h e language binPath input srcPath
                overrideTioLanguage c) = []) /\
  (forall r,
     returned
       (runTestCase h e language binPath input srcPath overrideTioLanguage
          c) = inr r ->
     timeOut r = true ->
     In TimerFires (inflight e) /\ killed h = false /\
     code r = Some (Fin 124%Q)).
Proof.
  split.
  - intros x t code T X F E K Fi I.
    rewrite (runTestCase_ran T X F). unfold remote_call.
    set (o := run_options h t input).
    assert (Hp : pre_aborted (o_signal o) = false) by exact K.
    assert (Ht : timer_fired e (Tio.normalize o)).
    { split; [now apply armed_finite|exact I]. }
    rewrite (@runOnTio_sent _ e code o c E Hp).
    rewrite (@executeRequest_timer e _ (Tio.normalize o) _ Hp Ht).
    cbn [buffer returned shown].
    exists (completed (timed_out_response (Tio.normalize o))).
    now repeat split.
  - intros r.
    destruct runTestCase_cases
      as [(x & T & R)|[(x & T & X & R)|[(x & t & f & T & X & F & R)
         |(x & t & code & T & X & F & R)]]]; rewrite R.
    + discriminate.
    + cbn [returned]. intros [= <-]. discriminate.
    + destruct (caught_cases (Raised f) c []) as [[_ ->]|[_ ->]];
        cbn [returned]; intros [= <-]; discriminate.
    + destruct (value (remote_call h e t input code c)) as [x'|resp] eqn:V.
      * destruct (caught_cases x' (final (remote_call h e t input code c))
                    (trace (remote_call h e t input code c)))
          as [[_ ->]|[_ ->]]; cbn [returned]; intros [= <-]; discriminate.
      * cbn [returned]. intros [= <-]. cbn [timeOut completed].
        intros TO. unfold remote_call in V.
        destruct (@runOnTio_value_inr _ _ _ _ _ _ V) as [E Hp].
        destruct (@runOnTio_returns _ _ _ _ _ _ E Hp V)
          as [[Ht ->]|[_ (data & raw & _ & _ & D)]].
        -- split; [exact (proj2 Ht)|]. split; [exact Hp|reflexivity].
        -- apply decode_inr in D as (_ & m & _ & ->). discriminate.
Qed.

(** X21. The [time] of every [Run] returned is [NaN], [+Infinity] or a
    whole number of milliseconds that is not negative: it is never
    negative and never a fraction. (It is computed in binary64: a real
    time of 0.5005 s gives 500, since the product by 1000 falls just
    below 500.5.) *)
Theorem run_time_whole (r : Run) :
  returned
    (runTestCase h e language binPath input srcPath overrideTioLanguage c) =
    inr r ->
  time r = NaN \/ time r = PosInf \/
  exists n : N, time r = Fin (inject_Z (Z.of_N n)).
Proof.
  assert (Z0 : forall a b,
    time (failed a b) = NaN \/ time (failed a b) = PosInf \/
    exists n : N, time (failed a b) = Fin (inject_Z (Z.of_N n))).
  { intros a b. right. right. now exists 0%N. }
  destruct runTestCase_cases
    as [(x & T & R)|[(x & T & X & R)|[(x & t & f & T & X & F & R)
       |(x & t & code & T & X & F & R)]]]; rewrite R.
  - discriminate.
  - cbn [returned]. intros [= <-]. apply Z0.
  - destruct (caught_cases (Raised f) c []) as [[_ ->]|[_ ->]];
      cbn [returned]; intros [= <-]; apply Z0.
  - destruct (value (remote_call h e t input code c)) as [x'|resp] eqn:V.
    + destruct (caught_cases x' (final (remote_call h e t input code c))
                  (trace (remote_call h e t input code c)))
        as [[_ ->]|[_ ->]]; cbn [returned]; intros [= <-]; apply Z0.
    + cbn [returned]. intros [= <-]. cbn [time completed].
      apply whole_time. unfold remote_call in V.
      destruct (@runOnTio_value_inr _ _ _ _ _ _ V) as [E Hp].
      destruct (@runOnTio_returns _ _ _ _ _ _ E Hp V)
        as [[Ht ->]|[_ (data & raw & _ & _ & D)]].
      * cbn [realTime timed_out_response]. apply armed_measure.
        exact (proj1 Ht).
      * apply decode_inr in D as (_ & m & _ & ->). cbn [realTime].
        apply measure_parseFloat.
Qed.

(** X22. The verdict of [runSingleAndSave] on the runs of [runTestCase]. A
    run passes only if the remote call returned a reply of the server that
    decoded (not the time-out result), the exit code decoded is 0, the
    output is accepted by [isResultCorrect] and the controller was not
    aborted beforehand. So a run that timed out, was aborted or failed
    never passes, whatever the preference about stderr. *)
Theorem passing_run (ignoreStderr : bool) (isResultCorrect : jsstring -> bool)
    (r : Run) :
  returned
    (runTestCase h e language binPath input srcPath overrideTioLanguage c) =
    inr r ->
  pass ignoreStderr isResultCorrect r = true ->
  exists t source data raw tioResponse,
    tio_language language overrideTioLanguage = inr (Some t) /\
    readFile h (nullish srcPath binPath) = inr source /\
    value (remote_call h e t input source c) = inr tioResponse /\
    gunzipSync data = inr raw /\
    decode false (Buffer_toString raw) = inr tioResponse /\
    exitCode tioResponse = Fin 0%Q /\
    r = completed tioResponse /\
    isResultCorrect (output tioResponse) = true /\
    killed h = false.
Proof.
  assert (P : forall a b, pass ignoreStderr isResultCorrect (failed a b)
                          = false).
  { intros a b. unfold pass, didError. cbn [signal failed code code_failed].
    now rewrite orb_true_r. }
  destruct runTestCase_cases
    as [(x & T & R)|[(x & T & X & R)|[(x & t & f & T & X & F & R)
       |(x & t & src & T & X & F & R)]]]; rewrite R.
  - discriminate.
  - cbn [returned]. intros [= <-]. now rewrite P.
  - destruct (caught_cases (Raised f) c []) as [[_ ->]|[_ ->]];
      cbn [returned]; intros [= <-]; now rewrite P.
  - destruct (value (remote_call h e t input src c)) as [x'|resp] eqn:V.
    + destruct (caught_cases x' (final (remote_call h e t input src c))
                  (trace (remote_call h e t input src c)))
        as [[_ ->]|[_ ->]]; cbn [returned]; intros [= <-]; now rewrite P.
    + cbn [returned]. intros [= <-]. unfold pass, didError.
      cbn [code signal stderr stdout completed is_nil].
      destruct (code_failed (Some (exitCode resp))) eqn:CF;
        [discriminate|].
      assert (St : (if ignoreStderr then false else negb true) = false)
        by now destruct ignoreStderr.
      rewrite St. cbn [orb]. intros J.
      pose proof V as V'. unfold remote_call in V'.
      destruct (@runOnTio_value_inr _ _ _ _ _ _ V') as [E Hp].
      destruct (@runOnTio_returns _ _ _ _ _ _ E Hp V')
        as [[Ht ->]|[_ (data & raw & _ & G & D)]]; [discriminate|].
      exists t, src, data, raw, resp.
      split; [now rewrite T, (truthy_inv _ X)|].
      repeat split; try assumption; try exact Hp.
      pose proof D as D'.
      apply decode_inr in D' as (_ & m & Hm & ->).
      cbn [exitCode] in *.
      apply DEBUG_REGEX_sound in Hm as [(_ & _ & _ & _ & _ & Fd) _].
      rewrite (Number_digits _ Fd) in *.
      set (n := digits_val 0 (g_exitCode m)) in *.
      destruct (of_real_nonneg (whole_nonneg n)) as [[N _]|[N _]];
        rewrite N in *; cbn [code_failed] in CF; [discriminate CF|].
      apply negb_false_iff, Qeq_bool_iff in CF.
      destruct (Z.eq_dec (Z.of_N n) 0) as [Z0|Z0]; [now rewrite Z0|].
      exfalso. destruct (@b64_int_pos (Z.of_N n)) as (z & Hz & B); [lia|].
      rewrite B in CF. unfold Qeq in CF. cbn in CF. lia.
Qed.

End TestCase.

Lemma rejects_only_unsupported_witness :
  returned (@runTestCase Sample.stored ascii_casing
              (Desk.desk (Fin 2000%Q) false)
              (Sample.serving 100 Sample.site [] Desk.answer)
              (Some Desk.cobol) (lit "/home/u/a.out") (lit "1 2")
              (Some Desk.solution) None initial) =
    inl (Error (lit "Unsupported language for tio.run: cobol")).
Proof.
  apply (@rejects_only_unsupported Sample.stored ascii_casing
           (Desk.desk (Fin 2000%Q) false)
           (Sample.serving 100 Sample.site [] Desk.answer)
           (Some Desk.cobol) (lit "/home/u/a.out") (lit "1 2")
           (Some Desk.solution) None initial).
  split; [reflexivity|]. exists Desk.cobol. split; reflexivity.
Defined.

Lemma aborted_by_kill_witness :
  returned (@runTestCase Sample.stored ascii_casing
              (Desk.desk (Fin 2000%Q) true)
              (Sample.serving 100 Sample.site [] Desk.answer)
              (Some Desk.python) (lit "/home/u/a.out") (lit "1 2")
              (Some Desk.solution) None initial) =
    inr (failed (lit "Execution aborted by user.") (lit "ABORTED")).
Proof.
  destruct (@aborted_by_kill Sample.stored ascii_casing
              (Desk.desk (Fin 2000%Q) true)
              (Sample.serving 100 Sample.site [] Desk.answer)
              (Some Desk.python) (lit "/home/u/a.out") (lit "1 2")
              (Some Desk.solution) None initial) as [_ K].
  destruct (K (Some (lit "python3")) (lit "python3") Sample.source
              eq_refl eq_refl eq_refl ltac:(vm_compute; reflexivity)
              eq_refl) as [-> _].
  reflexivity.
Defined.

Lemma timed_out_run_witness :
  exists r,
    returned (@runTestCase Sample.stored ascii_casing
                (Desk.desk (Fin 2000%Q) false)
                (Sample.world 100 Sample.site [TimerFires])
                (Some Desk.python) (lit "/home/u/a.out") (lit "1 2")
                (Some Desk.solution) None initial) = inr r /\
    timeOut r = true /\ code r = Some (Fin 124%Q).
Proof.
  destruct (@timed_out_run Sample.stored ascii_casing
              (Desk.desk (Fin 2000%Q) false)
              (Sample.world 100 Sample.site [TimerFires])
              (Some Desk.python) (lit "/home/u/a.out") (lit "1 2")
              (Some Desk.solution) None initial) as [T _].
  destruct (T (Some (lit "python3")) (lit "python3") Sample.source
              eq_refl eq_refl eq_refl ltac:(vm_compute; reflexivity)
              eq_refl eq_refl ltac:(left; reflexivity))
    as (r & R & A & B & _).
  exists r. split; [exact R|]. split; [exact A|exact B].
Defined.

Lemma run_outcomes_witness :
  exists r,
    returned (@runTestCase Sample.stored ascii_casing
                (Desk.desk (Fin 2000%Q) false)
                (Sample.serving 100 Sample.site [] Desk.answer)
                (Some Desk.python) (lit "/home/u/a.out") (lit "1 2")
                (Some (lit "/home/u/b.py")) None initial) = inr r /\
    signal r = Some (lit "ERROR") /\
    stderr r = lit "ENOENT: no such file or directory".
Proof.
  eexists. split; [vm_compute; reflexivity|].
  destruct (@run_outcomes Sample.stored ascii_casing
              (Desk.desk (Fin 2000%Q) false)
              (Sample.serving 100 Sample.site [] Desk.answer)
              (Some Desk.python) (lit "/home/u/a.out") (lit "1 2")
              (Some (lit "/home/u/b.py")) None initial _
              ltac:(vm_compute; reflexivity))
    as [(X & _)|[(X & _)|(X & _)]].
  - discriminate X.
  - discriminate X.
  - split; [exact X|reflexivity].
Defined.

Lemma run_time_whole_witness :
  exists r,
    returned (@runTestCase Sample.stored ascii_casing
                (Desk.desk (Fin 2000%Q) false)
                (Sample.serving 100 Sample.site [] Desk.answer_half)
                (Some Desk.python) (lit "/home/u/a.out") (lit "1 2")
                (Some Desk.solution) None initial) = inr r /\
    time r = Fin 500%Q.
Proof.
  eexists. split; [vm_compute; reflexivity|].
  destruct (@run_time_whole Sample.stored ascii_casing
              (Desk.desk (Fin 2000%Q) false)
              (Sample.serving 100 Sample.site [] Desk.answer_half)
              (Some Desk.python) (lit "/home/u/a.out") (lit "1 2")
              (Some Desk.solution) None initial _
              ltac:(vm_compute; reflexivity))
    as [X|[X|[n X]]]; [discriminate X|discriminate X|].
  reflexivity.
Defined.

Lemma passing_run_witness :
  exists tioResponse,
    value (@remote_call Sample.stored (Desk.desk (Fin 2000%Q) false)
             (Sample.serving 100 Sample.site [] Desk.answer)
             (lit "python3") (lit "1 2") Sample.source initial) =
      inr tioResponse /\
    exitCode tioResponse = Fin 0%Q /\
    Desk.says_hello (output tioResponse) = true.
Proof.
  destruct (@passing_run Sample.stored ascii_casing
              (Desk.desk (Fin 2000%Q) false)
              (Sample.serving 100 Sample.site [] Desk.answer)
              (Some Desk.python) (lit "/home/u/a.out") (lit "1 2")
              (Some Desk.solution) None initial false Desk.says_hello
              _ ltac:(vm_compute; reflexivity) ltac:(vm_compute; reflexivity))
    as (t & src & data & raw & resp & T & F & V & _ & _ & X & _ & J & _).
  injection T as <-. injection F as <-.
  exists resp. split; [exact V|]. split; [exact X|exact J].
Defined.

End ExecFacts.
